(** * Vault-token registry and escrow marketplace

    A shallow embedding of the two Solidity contracts of the repository,
    [GiftCardNFT] and [Marketplace], together with the parts of their
    execution environment that their functions call into: the fungible-asset
    ledger, the inherited ERC-721 ownership registry, native-currency
    balances and the re-entrancy guard.  After them come the repository's
    mock asset, [MockERC20], and two pieces of its front end: the content
    store of the IPFS service and the word wrap of the placeholder artwork.

    Contract storage is a record of total maps (a Solidity [mapping] answers
    the zero value at every key that was never written).  A function body is
    a computation in a state-and-revert monad: statements run in the order
    of the source, and a [revert] discards every write made so far, which is
    what the ledger does with a failed call. *)

From Stdlib Require Import ZArith NArith List String Ascii Bool Lia.
From Stdlib Require Import DecimalString DecimalN.
Import ListNotations.

Local Open Scope Z_scope.

(* ================================================================== *)
(** ** Values *)

(** Addresses and unsigned 256-bit words are integers; [address(0)] is [0].
    The only arithmetic of the two contracts is the increment of their
    counters, checked for overflow as written out in [checked_increment]. *)
Definition address := Z.
Definition uint256 := Z.

Definition MAX_UINT256 : Z := 2 ^ 256 - 1.

(** [mapping(K => V)] with integer keys: total, zero-valued where unwritten. *)
Definition mapping (V : Type) := Z -> V.

Definition upd {V : Type} (m : mapping V) (k : Z) (v : V) : mapping V :=
  fun k' => if k' =? k then v else m k'.

Definition upd2 {V : Type} (m : Z -> Z -> V) (k1 k2 : Z) (v : V) : Z -> Z -> V :=
  fun a b => if (a =? k1) && (b =? k2) then v else m a b.

(* ================================================================== *)
(** ** Storage layout *)

(** [struct TokenVault] of GiftCardNFT. *)
Record TokenVault := mkTokenVault {
  tokenAddress : address;
  amount : uint256;
  liquidated : bool
}.

Definition TokenVault_zero : TokenVault := mkTokenVault 0 0 false.

(** [struct ArtistListing] of Marketplace. *)
Module ArtistListing.
Record t := mk {
  listingId : uint256;
  artist : address;
  ipfsHash : string;
  price : uint256;
  active : bool
}.
Definition zero : t := mk 0 0 EmptyString 0 false.
Definition deactivate (l : t) : t :=
  mk (listingId l) (artist l) (ipfsHash l) (price l) false.
End ArtistListing.

(** [struct GiftCardListing] of Marketplace. *)
Module GiftCardListing.
Record t := mk {
  listingId : uint256;
  tokenId : uint256;
  seller : address;
  price : uint256;
  active : bool
}.
Definition zero : t := mk 0 0 0 0 false.
Definition deactivate (l : t) : t :=
  mk (listingId l) (tokenId l) (seller l) (price l) false.
End GiftCardListing.

(** Storage of GiftCardNFT: its own three variables, the variables of the
    ERC-721 base it inherits, and the flag of the re-entrancy guard. *)
Record GiftCardNFT := mkGiftCardNFT {
  _owners : mapping address;
  _balances : mapping uint256;
  _tokenApprovals : mapping address;
  _operatorApprovals : address -> address -> bool;
  _tokenURIs : mapping string;
  _vaults : mapping TokenVault;
  _tokenIdCounter : uint256;
  nft_entered : bool
}.

(** Storage of Marketplace. *)
Record Marketplace := mkMarketplace {
  _artistListings : mapping ArtistListing.t;
  _giftCardListings : mapping GiftCardListing.t;
  _artistListingCounter : uint256;
  _giftCardListingCounter : uint256;
  market_entered : bool
}.

(** The records emitted by the two contracts (their [event] declarations). *)
Inductive Event :=
| GiftCardCreated (tokenId : uint256) (creator : address)
                  (tokenAddress : address) (amount : uint256)
| GiftCardLiquidated (tokenId : uint256) (owner : address) (amount : uint256)
| ArtistListingCreated (listingId : uint256) (artist : address) (price : uint256)
| ArtistDesignPurchased (listingId : uint256) (buyer artist : address)
| GiftCardListed (listingId tokenId price : uint256)
| GiftCardSold (listingId tokenId : uint256) (buyer : address)
| ListingCancelled (listingId : uint256) (listingType : string).

(** The ledger as the contracts see it.  [erc20_balances token holder] and
    [erc20_allowances token owner spender] are the books of the fungible
    assets, [native] the native-currency balances, [events] the emitted
    records, newest first. *)
Record World := mkWorld {
  nft : GiftCardNFT;
  market : Marketplace;
  erc20_balances : address -> address -> uint256;
  erc20_allowances : address -> address -> address -> uint256;
  native : address -> uint256;
  events : list Event
}.

(* ------------------------------------------------------------------ *)
(** Field updates. *)

Definition with_nft (n : GiftCardNFT) (w : World) : World :=
  mkWorld n (market w) (erc20_balances w) (erc20_allowances w) (native w) (events w).

Definition with_market (m : Marketplace) (w : World) : World :=
  mkWorld (nft w) m (erc20_balances w) (erc20_allowances w) (native w) (events w).

Definition with_erc20_balances (b : address -> address -> uint256) (w : World) : World :=
  mkWorld (nft w) (market w) b (erc20_allowances w) (native w) (events w).

Definition with_erc20_allowances (a : address -> address -> address -> uint256)
    (w : World) : World :=
  mkWorld (nft w) (market w) (erc20_balances w) a (native w) (events w).

Definition with_native (b : address -> uint256) (w : World) : World :=
  mkWorld (nft w) (market w) (erc20_balances w) (erc20_allowances w) b (events w).

Definition with_events (l : list Event) (w : World) : World :=
  mkWorld (nft w) (market w) (erc20_balances w) (erc20_allowances w) (native w) l.

Definition with_owners (f : mapping address) (n : GiftCardNFT) : GiftCardNFT :=
  mkGiftCardNFT f (_balances n) (_tokenApprovals n) (_operatorApprovals n)
    (_tokenURIs n) (_vaults n) (_tokenIdCounter n) (nft_entered n).

Definition with_balances (f : mapping uint256) (n : GiftCardNFT) : GiftCardNFT :=
  mkGiftCardNFT (_owners n) f (_tokenApprovals n) (_operatorApprovals n)
    (_tokenURIs n) (_vaults n) (_tokenIdCounter n) (nft_entered n).

Definition with_tokenApprovals (f : mapping address) (n : GiftCardNFT) : GiftCardNFT :=
  mkGiftCardNFT (_owners n) (_balances n) f (_operatorApprovals n)
    (_tokenURIs n) (_vaults n) (_tokenIdCounter n) (nft_entered n).

Definition with_operatorApprovals (f : address -> address -> bool)
    (n : GiftCardNFT) : GiftCardNFT :=
  mkGiftCardNFT (_owners n) (_balances n) (_tokenApprovals n) f
    (_tokenURIs n) (_vaults n) (_tokenIdCounter n) (nft_entered n).

Definition with_tokenURIs (f : mapping string) (n : GiftCardNFT) : GiftCardNFT :=
  mkGiftCardNFT (_owners n) (_balances n) (_tokenApprovals n) (_operatorApprovals n)
    f (_vaults n) (_tokenIdCounter n) (nft_entered n).

Definition with_vaults (f : mapping TokenVault) (n : GiftCardNFT) : GiftCardNFT :=
  mkGiftCardNFT (_owners n) (_balances n) (_tokenApprovals n) (_operatorApprovals n)
    (_tokenURIs n) f (_tokenIdCounter n) (nft_entered n).

Definition with_tokenIdCounter (c : uint256) (n : GiftCardNFT) : GiftCardNFT :=
  mkGiftCardNFT (_owners n) (_balances n) (_tokenApprovals n) (_operatorApprovals n)
    (_tokenURIs n) (_vaults n) c (nft_entered n).

Definition with_nft_entered (b : bool) (n : GiftCardNFT) : GiftCardNFT :=
  mkGiftCardNFT (_owners n) (_balances n) (_tokenApprovals n) (_operatorApprovals n)
    (_tokenURIs n) (_vaults n) (_tokenIdCounter n) b.

Definition with_artistListings (f : mapping ArtistListing.t) (m : Marketplace) : Marketplace :=
  mkMarketplace f (_giftCardListings m) (_artistListingCounter m)
    (_giftCardListingCounter m) (market_entered m).

Definition with_giftCardListings (f : mapping GiftCardListing.t) (m : Marketplace) : Marketplace :=
  mkMarketplace (_artistListings m) f (_artistListingCounter m)
    (_giftCardListingCounter m) (market_entered m).

Definition with_artistListingCounter (c : uint256) (m : Marketplace) : Marketplace :=
  mkMarketplace (_artistListings m) (_giftCardListings m) c
    (_giftCardListingCounter m) (market_entered m).

Definition with_giftCardListingCounter (c : uint256) (m : Marketplace) : Marketplace :=
  mkMarketplace (_artistListings m) (_giftCardListings m) (_artistListingCounter m)
    c (market_entered m).

Definition with_market_entered (b : bool) (m : Marketplace) : Marketplace :=
  mkMarketplace (_artistListings m) (_giftCardListings m) (_artistListingCounter m)
    (_giftCardListingCounter m) b.

(* ================================================================== *)
(** ** Errors and the state-and-revert monad *)

(** The custom errors of the two contracts, followed by the failures of the
    inherited code they call and of the ledger itself; the last one is a
    failure that carries no error data, as a call to an address without
    code fails. *)
Inductive Error :=
| InsufficientBalance
| InvalidTokenAddress
| NotTokenOwner
| AlreadyLiquidated
| TransferFailed
| InvalidListing
| InsufficientPayment
| NotSeller
| NotApproved
| ERC721NonexistentToken (tokenId : uint256)
| ERC721IncorrectOwner
| ERC721InsufficientApproval
| ERC721InvalidReceiver
| ERC721InvalidSender
| ERC721InvalidApprover
| ERC721InvalidOperator
| ERC20InsufficientBalance
| ERC20InsufficientAllowance
| ERC20InvalidSender
| ERC20InvalidReceiver
| ERC20InvalidApprover
| ERC20InvalidSpender
| ReentrancyGuardReentrantCall
| ArithmeticOverflow
| InsufficientFunds
| RevertWithoutData.

Inductive Result (A : Type) :=
| Ok (a : A) (w : World)
| Revert (e : Error).

Arguments Ok {A} a w.
Arguments Revert {A} e.

Definition M (A : Type) := World -> Result A.

Definition ret {A : Type} (a : A) : M A := fun w => Ok a w.

Definition bind {A B : Type} (c : M A) (k : A -> M B) : M B :=
  fun w => match c w with
           | Ok a w' => k a w'
           | Revert e => Revert e
           end.

Definition revert {A : Type} (e : Error) : M A := fun _ => Revert e.

Definition gets {A : Type} (f : World -> A) : M A := fun w => Ok (f w) w.

Definition modify (f : World -> World) : M unit := fun w => Ok tt (f w).

(** [if (b) revert e;] *)
Definition revert_if (b : bool) (e : Error) : M unit :=
  if b then revert e else ret tt.

Definition emit (e : Event) : M unit :=
  modify (fun w => with_events (e :: events w) w).

Declare Scope sol_scope.
Delimit Scope sol_scope with sol.

Notation "x <- c ;; k" := (bind c (fun x => k))
  (at level 61, c at next level, right associativity) : sol_scope.
Notation "c ;; k" := (bind c (fun _ => k))
  (at level 61, right associativity) : sol_scope.

Local Open Scope sol_scope.

(** The accounts the contracts hand control to.  [nft_address] and
    [market_address] are [address(this)] of the two deployed contracts.
    [receive_ether to w v] answers whether a plain call carrying [v] to
    account [to] completes, given the ledger [w] that account observes when
    it is called; [onERC721Received to w operator from tokenId] answers
    whether [to] accepts a safe transfer (an account without code does).
    Called accounts observe and answer; they make no nested calls. *)
Class Deployment := {
  nft_address : address;
  market_address : address;
  receive_ether : address -> World -> uint256 -> bool;
  onERC721Received : address -> World -> address -> address -> uint256 -> bool;
  nft_address_nonzero : nft_address <> 0;
  market_address_nonzero : market_address <> 0;
  contracts_distinct : nft_address <> market_address
}.

Section Contracts.

Context {deployment : Deployment}.

(* ================================================================== *)
(** ** The fungible-asset ledger *)

(** Modelled from the spec: section 6 names the asset-transfer service by
    its interface ([balanceOf], [transfer], [transferFrom]); the bodies below
    follow the standard ERC-20 token the repository's own mock asset
    extends, whose code is not under src/.  Every asset keeps an ordinary
    book of balances and allowances; what a contract that keeps no such
    book does, or an address without code, is an [Asset] of its own
    below. *)
Definition erc20_balanceOf (token holder : address) : M uint256 :=
  gets (fun w => erc20_balances w token holder).

(** [_update(from, to, value)] for two ordinary accounts: debit, then
    credit.  The credit cannot wrap, the token bounds the sum of all
    balances by its checked total supply. *)
Definition erc20_update (token from to : address) (value : uint256) : M unit :=
  fromBalance <- erc20_balanceOf token from ;;
  revert_if (fromBalance <? value) ERC20InsufficientBalance ;;
  modify (fun w =>
    with_erc20_balances (upd2 (erc20_balances w) token from (fromBalance - value)) w) ;;
  modify (fun w =>
    with_erc20_balances
      (upd2 (erc20_balances w) token to (erc20_balances w token to + value)) w).

Definition erc20_transfer_internal (token from to : address) (value : uint256) : M unit :=
  revert_if (from =? 0) ERC20InvalidSender ;;
  revert_if (to =? 0) ERC20InvalidReceiver ;;
  erc20_update token from to value.

(** [transfer(to, value)] called by [sender]. *)
Definition erc20_transfer (token sender to : address) (value : uint256) : M unit :=
  erc20_transfer_internal token sender to value.

(** [approve(spender, value)] called by [sender]. *)
Definition erc20_approve (token sender spender : address) (value : uint256) : M unit :=
  revert_if (sender =? 0) ERC20InvalidApprover ;;
  revert_if (spender =? 0) ERC20InvalidSpender ;;
  modify (fun w =>
    with_erc20_allowances
      (fun t o s => if (t =? token) && ((o =? sender) && (s =? spender))
                    then value else erc20_allowances w t o s) w).

(** [_spendAllowance]: an allowance of [MAX_UINT256] is never consumed. *)
Definition erc20_spendAllowance (token owner spender : address) (value : uint256) : M unit :=
  currentAllowance <- gets (fun w => erc20_allowances w token owner spender) ;;
  if currentAllowance <? MAX_UINT256 then
    revert_if (currentAllowance <? value) ERC20InsufficientAllowance ;;
    modify (fun w =>
      with_erc20_allowances
        (fun t o s => if (t =? token) && ((o =? owner) && (s =? spender))
                      then currentAllowance - value else erc20_allowances w t o s) w)
  else ret tt.

(** [transferFrom(from, to, value)] called by [spender]. *)
Definition erc20_transferFrom (token spender from to : address) (value : uint256) : M unit :=
  erc20_spendAllowance token from spender value ;;
  erc20_transfer_internal token from to value.

(* ================================================================== *)
(** ** The inherited ownership registry *)

(** Modelled from the spec: section 6 names the ownership-transfer interface
    of the vault-token type ([ownerOf], [transferFrom], [getApproved]); the
    bodies below follow the ERC-721 base contract with URI storage that
    GiftCardNFT inherits, whose code is not under src/. *)
Definition _ownerOf (tokenId : uint256) : M address :=
  gets (fun w => _owners (nft w) tokenId).

Definition _requireOwned (tokenId : uint256) : M address :=
  owner <- _ownerOf tokenId ;;
  revert_if (owner =? 0) (ERC721NonexistentToken tokenId) ;;
  ret owner.

Definition ownerOf (tokenId : uint256) : M address := _requireOwned tokenId.

Definition getApproved (tokenId : uint256) : M address :=
  _requireOwned tokenId ;;
  gets (fun w => _tokenApprovals (nft w) tokenId).

Definition isApprovedForAll (owner operator : address) : M bool :=
  gets (fun w => _operatorApprovals (nft w) owner operator).

Definition _isAuthorized (owner spender : address) (tokenId : uint256) : M bool :=
  operator <- isApprovedForAll owner spender ;;
  approved <- gets (fun w => _tokenApprovals (nft w) tokenId) ;;
  ret (negb (spender =? 0) &&
       ((owner =? spender) || operator || (approved =? spender))).

Definition _checkAuthorized (owner spender : address) (tokenId : uint256) : M unit :=
  ok <- _isAuthorized owner spender tokenId ;;
  if ok then ret tt
  else if owner =? 0 then revert (ERC721NonexistentToken tokenId)
  else revert ERC721InsufficientApproval.

(** [_update(to, tokenId, auth)]: moves (or mints) the token and returns the
    previous owner.  A move clears the token's approval. *)
Definition _update (to : address) (tokenId : uint256) (auth : address) : M address :=
  from <- _ownerOf tokenId ;;
  (if auth =? 0 then ret tt else _checkAuthorized from auth tokenId) ;;
  (if from =? 0 then ret tt
   else
     modify (fun w => with_nft (with_tokenApprovals
                        (upd (_tokenApprovals (nft w)) tokenId 0) (nft w)) w) ;;
     modify (fun w => with_nft (with_balances
                        (upd (_balances (nft w)) from (_balances (nft w) from - 1))
                        (nft w)) w)) ;;
  (if to =? 0 then ret tt
   else
     modify (fun w => with_nft (with_balances
                        (upd (_balances (nft w)) to (_balances (nft w) to + 1))
                        (nft w)) w)) ;;
  modify (fun w => with_nft (with_owners (upd (_owners (nft w)) tokenId to) (nft w)) w) ;;
  ret from.

(** [transferFrom(from, to, tokenId)] called by [sender]. *)
Definition erc721_transferFrom (sender from to : address) (tokenId : uint256) : M unit :=
  revert_if (to =? 0) ERC721InvalidReceiver ;;
  previousOwner <- _update to tokenId sender ;;
  revert_if (negb (previousOwner =? from)) ERC721IncorrectOwner.

Definition checkOnERC721Received (operator from to : address) (tokenId : uint256) : M unit :=
  accepted <- gets (fun w => onERC721Received to w operator from tokenId) ;;
  revert_if (negb accepted) ERC721InvalidReceiver.

(** [safeTransferFrom(from, to, tokenId)] called by [sender]. *)
Definition erc721_safeTransferFrom (sender from to : address) (tokenId : uint256) : M unit :=
  erc721_transferFrom sender from to tokenId ;;
  checkOnERC721Received sender from to tokenId.

(** [approve(to, tokenId)] called by [sender]. *)
Definition erc721_approve (sender to : address) (tokenId : uint256) : M unit :=
  owner <- _requireOwned tokenId ;;
  operator <- isApprovedForAll owner sender ;;
  revert_if (negb (sender =? 0) && negb (owner =? sender) && negb operator)
            ERC721InvalidApprover ;;
  modify (fun w => with_nft (with_tokenApprovals
                     (upd (_tokenApprovals (nft w)) tokenId to) (nft w)) w).

(** [setApprovalForAll(operator, approved)] called by [sender]. *)
Definition erc721_setApprovalForAll (sender operator : address) (approved : bool) : M unit :=
  revert_if (operator =? 0) ERC721InvalidOperator ;;
  modify (fun w => with_nft (with_operatorApprovals
                     (fun o p => if (o =? sender) && (p =? operator) then approved
                                 else _operatorApprovals (nft w) o p) (nft w)) w).

Definition _mint (to : address) (tokenId : uint256) : M unit :=
  revert_if (to =? 0) ERC721InvalidReceiver ;;
  previousOwner <- _update to tokenId 0 ;;
  revert_if (negb (previousOwner =? 0)) ERC721InvalidSender.

Definition _safeMint (operator to : address) (tokenId : uint256) : M unit :=
  _mint to tokenId ;;
  checkOnERC721Received operator 0 to tokenId.

Definition _setTokenURI (tokenId : uint256) (uri : string) : M unit :=
  modify (fun w => with_nft (with_tokenURIs (upd (_tokenURIs (nft w)) tokenId uri) (nft w)) w).

(** [tokenURI(tokenId)] with the empty base URI the contract keeps. *)
Definition tokenURI (tokenId : uint256) : M string :=
  _requireOwned tokenId ;;
  gets (fun w => _tokenURIs (nft w) tokenId).

(* ================================================================== *)
(** ** Re-entrancy guard, native currency, checked counters *)

(** The [nonReentrant] modifier on a GiftCardNFT function. *)
Definition nonReentrant_nft {A : Type} (body : M A) : M A :=
  entered <- gets (fun w => nft_entered (nft w)) ;;
  revert_if entered ReentrancyGuardReentrantCall ;;
  modify (fun w => with_nft (with_nft_entered true (nft w)) w) ;;
  r <- body ;;
  modify (fun w => with_nft (with_nft_entered false (nft w)) w) ;;
  ret r.

(** The [nonReentrant] modifier on a Marketplace function. *)
Definition nonReentrant_market {A : Type} (body : M A) : M A :=
  entered <- gets (fun w => market_entered (market w)) ;;
  revert_if entered ReentrancyGuardReentrantCall ;;
  modify (fun w => with_market (with_market_entered true (market w)) w) ;;
  r <- body ;;
  modify (fun w => with_market (with_market_entered false (market w)) w) ;;
  ret r.

Definition move_native (from to : address) (value : uint256) (w : World) : World :=
  let b1 := upd (native w) from (native w from - value) in
  with_native (upd b1 to (b1 to + value)) w.

(** Entry into a [payable] Marketplace function: [msg.value] is moved from
    the caller to the contract before the body runs. *)
Definition payable (sender : address) (value : uint256) : M unit :=
  funds <- gets (fun w => native w sender) ;;
  revert_if (funds <? value) InsufficientFunds ;;
  modify (move_native sender market_address value).

(** [(bool success, ) = to.call{value: value}("")] from the Marketplace: the
    value is moved, then the recipient runs; when the recipient fails the
    move is undone and the caller reads [success = false]. *)
Definition call_value (to : address) (value : uint256) : M bool :=
  fun w =>
    if native w market_address <? value then Ok false w
    else
      let w' := move_native market_address to value w in
      if receive_ether to w' value then Ok true w' else Ok false w.

(** [c++] on a [uint256] under checked arithmetic. *)
Definition checked_increment (c : uint256) : M uint256 :=
  revert_if (MAX_UINT256 <=? c) ArithmeticOverflow ;;
  ret (c + 1).

(* ================================================================== *)
(** ** GiftCardNFT *)

(** SafeERC20 forwards the asset's own failure; a standard asset answers
    [true] whenever it does not revert. *)
Definition safeTransferFrom (token from to : address) (value : uint256) : M unit :=
  erc20_transferFrom token nft_address from to value.

Definition safeTransfer (token to : address) (value : uint256) : M unit :=
  erc20_transfer token nft_address to value.

(** What the contract at an asset address does when GiftCardNFT calls it:
    its answer to [balanceOf(account)], and what [safeTransferFrom] and
    [safeTransfer] on it come to.  Each is a computation of its own: the
    called contract runs on the ledger as it is at the moment of the call,
    and it may fail, with its own error or without error data
    ([RevertWithoutData], which is also how a call to an address without
    code fails).  The first argument of each is the asset address. *)
Record Asset := mkAsset {
  asset_balanceOf : address -> address -> M uint256;
  asset_safeTransferFrom : address -> address -> address -> uint256 -> M unit;
  asset_safeTransfer : address -> address -> uint256 -> M unit
}.

(** An asset that keeps the ordinary book of the fungible-asset ledger. *)
Definition standard_asset : Asset :=
  mkAsset erc20_balanceOf safeTransferFrom safeTransfer.

Definition vault_at (tokenId : uint256) : M TokenVault :=
  gets (fun w => _vaults (nft w) tokenId).

(** [createGiftCard], with [asset] for the contract that
    [IERC20(tokenAddress)] turns out to be. *)
Definition createGiftCard_via (asset : Asset) (sender : address) (metadataURI : string)
    (tokenAddress : address) (tokenAmount : uint256) : M uint256 :=
  nonReentrant_nft (
    revert_if (tokenAddress =? 0) InvalidTokenAddress ;;
    revert_if (tokenAmount =? 0) InsufficientBalance ;;
    balance <- asset_balanceOf asset tokenAddress sender ;;
    revert_if (balance <? tokenAmount) InsufficientBalance ;;
    asset_safeTransferFrom asset tokenAddress sender nft_address tokenAmount ;;
    tokenId <- gets (fun w => _tokenIdCounter (nft w)) ;;
    next <- checked_increment tokenId ;;
    modify (fun w => with_nft (with_tokenIdCounter next (nft w)) w) ;;
    _safeMint sender sender tokenId ;;
    _setTokenURI tokenId metadataURI ;;
    modify (fun w => with_nft (with_vaults
              (upd (_vaults (nft w)) tokenId (mkTokenVault tokenAddress tokenAmount false))
              (nft w)) w) ;;
    emit (GiftCardCreated tokenId sender tokenAddress tokenAmount) ;;
    ret tokenId).

(** [createGiftCard] on assets that keep a standard book. *)
Definition createGiftCard (sender : address) (metadataURI : string)
    (tokenAddress : address) (tokenAmount : uint256) : M uint256 :=
  createGiftCard_via standard_asset sender metadataURI tokenAddress tokenAmount.

(** [liquidate], first half: the two checks, then the flag. *)
Definition liquidate_mark (sender : address) (tokenId : uint256) : M unit :=
  owner <- ownerOf tokenId ;;
  revert_if (negb (owner =? sender)) NotTokenOwner ;;
  vault <- vault_at tokenId ;;
  revert_if (liquidated vault) AlreadyLiquidated ;;
  modify (fun w => with_nft (with_vaults
            (upd (_vaults (nft w)) tokenId
                 (mkTokenVault (tokenAddress vault) (amount vault) true))
            (nft w)) w).

(** [liquidate], second half: the payout and its record, both read through
    the [storage] pointer; [asset] is the contract that
    [IERC20(vault.tokenAddress)] turns out to be. *)
Definition liquidate_payout (asset : Asset) (sender : address) (tokenId : uint256)
    : M unit :=
  vault <- vault_at tokenId ;;
  asset_safeTransfer asset (tokenAddress vault) sender (amount vault) ;;
  vault <- vault_at tokenId ;;
  emit (GiftCardLiquidated tokenId sender (amount vault)).

Definition liquidate_via (asset : Asset) (sender : address) (tokenId : uint256)
    : M unit :=
  nonReentrant_nft (
    liquidate_mark sender tokenId ;;
    liquidate_payout asset sender tokenId).

(** [liquidate] on assets that keep a standard book. *)
Definition liquidate (sender : address) (tokenId : uint256) : M unit :=
  liquidate_via standard_asset sender tokenId.

Definition getVaultContents (tokenId : uint256) : M TokenVault :=
  vault_at tokenId.

Definition getMetadataURI (tokenId : uint256) : M string :=
  tokenURI tokenId.

Definition totalSupply : M uint256 :=
  gets (fun w => _tokenIdCounter (nft w)).

(* ================================================================== *)
(** ** Marketplace *)

(** [giftCardNFT], the reference the constructor stores, is the GiftCardNFT
    contract above: the marketplace's calls to [ownerOf], [getApproved] and
    [transferFrom] run on that contract's storage with the marketplace as
    caller.  The two functions below are the reads through the [storage]
    pointers of the source. *)
Definition artistListing_at (listingId : uint256) : M ArtistListing.t :=
  gets (fun w => _artistListings (market w) listingId).

Definition giftCardListing_at (listingId : uint256) : M GiftCardListing.t :=
  gets (fun w => _giftCardListings (market w) listingId).

Definition deactivate_artistListing (listingId : uint256) : M unit :=
  modify (fun w => with_market (with_artistListings
            (upd (_artistListings (market w)) listingId
                 (ArtistListing.deactivate (_artistListings (market w) listingId)))
            (market w)) w).

Definition deactivate_giftCardListing (listingId : uint256) : M unit :=
  modify (fun w => with_market (with_giftCardListings
            (upd (_giftCardListings (market w)) listingId
                 (GiftCardListing.deactivate (_giftCardListings (market w) listingId)))
            (market w)) w).

Definition createArtistListing (sender : address) (ipfsHash : string)
    (price : uint256) : M uint256 :=
  revert_if (Nat.eqb (String.length ipfsHash) 0) InvalidListing ;;
  revert_if (price =? 0) InvalidListing ;;
  listingId <- gets (fun w => _artistListingCounter (market w)) ;;
  next <- checked_increment listingId ;;
  modify (fun w => with_market (with_artistListingCounter next (market w)) w) ;;
  modify (fun w => with_market (with_artistListings
            (upd (_artistListings (market w)) listingId
                 (ArtistListing.mk listingId sender ipfsHash price true))
            (market w)) w) ;;
  emit (ArtistListingCreated listingId sender price) ;;
  ret listingId.

Definition purchaseArtistDesign (sender : address) (value : uint256)
    (listingId : uint256) : M string :=
  payable sender value ;;
  nonReentrant_market (
    listing <- artistListing_at listingId ;;
    revert_if (negb (ArtistListing.active listing)) InvalidListing ;;
    revert_if (value <? ArtistListing.price listing) InsufficientPayment ;;
    deactivate_artistListing listingId ;;
    listing <- artistListing_at listingId ;;
    success <- call_value (ArtistListing.artist listing) value ;;
    revert_if (negb success) TransferFailed ;;
    listing <- artistListing_at listingId ;;
    emit (ArtistDesignPurchased listingId sender (ArtistListing.artist listing)) ;;
    ret (ArtistListing.ipfsHash listing)).

Definition cancelArtistListing (sender : address) (listingId : uint256) : M unit :=
  listing <- artistListing_at listingId ;;
  revert_if (negb (ArtistListing.artist listing =? sender)) NotSeller ;;
  revert_if (negb (ArtistListing.active listing)) InvalidListing ;;
  deactivate_artistListing listingId ;;
  emit (ListingCancelled listingId "artist").

Definition listGiftCard (sender : address) (tokenId price : uint256) : M uint256 :=
  owner <- ownerOf tokenId ;;
  revert_if (negb (owner =? sender)) NotSeller ;;
  revert_if (price =? 0) InvalidListing ;;
  approved <- getApproved tokenId ;;
  revert_if (negb (approved =? market_address)) NotApproved ;;
  erc721_transferFrom market_address sender market_address tokenId ;;
  listingId <- gets (fun w => _giftCardListingCounter (market w)) ;;
  next <- checked_increment listingId ;;
  modify (fun w => with_market (with_giftCardListingCounter next (market w)) w) ;;
  modify (fun w => with_market (with_giftCardListings
            (upd (_giftCardListings (market w)) listingId
                 (GiftCardListing.mk listingId tokenId sender price true))
            (market w)) w) ;;
  emit (GiftCardListed listingId tokenId price) ;;
  ret listingId.

Definition purchaseGiftCard (sender : address) (value : uint256)
    (listingId : uint256) : M unit :=
  payable sender value ;;
  nonReentrant_market (
    listing <- giftCardListing_at listingId ;;
    revert_if (negb (GiftCardListing.active listing)) InvalidListing ;;
    revert_if (value <? GiftCardListing.price listing) InsufficientPayment ;;
    deactivate_giftCardListing listingId ;;
    listing <- giftCardListing_at listingId ;;
    erc721_transferFrom market_address market_address sender
      (GiftCardListing.tokenId listing) ;;
    success <- call_value (GiftCardListing.seller listing) value ;;
    revert_if (negb success) TransferFailed ;;
    emit (GiftCardSold listingId (GiftCardListing.tokenId listing) sender)).

Definition cancelGiftCardListing (sender : address) (listingId : uint256) : M unit :=
  nonReentrant_market (
    listing <- giftCardListing_at listingId ;;
    revert_if (negb (GiftCardListing.seller listing =? sender)) NotSeller ;;
    revert_if (negb (GiftCardListing.active listing)) InvalidListing ;;
    deactivate_giftCardListing listingId ;;
    listing <- giftCardListing_at listingId ;;
    erc721_transferFrom market_address market_address sender
      (GiftCardListing.tokenId listing) ;;
    emit (ListingCancelled listingId "giftcard")).

Definition getArtistListing (listingId : uint256) : M ArtistListing.t :=
  artistListing_at listingId.

Definition getGiftCardListing (listingId : uint256) : M GiftCardListing.t :=
  giftCardListing_at listingId.

(** [listings[i] = v] on a memory array: an index past the end is a panic
    ([None]). *)
Fixpoint write_index {V : Type} (listings : list V) (i : nat) (v : V) : option (list V) :=
  match listings, i with
  | [], _ => None
  | _ :: rest, O => Some (v :: rest)
  | x :: rest, S k =>
      match write_index rest k v with
      | Some rest' => Some (x :: rest')
      | None => None
      end
  end.

(** [for (uint256 i = ...; i < bound; i++) listings[i] = table[i];] with
    [fuel] bounding the number of iterations. *)
Fixpoint copy_listings {V : Type} (table : mapping V) (bound : uint256) (fuel : nat)
    (i : uint256) (listings : list V) : option (list V) :=
  if i <? bound then
    match fuel with
    | O => None
    | S fuel' =>
        match write_index listings (Z.to_nat i) (table i) with
        | Some listings' => copy_listings table bound fuel' (i + 1) listings'
        | None => None
        end
    end
  else Some listings.

(** The two full-table reads: a memory array of zero listings, as long as
    the counter says, is filled slot by slot from the table.  [None] stands
    for a call that does not return its array. *)
Definition getArtistListings (w : World) : option (list ArtistListing.t) :=
  let n := _artistListingCounter (market w) in
  copy_listings (_artistListings (market w)) n (Z.to_nat n) 0
    (repeat ArtistListing.zero (Z.to_nat n)).

Definition getGiftCardListings (w : World) : option (list GiftCardListing.t) :=
  let n := _giftCardListingCounter (market w) in
  copy_listings (_giftCardListings (market w)) n (Z.to_nat n) 0
    (repeat GiftCardListing.zero (Z.to_nat n)).

(* ================================================================== *)
(** ** Transactions *)

(** A call submitted to the ledger by an outside account: the public
    mutators of the two contracts (the token operations GiftCardNFT inherits
    included) and the asset operations a holder performs on an asset
    directly.  The two administrative calls inherited from Ownable only
    write the contract-owner variable, which no function of either contract
    reads; that variable and those calls are left out. *)
Inductive Tx :=
| CreateGiftCard (sender : address) (metadataURI : string)
                 (tokenAddress : address) (tokenAmount : uint256)
| Liquidate (sender : address) (tokenId : uint256)
| Approve (sender to : address) (tokenId : uint256)
| SetApprovalForAll (sender operator : address) (approved : bool)
| TransferFrom (sender from to : address) (tokenId : uint256)
| SafeTransferFrom (sender from to : address) (tokenId : uint256)
| CreateArtistListing (sender : address) (ipfsHash : string) (price : uint256)
| PurchaseArtistDesign (sender : address) (value : uint256) (listingId : uint256)
| CancelArtistListing (sender : address) (listingId : uint256)
| ListGiftCard (sender : address) (tokenId price : uint256)
| PurchaseGiftCard (sender : address) (value : uint256) (listingId : uint256)
| CancelGiftCardListing (sender : address) (listingId : uint256)
| AssetTransfer (token sender to : address) (value : uint256)
| AssetApprove (token sender spender : address) (value : uint256)
| AssetTransferFrom (token sender from to : address) (value : uint256).

Definition tx_sender (tx : Tx) : address :=
  match tx with
  | CreateGiftCard s _ _ _ | Liquidate s _ | Approve s _ _
  | SetApprovalForAll s _ _ | TransferFrom s _ _ _ | SafeTransferFrom s _ _ _
  | CreateArtistListing s _ _ | PurchaseArtistDesign s _ _
  | CancelArtistListing s _ | ListGiftCard s _ _ | PurchaseGiftCard s _ _
  | CancelGiftCardListing s _ | AssetTransfer _ s _ _ | AssetApprove _ s _ _
  | AssetTransferFrom _ s _ _ _ => s
  end.

(** What a call hands back to its caller. *)
Inductive Returned :=
| RNone
| RUint (n : uint256)
| RString (s : string).

Definition returning {A : Type} (f : A -> Returned) (c : M A) : M Returned :=
  a <- c ;; ret (f a).

Definition run (tx : Tx) : M Returned :=
  match tx with
  | CreateGiftCard s uri t a => returning RUint (createGiftCard s uri t a)
  | Liquidate s id => returning (fun _ => RNone) (liquidate s id)
  | Approve s to id => returning (fun _ => RNone) (erc721_approve s to id)
  | SetApprovalForAll s op b => returning (fun _ => RNone) (erc721_setApprovalForAll s op b)
  | TransferFrom s from to id => returning (fun _ => RNone) (erc721_transferFrom s from to id)
  | SafeTransferFrom s from to id =>
      returning (fun _ => RNone) (erc721_safeTransferFrom s from to id)
  | CreateArtistListing s h p => returning RUint (createArtistListing s h p)
  | PurchaseArtistDesign s v id => returning RString (purchaseArtistDesign s v id)
  | CancelArtistListing s id => returning (fun _ => RNone) (cancelArtistListing s id)
  | ListGiftCard s id p => returning RUint (listGiftCard s id p)
  | PurchaseGiftCard s v id => returning (fun _ => RNone) (purchaseGiftCard s v id)
  | CancelGiftCardListing s id => returning (fun _ => RNone) (cancelGiftCardListing s id)
  | AssetTransfer t s to v => returning (fun _ => RNone) (erc20_transfer t s to v)
  | AssetApprove t s sp v => returning (fun _ => RNone) (erc20_approve t s sp v)
  | AssetTransferFrom t s from to v =>
      returning (fun _ => RNone) (erc20_transferFrom t s from to v)
  end.

Inductive Outcome :=
| Succeeded (r : Returned)
| Failed (e : Error).

(** The ledger's treatment of a call: a completed call commits its final
    state, a reverted call leaves the state it started from. *)
Definition transact (tx : Tx) (w : World) : World * Outcome :=
  match run tx w with
  | Ok r w' => (w', Succeeded r)
  | Revert e => (w, Failed e)
  end.

Definition after (tx : Tx) (w : World) : World := fst (transact tx w).

Fixpoint after_all (txs : list Tx) (w : World) : World :=
  match txs with
  | [] => w
  | tx :: rest => after_all rest (after tx w)
  end.

(** Calls come from accounts: never from the null address, and never from
    the two contracts, which only act through the code above. *)
Definition valid_sender (a : address) : Prop :=
  a <> 0 /\ a <> nft_address /\ a <> market_address.

Definition valid_tx (tx : Tx) : Prop := valid_sender (tx_sender tx).

Definition GiftCardNFT_empty : GiftCardNFT :=
  mkGiftCardNFT (fun _ => 0) (fun _ => 0) (fun _ => 0) (fun _ _ => false)
    (fun _ => EmptyString) (fun _ => TokenVault_zero) 0 false.

Definition Marketplace_empty : Marketplace :=
  mkMarketplace (fun _ => ArtistListing.zero) (fun _ => GiftCardListing.zero) 0 0 false.

(** The ledger right after the two contracts are deployed: empty contract
    storage, whatever asset and currency balances the accounts hold. *)
Definition deployed (balances : address -> address -> uint256)
    (allowances : address -> address -> address -> uint256)
    (funds : address -> uint256) : World :=
  mkWorld GiftCardNFT_empty Marketplace_empty balances allowances funds [].

Inductive reachable : World -> Prop :=
| reachable_deployed : forall balances allowances funds,
    reachable (deployed balances allowances funds)
| reachable_after : forall w tx,
    reachable w -> valid_tx tx -> reachable (after tx w).

End Contracts.


(* ================================================================== *)
(** * The mock asset *)

(** MockERC20, the asset the repository deploys for its own tests, with a
    book of its own.  Its three functions are its constructor, [mint] and
    [faucet]; everything else is inherited.  The event log is left out: no
    function reads it. *)
Module MockERC20.

Record t := mk {
  _balances : mapping uint256;
  _allowances : address -> address -> uint256;
  _totalSupply : uint256;
  _name : string;
  _symbol : string
}.

Definition with_balances (b : mapping uint256) (s : t) : t :=
  mk b (_allowances s) (_totalSupply s) (_name s) (_symbol s).

Definition with_allowances (a : address -> address -> uint256) (s : t) : t :=
  mk (_balances s) a (_totalSupply s) (_name s) (_symbol s).

Definition with_totalSupply (n : uint256) (s : t) : t :=
  mk (_balances s) (_allowances s) n (_name s) (_symbol s).

(** [a + b] and [a * b] as the compiler checks them: a result that does not
    fit the word is a panic. *)
Definition checked_add (a b : uint256) : Error + uint256 :=
  if a + b <=? MAX_UINT256 then inr (a + b) else inl ArithmeticOverflow.

Definition checked_mul (a b : uint256) : Error + uint256 :=
  if a * b <=? MAX_UINT256 then inr (a * b) else inl ArithmeticOverflow.

(** [unchecked { a + b }] and [unchecked { a - b }]: the result wraps
    around the word. *)
Definition unchecked_add (a b : uint256) : uint256 := (a + b) mod (MAX_UINT256 + 1).

Definition unchecked_sub (a b : uint256) : uint256 := (a - b) mod (MAX_UINT256 + 1).

Definition decimals : uint256 := 18.

Definition balanceOf (account : address) (s : t) : uint256 := _balances s account.

Definition totalSupply (s : t) : uint256 := _totalSupply s.

Definition allowance (owner spender : address) (s : t) : uint256 :=
  _allowances s owner spender.

(** Modelled from the spec: the inherited bodies, from [_update] to
    [_spendAllowance], follow the standard ERC-20 base contract that
    MockERC20 imports and that section 6 names by its interface; its code is
    not under src/.  The total supply is raised by checked addition,
    balances are debited and credited by unchecked, wrapping arithmetic.

    [_update(from, to, value)]: a mint (from the null address) raises the
    total supply, anything else debits [from]; a burn (to the null address)
    lowers the total supply, anything else credits [to]. *)
Definition _update (from to : address) (value : uint256) (s : t) : Error + t :=
  match
    (if from =? 0 then
       match checked_add (_totalSupply s) value with
       | inr total => inr (with_totalSupply total s)
       | inl e => inl e
       end
     else
       let fromBalance := _balances s from in
       if fromBalance <? value then inl ERC20InsufficientBalance
       else inr (with_balances
                   (upd (_balances s) from (unchecked_sub fromBalance value)) s))
  with
  | inl e => inl e
  | inr s1 =>
      if to =? 0
      then inr (with_totalSupply (unchecked_sub (_totalSupply s1) value) s1)
      else inr (with_balances
                  (upd (_balances s1) to (unchecked_add (_balances s1 to) value)) s1)
  end.

Definition _mint (account : address) (value : uint256) (s : t) : Error + t :=
  if account =? 0 then inl ERC20InvalidReceiver else _update 0 account value s.

Definition _transfer (from to : address) (value : uint256) (s : t) : Error + t :=
  if from =? 0 then inl ERC20InvalidSender
  else if to =? 0 then inl ERC20InvalidReceiver
  else _update from to value s.

Definition _approve (owner spender : address) (value : uint256) (s : t) : Error + t :=
  if owner =? 0 then inl ERC20InvalidApprover
  else if spender =? 0 then inl ERC20InvalidSpender
  else inr (with_allowances
              (fun o sp => if (o =? owner) && (sp =? spender) then value
                           else _allowances s o sp) s).

Definition _spendAllowance (owner spender : address) (value : uint256) (s : t)
    : Error + t :=
  let currentAllowance := allowance owner spender s in
  if currentAllowance <? MAX_UINT256 then
    if currentAllowance <? value then inl ERC20InsufficientAllowance
    else _approve owner spender (unchecked_sub currentAllowance value) s
  else inr s.

(** The functions of MockERC20 itself.  The deployment:
    [_mint(msg.sender, initialSupply * 10**decimals())] on the empty book. *)
Definition constructor (sender : address) (name symbol : string)
    (initialSupply : uint256) : Error + t :=
  match checked_mul initialSupply (10 ^ decimals) with
  | inl e => inl e
  | inr value => _mint sender value (mk (fun _ => 0) (fun _ _ => 0) 0 name symbol)
  end.

(** [mint(to, amount)]: open to every caller. *)
Definition mint (sender to : address) (amount : uint256) (s : t) : Error + t :=
  match checked_mul amount (10 ^ decimals) with
  | inl e => inl e
  | inr value => _mint to value s
  end.

Definition faucet (sender : address) (s : t) : Error + t :=
  match checked_mul 1000 (10 ^ decimals) with
  | inl e => inl e
  | inr value => _mint sender value s
  end.

Definition transfer (sender to : address) (value : uint256) (s : t) : Error + t :=
  _transfer sender to value s.

Definition approve (sender spender : address) (value : uint256) (s : t) : Error + t :=
  _approve sender spender value s.

Definition transferFrom (sender from to : address) (value : uint256) (s : t)
    : Error + t :=
  match _spendAllowance from sender value s with
  | inl e => inl e
  | inr s1 => _transfer from to value s1
  end.

(** A call of an account on the mock asset. *)
Inductive Call :=
| Mint (sender to : address) (amount : uint256)
| Faucet (sender : address)
| Transfer (sender to : address) (value : uint256)
| Approve (sender spender : address) (value : uint256)
| TransferFrom (sender from to : address) (value : uint256).

Definition call (c : Call) (s : t) : Error + t :=
  match c with
  | Mint sender to amount => mint sender to amount s
  | Faucet sender => faucet sender s
  | Transfer sender to value => transfer sender to value s
  | Approve sender spender value => approve sender spender value s
  | TransferFrom sender from to value => transferFrom sender from to value s
  end.

(** A completed call commits its book, a failed call leaves the book it
    started from. *)
Definition after (c : Call) (s : t) : t :=
  match call c s with
  | inr s' => s'
  | inl _ => s
  end.

(** Calls come from accounts and carry words. *)
Definition valid_call (c : Call) : Prop :=
  match c with
  | Mint sender _ amount => sender <> 0 /\ 0 <= amount <= MAX_UINT256
  | Faucet sender => sender <> 0
  | Transfer sender _ value | Approve sender _ value | TransferFrom sender _ _ value =>
      sender <> 0 /\ 0 <= value <= MAX_UINT256
  end.

(** The books a deployed mock asset can come to hold. *)
Inductive reachable : t -> Prop :=
| reachable_constructed : forall sender name symbol initialSupply s,
    sender <> 0 -> 0 <= initialSupply <= MAX_UINT256 ->
    constructor sender name symbol initialSupply = inr s ->
    reachable s
| reachable_called : forall s c,
    reachable s -> valid_call c -> reachable (after c s).

(** The sum of the balances of [holders]. *)
Fixpoint sum_balances (balances : mapping uint256) (holders : list address) : Z :=
  match holders with
  | [] => 0
  | a :: rest => balances a + sum_balances balances rest
  end.

(** The book adds up: all balances and allowances are words, the null
    address holds nothing, and the balances of finitely many holders, all
    others being zero, sum to the total supply, which is a word. *)
Definition adds_up (s : t) : Prop :=
  (forall a, 0 <= _balances s a) /\
  (forall o sp, 0 <= _allowances s o sp <= MAX_UINT256) /\
  _balances s 0 = 0 /\
  _totalSupply s <= MAX_UINT256 /\
  exists holders,
    NoDup holders /\
    (forall a, ~ In a holders -> _balances s a = 0) /\
    sum_balances (_balances s) holders = _totalSupply s.

End MockERC20.

(* ================================================================== *)
(** * The content store of the front end *)

(** The IPFS service of the front end (services/ipfs.ts).  Its module state
    is a map from content ids to what was stored under them and a counter.
    What the browser and the network answer is given to each function: the
    configured key, the outcome of the upload request ([None] when anything
    inside the [try] block throws), what each gateway address returns
    ([None] when the request fails, is not ok or its body does not parse).
    Blobs and metadata objects are passed around without being looked
    into; [JSON_parse] answers [None] where [JSON.parse] throws. *)
Module IpfsService.

Section Service.

Context {Blob NFTMetadata : Type}.
Variable JSON_stringify : NFTMetadata -> string.
Variable JSON_parse : string -> option NFTMetadata.
Variable createObjectURL : Blob -> string.

Definition IPFS_GATEWAY : string := "https://ipfs.io/ipfs/".

Definition GATEWAY_OPTIONS : list string :=
  ["https://ipfs.io/ipfs/"%string;
   "https://gateway.pinata.cloud/ipfs/"%string;
   "https://cloudflare-ipfs.com/ipfs/"%string].

(** [Blob | string] *)
Inductive Stored :=
| StoredBlob (b : Blob)
| StoredString (s : string).

Record State := mkState {
  mockStorage : list (string * Stored);
  mockCidCounter : N
}.

Definition initial : State := mkState [] 0.

(** [Map.prototype.get], [has] and [set]: [set] on a key that is present
    replaces its value in place, on a new key it appends the entry. *)
Fixpoint map_get (key : string) (m : list (string * Stored)) : option Stored :=
  match m with
  | [] => None
  | (k, v) :: rest => if String.eqb k key then Some v else map_get key rest
  end.

Definition map_has (key : string) (m : list (string * Stored)) : bool :=
  match map_get key m with
  | Some _ => true
  | None => false
  end.

Fixpoint map_set (key : string) (value : Stored) (m : list (string * Stored))
    : list (string * Stored) :=
  match m with
  | [] => [(key, value)]
  | (k, v) :: rest =>
      if String.eqb k key then (key, value) :: rest else (k, v) :: map_set key value rest
  end.

(** [n++] on a number: exact as long as the counter is below [2^53]; there
    the sum is not a number any more and rounds back to [2^53], which is as
    far as a counter that starts at 0 gets. *)
Definition increment (n : N) : N := if (n <? 2 ^ 53)%N then (n + 1)%N else n.

(** [n.toString()] of such a counter: its decimal digits. *)
Definition toString (n : N) : string := NilEmpty.string_of_uint (N.to_uint n).

Fixpoint repeat_char (c : ascii) (k : nat) : string :=
  match k with
  | O => EmptyString
  | S k' => String c (repeat_char c k')
  end.

(** [s.padStart(targetLength, c)] for a one-character filler. *)
Definition padStart (targetLength : nat) (c : ascii) (s : string) : string :=
  String.append (repeat_char c (targetLength - String.length s)) s.

(** [s.replace(pattern, replacement)] for a string pattern: the first
    occurrence only. *)
Fixpoint replace (pattern replacement s : string) : string :=
  if String.prefix pattern s
  then String.append replacement
         (String.substring (String.length pattern)
            (String.length s - String.length pattern) s)
  else match s with
       | EmptyString => EmptyString
       | String c rest => String c (replace pattern replacement rest)
       end.

(** [`Qm${n.toString().padStart(44, '0')}mock`] *)
Definition mock_cid (n : N) : string :=
  String.append "Qm" (String.append (padStart 44 "0" (toString n)) "mock").

Definition generateMockCID (st : State) : string * State :=
  let n := increment (mockCidCounter st) in
  (mock_cid n, mkState (mockStorage st) n).

(** [!WEB3_STORAGE_API_KEY]: the key is undefined or empty. *)
Definition no_key (WEB3_STORAGE_API_KEY : option string) : bool :=
  match WEB3_STORAGE_API_KEY with
  | None => true
  | Some EmptyString => true
  | Some _ => false
  end.

(** An upload takes the mock path when no key is configured or when the
    request to the network fails. *)
Definition mock_path (WEB3_STORAGE_API_KEY upload : option string) : Prop :=
  no_key WEB3_STORAGE_API_KEY = true \/ upload = None.

(** The mock path of an upload: a fresh mock id, under which the value is
    stored. *)
Definition store_mock (value : Stored) (st : State) : string * State :=
  let (mockCid, st1) := generateMockCID st in
  (mockCid, mkState (map_set mockCid value (mockStorage st1)) (mockCidCounter st1)).

Definition uploadImage (WEB3_STORAGE_API_KEY : option string) (upload : option string)
    (imageBlob : Blob) (st : State) : string * State :=
  if no_key WEB3_STORAGE_API_KEY then store_mock (StoredBlob imageBlob) st
  else match upload with
       | Some cid => (cid, st)
       | None => store_mock (StoredBlob imageBlob) st
       end.

Definition uploadMetadata (WEB3_STORAGE_API_KEY : option string) (upload : option string)
    (metadata : NFTMetadata) (st : State) : string * State :=
  if no_key WEB3_STORAGE_API_KEY
  then let (mockCid, st') := store_mock (StoredString (JSON_stringify metadata)) st in
       (String.append "ipfs://" mockCid, st')
  else match upload with
       | Some cid => (String.append "ipfs://" cid, st)
       | None =>
           let (mockCid, st') := store_mock (StoredString (JSON_stringify metadata)) st in
           (String.append "ipfs://" mockCid, st')
       end.

(** [for (const gateway of gateways) ...]: the first gateway that answers. *)
Fixpoint try_gateways (fetch : string -> option NFTMetadata) (gateways : list string)
    (cid : string) : option NFTMetadata :=
  match gateways with
  | [] => None
  | gateway :: rest =>
      match fetch (String.append gateway cid) with
      | Some metadata => Some metadata
      | None => try_gateways fetch rest cid
      end
  end.

(** [None] stands for the rejection with "Failed to fetch metadata from
    IPFS". *)
Definition fetchMetadata (fetch : string -> option NFTMetadata) (ipfsUri : string)
    (st : State) : option NFTMetadata :=
  let cid := replace "ipfs://" "" ipfsUri in
  match (if map_has cid (mockStorage st) then map_get cid (mockStorage st) else None) with
  | Some (StoredString data) => JSON_parse data
  | _ => try_gateways fetch GATEWAY_OPTIONS cid
  end.

Definition getIPFSUrl (ipfsUri : string) (st : State) : string :=
  let cid := replace "ipfs://" "" ipfsUri in
  match (if map_has cid (mockStorage st) then map_get cid (mockStorage st) else None) with
  | Some (StoredBlob data) => createObjectURL data
  | _ => String.append IPFS_GATEWAY cid
  end.

Definition fetchImage (ipfsUri : string) (st : State) : string :=
  let cid := replace "ipfs://" "" ipfsUri in
  match (if map_has cid (mockStorage st) then map_get cid (mockStorage st) else None) with
  | Some (StoredBlob blob) => createObjectURL blob
  | _ => String.append IPFS_GATEWAY cid
  end.

(** An upload made through the service. *)
Inductive Upload :=
| Image (WEB3_STORAGE_API_KEY : option string) (upload : option string) (imageBlob : Blob)
| Metadata (WEB3_STORAGE_API_KEY : option string) (upload : option string)
           (metadata : NFTMetadata).

Definition after_upload (u : Upload) (st : State) : State :=
  match u with
  | Image key upload imageBlob => snd (uploadImage key upload imageBlob st)
  | Metadata key upload metadata => snd (uploadMetadata key upload metadata st)
  end.

Fixpoint after_uploads (us : list Upload) (st : State) : State :=
  match us with
  | [] => st
  | u :: rest => after_uploads rest (after_upload u st)
  end.

(** No character of [s] is [c]. *)
Fixpoint avoids (c : ascii) (s : string) : Prop :=
  match s with
  | EmptyString => True
  | String a rest => a <> c /\ avoids c rest
  end.

(** The number a run of digits stands for, leading zeros included. *)
Definition read_digits (s : string) : option N :=
  option_map N.of_uint (NilEmpty.uint_of_string s).

(** Every key of the store is the mock id of a counter value that has
    been used. *)
Definition keys_used (st : State) : Prop :=
  forall key value, In (key, value) (mockStorage st) ->
    exists n, (1 <= n <= mockCidCounter st)%N /\ key = mock_cid n.

End Service.

Arguments Stored : clear implicits.
Arguments State : clear implicits.
Arguments Upload : clear implicits.

End IpfsService.

(* ================================================================== *)
(** * The placeholder artwork of the front end *)

(** The word wrap of [generatePlaceholderImage] (services/ai.ts), which
    breaks the prompt into the lines it draws.  [too_wide line] is the
    canvas's answer to [ctx.measureText(line).width > 450]; the drawing
    itself is left out. *)
Module AiService.

Section Wrap.

Variable too_wide : string -> bool.

(** [s.split(c)] for a one-character separator: the pieces between the
    separators, empty ones included. *)
Fixpoint split (c : ascii) (s : string) : list string :=
  match s with
  | EmptyString => [EmptyString]
  | String a rest =>
      if Ascii.eqb a c then EmptyString :: split c rest
      else match split c rest with
           | word :: words => String a word :: words
           | [] => [String a EmptyString]
           end
  end.

(** [words.forEach(word => ...)] followed by [lines.push(currentLine)]. *)
Fixpoint wrap (words : list string) (lines : list string) (currentLine : string)
    : list string :=
  match words with
  | [] => lines ++ [currentLine]
  | word :: rest =>
      let testLine := String.append currentLine (String.append word " ") in
      if too_wide testLine && negb (String.eqb currentLine "")
      then wrap rest (lines ++ [currentLine]) (String.append word " ")
      else wrap rest lines testLine
  end.

Definition wrapped_lines (prompt : string) : list string :=
  wrap (split " " prompt) [] EmptyString.

(** The lines one after the other. *)
Fixpoint text_of (lines : list string) : string :=
  match lines with
  | [] => EmptyString
  | line :: rest => String.append line (text_of rest)
  end.

(** A line that holds one word of the prompt, or that fits. *)
Definition one_word_or_fits (prompt line : string) : Prop :=
  (exists word, In word (split " " prompt) /\ line = String.append word " ") \/
  too_wide line = false.

End Wrap.

End AiService.

(* ================================================================== *)
(** * Vocabulary of the properties *)

(** [post c w Q]: whenever [c] completes from [w], its result and final
    state satisfy [Q].  A reverted run promises nothing here; what a revert
    leaves behind is fixed by [transact]. *)
Definition post {A : Type} (c : M A) (w : World) (Q : A -> World -> Prop) : Prop :=
  forall a w', c w = Ok a w' -> Q a w'.

Section Vocabulary.

Context {deployment : Deployment}.

(** [spender] may move token [tokenId]: it is the owner, an operator of the
    owner, or the account approved for the token. *)
Definition authorized (w : World) (spender : address) (tokenId : uint256) : Prop :=
  spender <> 0 /\
  (_owners (nft w) tokenId = spender \/
   _operatorApprovals (nft w) (_owners (nft w) tokenId) spender = true \/
   _tokenApprovals (nft w) tokenId = spender).

(** The ledger after token [tokenId] has moved to [to]: the owner is
    rewritten, the approval of a token that had an owner is cleared, the
    holding counts become [counts], nothing else changes. *)
Definition moved (w : World) (tokenId : uint256) (to : address)
    (counts : mapping uint256) : World :=
  with_nft
    (mkGiftCardNFT (upd (_owners (nft w)) tokenId to) counts
       (if _owners (nft w) tokenId =? 0 then _tokenApprovals (nft w)
        else upd (_tokenApprovals (nft w)) tokenId 0)
       (_operatorApprovals (nft w)) (_tokenURIs (nft w)) (_vaults (nft w))
       (_tokenIdCounter (nft w)) (nft_entered (nft w)))
    w.

(** The ledger after [value] of asset [token] has moved from [from] to [to]. *)
Definition asset_moved (w : World) (token from to : address) (value : uint256) : World :=
  let b1 := upd2 (erc20_balances w) token from (erc20_balances w token from - value) in
  with_erc20_balances (upd2 b1 token to (b1 token to + value)) w.

(** Both re-entrancy guards are open, as they are between two calls. *)
Definition guards_open (w : World) : Prop :=
  nft_entered (nft w) = false /\ market_entered (market w) = false.

(** A listing that was created and is no longer active. *)
Definition artist_retired (l : uint256) (w : World) : Prop :=
  l < _artistListingCounter (market w) /\
  ArtistListing.active (_artistListings (market w) l) = false.

Definition giftCard_retired (l : uint256) (w : World) : Prop :=
  l < _giftCardListingCounter (market w) /\
  GiftCardListing.active (_giftCardListings (market w) l) = false.

(** Token [tokenId] exists and its vault still holds the asset and amount
    of [v]; once [v] is liquidated the vault is. *)
Definition vault_kept (tokenId : uint256) (v : TokenVault) (w : World) : Prop :=
  _owners (nft w) tokenId <> 0 /\
  tokenAddress (_vaults (nft w) tokenId) = tokenAddress v /\
  amount (_vaults (nft w) tokenId) = amount v /\
  (liquidated v = true -> liquidated (_vaults (nft w) tokenId) = true).

(** Storage that was never written holds zero values: tokens are exactly
    the ids below the counter, and slots past a counter are empty. *)
Definition tidy (w : World) : Prop :=
  (0 <= _tokenIdCounter (nft w) /\
   0 <= _artistListingCounter (market w) /\
   0 <= _giftCardListingCounter (market w)) /\
  (forall id, _owners (nft w) id <> 0 <-> 0 <= id < _tokenIdCounter (nft w)) /\
  (forall id, _owners (nft w) id = 0 ->
     _vaults (nft w) id = TokenVault_zero /\
     _tokenApprovals (nft w) id = 0 /\
     _tokenURIs (nft w) id = EmptyString) /\
  (forall operator, _operatorApprovals (nft w) 0 operator = false) /\
  (forall l, _artistListingCounter (market w) <= l ->
     _artistListings (market w) l = ArtistListing.zero) /\
  (forall l, _giftCardListingCounter (market w) <= l ->
     _giftCardListings (market w) l = GiftCardListing.zero).

(** Custody: a token referenced by an active resale listing is held by the
    marketplace, by one active listing at most, and nobody is approved to
    move a token the marketplace holds. *)
Definition escrow (w : World) : Prop :=
  (forall l, GiftCardListing.active (_giftCardListings (market w) l) = true ->
     _owners (nft w) (GiftCardListing.tokenId (_giftCardListings (market w) l))
       = market_address) /\
  (forall l l',
     GiftCardListing.active (_giftCardListings (market w) l) = true ->
     GiftCardListing.active (_giftCardListings (market w) l') = true ->
     GiftCardListing.tokenId (_giftCardListings (market w) l) =
     GiftCardListing.tokenId (_giftCardListings (market w) l') ->
     l = l') /\
  (forall id, _owners (nft w) id = market_address -> _tokenApprovals (nft w) id = 0) /\
  (forall operator, _operatorApprovals (nft w) market_address operator = false).

(** The ledger the author's account observes when [purchaseArtistDesign]
    hands it the payment: the payment has reached the marketplace, the
    guard is taken, the listing is already inactive, and the payment has
    been credited to the author. *)
Definition artist_payout_view (sender : address) (value listingId : uint256)
    (w : World) : World :=
  let w1 := move_native sender market_address value w in
  let w2 := with_market (with_market_entered true (market w1)) w1 in
  let w3 := with_market (with_artistListings
              (upd (_artistListings (market w2)) listingId
                   (ArtistListing.deactivate (_artistListings (market w2) listingId)))
              (market w2)) w2 in
  move_native market_address
    (ArtistListing.artist (_artistListings (market w) listingId)) value w3.

(** The ledger a completed [purchaseArtistDesign] leaves: what the author
    observed, with the purchase recorded and the guard released. *)
Definition artist_sale_settled (sender : address) (value listingId : uint256)
    (w : World) : World :=
  let view := artist_payout_view sender value listingId w in
  let recorded :=
    with_events
      (ArtistDesignPurchased listingId sender
         (ArtistListing.artist (_artistListings (market w) listingId)) :: events view)
      view in
  with_market (with_market_entered false (market recorded)) recorded.

(** The ledger the asset contract observes when [liquidate] hands it the
    payout of token [tokenId]: the guard is taken and the vault is already
    marked as liquidated. *)
Definition liquidate_payout_view (tokenId : uint256) (w : World) : World :=
  let w1 := with_nft (with_nft_entered true (nft w)) w in
  let vault := _vaults (nft w1) tokenId in
  with_nft (with_vaults
              (upd (_vaults (nft w1)) tokenId
                   (mkTokenVault (tokenAddress vault) (amount vault) true))
              (nft w1)) w1.

(** The ledger a completed [liquidate] leaves when the asset contract has
    returned on the ledger [paid]: the payout is recorded and the guard
    released. *)
Definition liquidate_settled (sender : address) (tokenId : uint256) (paid : World)
    : World :=
  let recorded :=
    with_events
      (GiftCardLiquidated tokenId sender (amount (_vaults (nft paid) tokenId))
         :: events paid)
      paid in
  with_nft (with_nft_entered false (nft recorded)) recorded.

(** The resale calls of the marketplace. *)
Definition is_resale (tx : Tx) : bool :=
  match tx with
  | ListGiftCard _ _ _ | PurchaseGiftCard _ _ _ | CancelGiftCardListing _ _ => true
  | _ => false
  end.

End Vocabulary.

(** [total c w Q]: from [w] the computation [c] completes, with a result
    and final state that satisfy [Q]. *)
Definition total {A : Type} (c : M A) (w : World) (Q : A -> World -> Prop) : Prop :=
  exists a w', c w = Ok a w' /\ Q a w'.

Section Accounting.

Context {deployment : Deployment}.

(** A value that fits the 256-bit word of the ledger. *)
Definition is_uint256 (z : Z) : Prop := 0 <= z <= MAX_UINT256.

(** The word arguments of a call are words. *)
Definition typed_tx (tx : Tx) : Prop :=
  match tx with
  | CreateGiftCard _ _ _ a => is_uint256 a
  | Liquidate _ id | Approve _ _ id | TransferFrom _ _ _ id | SafeTransferFrom _ _ _ id =>
      is_uint256 id
  | SetApprovalForAll _ _ _ => True
  | CreateArtistListing _ _ p => is_uint256 p
  | PurchaseArtistDesign _ v id | PurchaseGiftCard _ v id => is_uint256 v /\ is_uint256 id
  | CancelArtistListing _ id | CancelGiftCardListing _ id => is_uint256 id
  | ListGiftCard _ id p => is_uint256 id /\ is_uint256 p
  | AssetTransfer _ _ _ v | AssetApprove _ _ _ v | AssetTransferFrom _ _ _ _ v => is_uint256 v
  end.

(** What vault [v] still owes in asset [t]. *)
Definition owed (v : TokenVault) (t : address) : Z :=
  if (tokenAddress v =? t) && negb (liquidated v) then amount v else 0.

(** The sum of [owed] over the token ids below [n]. *)
Fixpoint owed_below (n : nat) (vaults : mapping TokenVault) (t : address) : Z :=
  match n with
  | O => 0
  | S k => owed_below k vaults t + owed (vaults (Z.of_nat k)) t
  end.

(** What the vaults of all cards created so far still owe in asset [t]. *)
Definition locked (w : World) (t : address) : Z :=
  owed_below (Z.to_nat (_tokenIdCounter (nft w))) (_vaults (nft w)) t.

(** The token contract can pay every vault: no vault holds a negative
    amount, the contract has let nobody draw on its balances, and its balance
    of each asset covers what its vaults owe in it. *)
Definition backed (w : World) : Prop :=
  (forall id, 0 <= amount (_vaults (nft w) id)) /\
  (forall t s, erc20_allowances w t nft_address s = 0) /\
  (forall t, locked w t <= erc20_balances w t nft_address).

(** The allowances after [spender] has drawn [value] on [owner]'s allowance
    in asset [token]: an unlimited allowance is left alone. *)
Definition spent_allowances (w : World) (token owner spender : address)
    (value : uint256) : address -> address -> address -> uint256 :=
  if erc20_allowances w token owner spender <? MAX_UINT256
  then fun t o s =>
         if (t =? token) && ((o =? owner) && (s =? spender))
         then erc20_allowances w token owner spender - value
         else erc20_allowances w t o s
  else erc20_allowances w.

(** The allowances after [owner] has set [spender]'s allowance in asset
    [token] to [value]. *)
Definition set_allowance (w : World) (token owner spender : address)
    (value : uint256) : address -> address -> address -> uint256 :=
  fun t o s =>
    if (t =? token) && ((o =? owner) && (s =? spender)) then value
    else erc20_allowances w t o s.

(** The ledgers reached when every call carries words: at deployment the
    token contract, which did not exist before, has no negative balance and
    has granted no allowance. *)
Inductive reachable_typed : World -> Prop :=
| reachable_typed_deployed : forall balances allowances funds,
    (forall t, 0 <= balances t nft_address) ->
    (forall t s, allowances t nft_address s = 0) ->
    reachable_typed (deployed balances allowances funds)
| reachable_typed_after : forall w tx,
    reachable_typed w -> valid_tx tx -> typed_tx tx -> reachable_typed (after tx w).

(** The recorded author or seller of an active listing is an outside
    account. *)
Definition parties_valid (w : World) : Prop :=
  (forall l, ArtistListing.active (_artistListings (market w) l) = true ->
     valid_sender (ArtistListing.artist (_artistListings (market w) l))) /\
  (forall l, GiftCardListing.active (_giftCardListings (market w) l) = true ->
     valid_sender (GiftCardListing.seller (_giftCardListings (market w) l))).

(** Listing [l] has been created with the terms of [a]. *)
Definition artist_terms (l : uint256) (a : ArtistListing.t) (w : World) : Prop :=
  l < _artistListingCounter (market w) /\
  ArtistListing.listingId (_artistListings (market w) l) = ArtistListing.listingId a /\
  ArtistListing.artist (_artistListings (market w) l) = ArtistListing.artist a /\
  ArtistListing.ipfsHash (_artistListings (market w) l) = ArtistListing.ipfsHash a /\
  ArtistListing.price (_artistListings (market w) l) = ArtistListing.price a.

(** Listing [l] has been created with the terms of [g]. *)
Definition giftCard_terms (l : uint256) (g : GiftCardListing.t) (w : World) : Prop :=
  l < _giftCardListingCounter (market w) /\
  GiftCardListing.listingId (_giftCardListings (market w) l) = GiftCardListing.listingId g /\
  GiftCardListing.tokenId (_giftCardListings (market w) l) = GiftCardListing.tokenId g /\
  GiftCardListing.seller (_giftCardListings (market w) l) = GiftCardListing.seller g /\
  GiftCardListing.price (_giftCardListings (market w) l) = GiftCardListing.price g.

(** A created listing carries its own index as [listingId]. *)
Definition ids_match (w : World) : Prop :=
  (forall l, 0 <= l < _artistListingCounter (market w) ->
     ArtistListing.listingId (_artistListings (market w) l) = l) /\
  (forall l, 0 <= l < _giftCardListingCounter (market w) ->
     GiftCardListing.listingId (_giftCardListings (market w) l) = l).

(** The calls that create a card. *)
Definition is_creation (tx : Tx) : bool :=
  match tx with
  | CreateGiftCard _ _ _ _ => true
  | _ => false
  end.

(** Whether the ledger commits call [tx] made on [w]. *)
Definition succeeds (tx : Tx) (w : World) : bool :=
  match snd (transact tx w) with
  | Succeeded _ => true
  | Failed _ => false
  end.

(** The number of [createGiftCard] calls of [txs] that complete. *)
Fixpoint created (txs : list Tx) (w : World) : Z :=
  match txs with
  | [] => 0
  | tx :: rest =>
      (if is_creation tx && succeeds tx w then 1 else 0) + created rest (after tx w)
  end.

End Accounting.

(* ================================================================== *)
(** * Concrete ledgers *)

Module Scenario.

Definition alice : address := 1.
Definition bob : address := 2.
Definition asset : address := 50.

(** Two deployments at the same addresses: in [accepting] every account
    takes a payment, in [rejecting] none does. *)
Definition accepting : Deployment :=
  Build_Deployment 100 200 (fun _ _ _ => true) (fun _ _ _ _ _ => true)
    ltac:(discriminate) ltac:(discriminate) ltac:(discriminate).

Definition rejecting : Deployment :=
  Build_Deployment 100 200 (fun _ _ _ => false) (fun _ _ _ _ _ => true)
    ltac:(discriminate) ltac:(discriminate) ltac:(discriminate).

(** What an address without code does when it is called as an asset:
    every call fails without error data. *)
Definition codeless : Asset :=
  mkAsset (fun _ _ => revert RevertWithoutData)
          (fun _ _ _ _ => revert RevertWithoutData)
          (fun _ _ _ => revert RevertWithoutData).

(** An asset that keeps a standard book and refuses to pay out while the
    vault of token 0 is not marked as liquidated. *)
Definition watching : Asset :=
  mkAsset erc20_balanceOf (@safeTransferFrom accepting)
    (fun token to value w =>
       if liquidated (_vaults (nft w) 0)
       then @safeTransfer accepting token to value w
       else Revert TransferFailed).

(** Alice holds 500 of the asset and lets the token contract move 300 of
    it; Bob holds 1000 of native currency. *)
Definition genesis : World :=
  deployed (fun t h => if (t =? asset) && (h =? alice) then 500 else 0)
           (fun t o s => if (t =? asset) && ((o =? alice) && (s =? 100)) then 300 else 0)
           (fun a => if a =? bob then 1000 else 0).

Definition minted : World :=
  @after accepting (CreateGiftCard alice "ipfs://card" asset 100) genesis.

Definition redeemed : World :=
  @after accepting (Liquidate alice 0) minted.

(** Alice approves Bob for the token, then redeems it. *)
Definition redeemed_late : World :=
  @after accepting (Liquidate alice 0)
    (@after_all accepting [Approve alice bob 0] minted).

Definition listed : World :=
  @after accepting (ListGiftCard alice 0 70)
    (@after accepting (Approve alice 200 0) minted).

Definition artwork_listed : World :=
  @after accepting (CreateArtistListing alice "QmArtwork" 10) genesis.

Definition artwork_sold : World :=
  @after accepting (PurchaseArtistDesign bob 25 0) artwork_listed.

(** Alice lets the marketplace move her token. *)
Definition approved : World :=
  @after accepting (Approve alice 200 0) minted.

(** Bob buys the listed token at its price. *)
Definition sold : World :=
  @after accepting (PurchaseGiftCard bob 70 0) listed.

(** Alice lists the token she has already redeemed, and Bob buys it. *)
Definition redeemed_listed : World :=
  @after accepting (ListGiftCard alice 0 70)
    (@after accepting (Approve alice 200 0) redeemed).

Definition redeemed_sold : World :=
  @after accepting (PurchaseGiftCard bob 70 0) redeemed_listed.

(** The mock asset as Alice deploys it with an initial supply of 5 tokens,
    and a ledger whose book of [asset] is the book of that mock asset. *)
Definition mock_asset : MockERC20.t :=
  MockERC20.mk (fun a => if a =? alice then 5 * 10 ^ 18 else 0) (fun _ _ => 0)
    (5 * 10 ^ 18) "Mock" "MCK".

Definition funded : World :=
  deployed (fun t h => if (t =? asset) && (h =? alice) then 5 * 10 ^ 18 else 0)
           (fun _ _ _ => 0) (fun _ => 0).

(** The content store of a front end that has stored nothing yet; its
    blobs and metadata objects are texts. *)
Definition empty_store : IpfsService.State string := IpfsService.initial.

End Scenario.

(* ================================================================== *)
(** * Reasoning about calls *)

Lemma post_ret {A} (a : A) w (Q : A -> World -> Prop) :
  Q a w -> post (ret a) w Q.
Proof. intros H x w' E. inversion E; subst; exact H. Qed.

Lemma post_bind {A B} (c : M A) (k : A -> M B) w (Q : B -> World -> Prop) :
  post c w (fun a w1 => post (k a) w1 Q) -> post (bind c k) w Q.
Proof.
  unfold post, bind. intros H b w' E.
  destruct (c w) as [a w1|e] eqn:Ec; [|discriminate].
  exact (H a w1 eq_refl b w' E).
Qed.

Lemma post_gets {A} (f : World -> A) w (Q : A -> World -> Prop) :
  Q (f w) w -> post (gets f) w Q.
Proof. intros H x w' E. inversion E; subst; exact H. Qed.

Lemma post_modify (f : World -> World) w (Q : unit -> World -> Prop) :
  Q tt (f w) -> post (modify f) w Q.
Proof. intros H x w' E. inversion E; subst; exact H. Qed.

Lemma post_revert {A} e w (Q : A -> World -> Prop) : post (revert e) w Q.
Proof. intros x w' E. discriminate E. Qed.

Lemma post_revert_if b e w (Q : unit -> World -> Prop) :
  (b = false -> Q tt w) -> post (revert_if b e) w Q.
Proof.
  intros H x w' E. destruct b; [discriminate E|].
  inversion E; subst. exact (H eq_refl).
Qed.

Lemma post_conseq {A} (c : M A) w (Q' Q : A -> World -> Prop) :
  post c w Q' -> (forall a w', Q' a w' -> Q a w') -> post c w Q.
Proof. intros H HQ a w' E. exact (HQ a w' (H a w' E)). Qed.

Lemma post_elim {A} (c : M A) w (Q : A -> World -> Prop) a w' :
  post c w Q -> c w = Ok a w' -> Q a w'.
Proof. intros H E. exact (H a w' E). Qed.

(** Boolean tests of the source as propositions. *)
Ltac tests :=
  repeat match goal with
  | H : negb _ = true |- _ => apply negb_true_iff in H
  | H : negb _ = false |- _ => apply negb_false_iff in H
  | H : _ && _ = true |- _ => apply andb_true_iff in H; destruct H
  | H : _ || _ = false |- _ => apply orb_false_iff in H; destruct H
  | H : (_ =? _) = true |- _ => apply Z.eqb_eq in H
  | H : (_ =? _) = false |- _ => apply Z.eqb_neq in H
  | H : (_ <? _) = true |- _ => apply Z.ltb_lt in H
  | H : (_ <? _) = false |- _ => apply Z.ltb_ge in H
  | H : (_ <=? _) = true |- _ => apply Z.leb_le in H
  | H : (_ <=? _) = false |- _ => apply Z.leb_gt in H
  end.

Lemma upd_same {V} (m : mapping V) k v : upd m k v k = v.
Proof. unfold upd. now rewrite Z.eqb_refl. Qed.

Lemma upd_other {V} (m : mapping V) k v k' : k' <> k -> upd m k v k' = m k'.
Proof. unfold upd. intros H. apply Z.eqb_neq in H. now rewrite H. Qed.

(** One step of the walk through a function body. *)
Ltac wp_rule :=
  lazymatch goal with
  | |- post (bind _ _) _ _ => apply post_bind
  | |- post (ret _) _ _ => apply post_ret
  | |- post (gets _) _ _ => apply post_gets
  | |- post (modify _) _ _ => apply post_modify
  | |- post (revert _) _ _ => apply post_revert
  | |- post (revert_if _ _) _ _ => apply post_revert_if; intro
  | |- post (if ?b then _ else _) _ _ => destruct b eqn:?
  end.

Ltac wp := repeat (cbv beta; wp_rule); cbv beta.

(** Case analysis on the keys of updated mappings. *)
Ltac upd_cases :=
  unfold upd in *;
  repeat match goal with
  | |- context [if ?a =? ?b then _ else _] => destruct (Z.eqb_spec a b); subst
  | H : context [if ?a =? ?b then _ else _] |- _ => destruct (Z.eqb_spec a b); subst
  end.

Section Primitives.

Context {deployment : Deployment}.

Lemma _update_post to tokenId auth w :
  post (_update to tokenId auth) w (fun from w' =>
    from = _owners (nft w) tokenId /\
    (auth = 0 \/ authorized w auth tokenId) /\
    exists counts, w' = moved w tokenId to counts).
Proof.
  unfold _update, _checkAuthorized, _isAuthorized, isApprovedForAll, _ownerOf.
  wp; tests; cbn.
  all: (split; [reflexivity|]).
  all: (split; [ first [ left; assumption
                        | right; unfold authorized;
                          match goal with H : _ || _ = true |- _ =>
                            rewrite !orb_true_iff, !Z.eqb_eq in H end; tauto ] |]).
  all: unfold moved.
  all: match goal with
       | H : _owners _ _ = 0 |- _ => rewrite H
       | H : _owners _ _ <> 0 |- _ => apply Z.eqb_neq in H; rewrite H
       end.
  all: eexists; cbn; reflexivity.
Qed.

Lemma erc721_transferFrom_post sender from to tokenId w :
  post (erc721_transferFrom sender from to tokenId) w (fun _ w' =>
    to <> 0 /\ _owners (nft w) tokenId = from /\
    (sender = 0 \/ authorized w sender tokenId) /\
    exists counts, w' = moved w tokenId to counts).
Proof.
  unfold erc721_transferFrom. wp.
  eapply post_conseq; [apply _update_post|].
  intros prev w' (-> & Hauth & Hw). wp. tests. auto.
Qed.

Lemma erc721_safeTransferFrom_post sender from to tokenId w :
  post (erc721_safeTransferFrom sender from to tokenId) w (fun _ w' =>
    to <> 0 /\ _owners (nft w) tokenId = from /\
    (sender = 0 \/ authorized w sender tokenId) /\
    exists counts, w' = moved w tokenId to counts).
Proof.
  unfold erc721_safeTransferFrom, checkOnERC721Received. wp.
  eapply post_conseq; [apply erc721_transferFrom_post|].
  intros [] w' H. wp. exact H.
Qed.

Lemma _safeMint_post operator to tokenId w :
  post (_safeMint operator to tokenId) w (fun _ w' =>
    to <> 0 /\ _owners (nft w) tokenId = 0 /\
    exists counts, w' = moved w tokenId to counts).
Proof.
  unfold _safeMint, _mint, checkOnERC721Received. wp.
  eapply post_conseq; [apply _update_post|].
  intros prev w' (-> & _ & Hw). wp. tests. auto.
Qed.

Lemma erc20_transfer_post token sender to value w :
  post (erc20_transfer token sender to value) w (fun _ w' =>
    sender <> 0 /\ to <> 0 /\ value <= erc20_balances w token sender /\
    w' = asset_moved w token sender to value).
Proof.
  unfold erc20_transfer, erc20_transfer_internal, erc20_update, erc20_balanceOf.
  wp. tests. repeat split; auto.
Qed.

Lemma erc20_transferFrom_post token spender from to value w :
  post (erc20_transferFrom token spender from to value) w (fun _ w' =>
    from <> 0 /\ to <> 0 /\ value <= erc20_balances w token from /\
    exists allowances,
      w' = asset_moved (with_erc20_allowances allowances w) token from to value).
Proof.
  unfold erc20_transferFrom, erc20_spendAllowance, erc20_transfer_internal,
    erc20_update, erc20_balanceOf.
  wp; tests; (repeat split; auto); eexists; cbn; try reflexivity.
Qed.

Lemma erc20_approve_post token sender spender value w :
  post (erc20_approve token sender spender value) w (fun _ w' =>
    exists allowances, w' = with_erc20_allowances allowances w).
Proof. unfold erc20_approve. wp. eexists; reflexivity. Qed.

Lemma payable_post sender value w :
  post (payable sender value) w (fun _ w' =>
    value <= native w sender /\
    w' = move_native sender market_address value w).
Proof. unfold payable. wp. tests. auto. Qed.

Lemma call_value_post to value w :
  post (call_value to value) w (fun success w' =>
    if success
    then w' = move_native market_address to value w /\
         receive_ether to w' value = true
    else w' = w).
Proof.
  intros success w' E. unfold call_value in E.
  destruct (native w market_address <? value); [inversion E; reflexivity|].
  destruct (receive_ether to _ value) eqn:R; inversion E; subst; auto.
Qed.

End Primitives.

(** A call into the inherited code or the ledger is summarised by its
    lemma above instead of being walked through again. *)
Ltac wp_call :=
  lazymatch goal with
  | |- post (erc721_transferFrom _ _ _ _) _ _ =>
      eapply post_conseq; [apply erc721_transferFrom_post|];
      intros [] ? (? & ? & ? & ? & ->)
  | |- post (erc721_safeTransferFrom _ _ _ _) _ _ =>
      eapply post_conseq; [apply erc721_safeTransferFrom_post|];
      intros [] ? (? & ? & ? & ? & ->)
  | |- post (_safeMint _ _ _) _ _ =>
      eapply post_conseq; [apply _safeMint_post|];
      intros [] ? (? & ? & ? & ->)
  | |- post (erc20_transfer _ _ _ _) _ _ =>
      eapply post_conseq; [apply erc20_transfer_post|];
      intros [] ? (? & ? & ? & ->)
  | |- post (erc20_transferFrom _ _ _ _ _) _ _ =>
      eapply post_conseq; [apply erc20_transferFrom_post|];
      intros [] ? (? & ? & ? & ? & ->)
  | |- post (erc20_approve _ _ _ _) _ _ =>
      eapply post_conseq; [apply erc20_approve_post|];
      intros [] ? (? & ->)
  | |- post (payable _ _) _ _ =>
      eapply post_conseq; [apply payable_post|];
      intros [] ? (? & ->)
  | |- post (call_value _ _) _ _ =>
      eapply post_conseq; [apply call_value_post|];
      let s := fresh "success" in
      intros s ? ?; destruct s;
      [ match goal with H : _ /\ _ |- _ => destruct H as [-> ?] end | subst ]
  end.

Ltac open_contracts :=
  unfold run, returning,
    createGiftCard, createGiftCard_via, liquidate, liquidate_via, liquidate_mark,
    liquidate_payout, standard_asset, asset_balanceOf, asset_safeTransferFrom,
    asset_safeTransfer, getVaultContents, getMetadataURI,
    createArtistListing, purchaseArtistDesign, cancelArtistListing,
    listGiftCard, purchaseGiftCard, cancelGiftCardListing,
    safeTransferFrom, safeTransfer, vault_at, artistListing_at, giftCardListing_at,
    deactivate_artistListing, deactivate_giftCardListing,
    nonReentrant_nft, nonReentrant_market, checked_increment,
    erc721_approve, erc721_setApprovalForAll, _setTokenURI, tokenURI,
    isApprovedForAll, getApproved, ownerOf, _requireOwned, _ownerOf,
    erc20_balanceOf, emit.

Ltac walk := repeat (cbv beta; first [wp_rule | wp_call]); cbv beta.

(** Field reads of updated records. *)
Ltac project :=
  cbn [nft market erc20_balances erc20_allowances native events
       _owners _balances _tokenApprovals _operatorApprovals _tokenURIs _vaults
       _tokenIdCounter nft_entered
       _artistListings _giftCardListings _artistListingCounter
       _giftCardListingCounter market_entered
       tokenAddress amount liquidated
       ArtistListing.listingId ArtistListing.artist ArtistListing.ipfsHash
       ArtistListing.price ArtistListing.active ArtistListing.deactivate
       GiftCardListing.listingId GiftCardListing.tokenId GiftCardListing.seller
       GiftCardListing.price GiftCardListing.active GiftCardListing.deactivate
       with_nft with_market with_erc20_balances with_erc20_allowances with_native
       with_events with_owners with_balances with_tokenApprovals
       with_operatorApprovals with_tokenURIs with_vaults with_tokenIdCounter
       with_nft_entered with_artistListings with_giftCardListings
       with_artistListingCounter with_giftCardListingCounter with_market_entered
       moved asset_moved move_native tx_sender fst snd] in *.

Section Invariants.

Context {deployment : Deployment}.

Lemma after_keeps (I : World -> Prop) tx w :
  I w -> post (run tx) w (fun _ w' => I w') -> I (after tx w).
Proof.
  intros Hw Hp. unfold after, transact.
  destruct (run tx w) as [r w'|e] eqn:E; cbn; [exact (Hp r w' E)|exact Hw].
Qed.

Lemma after_all_keeps (I : World -> Prop) :
  (forall tx w, I w -> I (after tx w)) ->
  forall txs w, I w -> I (after_all txs w).
Proof.
  intros Hstep txs. induction txs as [|tx rest IH]; intros w Hw; cbn; auto.
Qed.

Lemma nft_guard_step tx w :
  nft_entered (nft w) = false -> nft_entered (nft (after tx w)) = false.
Proof.
  intros Hn. apply (after_keeps (fun w => nft_entered (nft w) = false)); [assumption|].
  destruct tx; open_contracts; walk; project; auto.
Qed.

Lemma market_guard_step tx w :
  market_entered (market w) = false -> market_entered (market (after tx w)) = false.
Proof.
  intros Hm. apply (after_keeps (fun w => market_entered (market w) = false)); [assumption|].
  destruct tx; open_contracts; walk; project; auto.
Qed.

Lemma guards_open_step tx w : guards_open w -> guards_open (after tx w).
Proof.
  intros [Hn Hm]. split; [apply nft_guard_step|apply market_guard_step]; assumption.
Qed.

Lemma artist_retired_step l tx w : artist_retired l w -> artist_retired l (after tx w).
Proof.
  intros [Hl Ha]. apply after_keeps; [split; assumption|].
  destruct tx; open_contracts; walk; unfold artist_retired; project; auto.
  all: tests; (split; [lia|]).
  - rewrite upd_other by lia. exact Ha.
  - unfold upd. destruct (l =? listingId) eqn:E; [reflexivity|exact Ha].
  - unfold upd. destruct (l =? listingId) eqn:E; [reflexivity|exact Ha].
  - unfold upd. destruct (l =? listingId) eqn:E; [reflexivity|exact Ha].
Qed.

Lemma giftCard_retired_step l tx w :
  giftCard_retired l w -> giftCard_retired l (after tx w).
Proof.
  intros [Hl Ha]. apply after_keeps; [split; assumption|].
  destruct tx; open_contracts; walk; unfold giftCard_retired; project; auto.
  all: tests; (split; [lia|]).
  - rewrite upd_other by lia. exact Ha.
  - unfold upd. destruct (l =? listingId) eqn:E; [reflexivity|exact Ha].
  - unfold upd. destruct (l =? listingId) eqn:E; [reflexivity|exact Ha].
  - unfold upd. destruct (l =? listingId) eqn:E; [reflexivity|exact Ha].
Qed.

Lemma vault_kept_step tokenId v tx w :
  vault_kept tokenId v w -> vault_kept tokenId v (after tx w).
Proof.
  intros (Ho & Ht & Ha & Hl). apply after_keeps; [repeat split; assumption|].
  pose proof market_address_nonzero.
  destruct tx; open_contracts; walk; unfold vault_kept; project; auto.
  all: tests.
  all: repeat split; auto; upd_cases; project; auto; try congruence.
Qed.

Lemma authorized_owned w sender tokenId :
  tidy w -> authorized w sender tokenId -> _owners (nft w) tokenId <> 0.
Proof.
  intros (_ & _ & Hz & Hop & _) (Hs & [H | [H | H]]) Ho.
  - congruence.
  - rewrite Ho, Hop in H. discriminate.
  - destruct (Hz _ Ho) as (_ & Ha & _). congruence.
Qed.

Lemma tidy_step tx w : valid_tx tx -> tidy w -> tidy (after tx w).
Proof.
  intros Hv Ht. apply after_keeps; [assumption|].
  pose proof market_address_nonzero.
  pose proof (fun s id => authorized_owned w s id Ht) as Hauth.
  destruct Ht as ((Hc1 & Hc2 & Hc3) & Hown & Hzero & Hop & Hal & Hgl).
  destruct Hv as (Hs0 & Hs1 & Hs2).
  destruct tx; project; open_contracts; walk; unfold tidy; project; auto.
  all: tests.
  all: repeat match goal with
       | H : _ \/ authorized _ _ _ |- _ =>
           destruct H as [H|H]; [congruence|apply Hauth in H]
       end.
  all: repeat match goal with |- _ /\ _ => split end; try lia; auto.
  all: intros; upd_cases; project; auto; try lia; try congruence.
  all: try match goal with
       | H : _ <= ?l, A : ArtistListing.active (_ ?l) = true |- _ =>
           rewrite (Hal l H) in A; discriminate A
       | H : _ <= ?l, A : GiftCardListing.active (_ ?l) = true |- _ =>
           rewrite (Hgl l H) in A; discriminate A
       | H : _ <= ?l, A : ArtistListing.artist (_ ?l) = ?s, N : ?s <> 0 |- _ =>
           rewrite (Hal l H) in A; cbn in A; congruence
       | H : _ <= ?l, A : GiftCardListing.seller (_ ?l) = ?s, N : ?s <> 0 |- _ =>
           rewrite (Hgl l H) in A; cbn in A; congruence
       end.
  all: try (apply Hal; lia); try (apply Hgl; lia).
  all: try match goal with
       | |- _ <-> _ <= ?x < _ =>
           let K := fresh in
           pose proof (Hown x) as K; split; intros; [apply K; congruence|congruence]
       end.
  - rewrite Hown. lia.
  - destruct (Z.eqb_spec 0 sender); [congruence|]. apply Hop.
Qed.

Lemma authorized_not_escrowed w sender tokenId :
  escrow w -> sender <> market_address -> authorized w sender tokenId ->
  _owners (nft w) tokenId <> market_address.
Proof.
  intros (_ & _ & Happ & Hop) Hs (Hs0 & [H | [H | H]]) Ho.
  - congruence.
  - rewrite Ho, Hop in H. discriminate.
  - rewrite (Happ _ Ho) in H. congruence.
Qed.

Lemma escrow_step tx w : valid_tx tx -> tidy w -> escrow w -> escrow (after tx w).
Proof.
  intros Hv Ht He. apply after_keeps; [assumption|].
  pose proof market_address_nonzero.
  pose proof (fun s id => authorized_owned w s id Ht) as Hauth.
  pose proof (fun s id => authorized_not_escrowed w s id He) as Hesc.
  destruct He as (Hheld & Huniq & Happ & Hop).
  destruct Hv as (Hs0 & Hs1 & Hs2).
  destruct tx; project; open_contracts; walk; unfold escrow; project; auto.
  all: tests.
  all: repeat match goal with
       | H : _ \/ authorized _ _ _ |- _ =>
           destruct H as [H|H];
           [congruence|pose proof (Hauth _ _ H); apply Hesc in H; [|assumption]]
       end.
  all: repeat match goal with |- _ /\ _ => split end; auto.
  all: intros; upd_cases; project; auto; try lia; try congruence.
  all: try (exfalso;
            match goal with
            | A : GiftCardListing.active _ = true |- _ =>
                pose proof (Hheld _ A); congruence
            end).
  all: try match goal with
       | |- (if (?a =? ?b) && _ then _ else _) = false =>
           destruct (Z.eqb_spec a b); [congruence|apply Hop]
       end.
  all: try (exfalso;
            match goal with
            | A : GiftCardListing.active (_ ?l) = true,
              B : GiftCardListing.active (_ ?l') = true, N : ?l <> ?l' |- _ =>
                apply N; apply Huniq; congruence
            end).
  exfalso.
  match goal with
  | O : _owners (nft w) ?id = market_address, B : _ && _ && _ = false |- _ =>
      rewrite O, Hop in B;
      destruct (Z.eqb_spec sender 0); [congruence|];
      destruct (Z.eqb_spec market_address sender); [congruence|discriminate B]
  end.
Qed.
End Invariants.

(* ================================================================== *)
(** * Properties of the two contracts *)

Section Claims.

Context {deployment : Deployment}.

Lemma deployed_sound balances allowances funds :
  let w := deployed balances allowances funds in
  guards_open w /\ tidy w /\ escrow w.
Proof.
  cbn. split; [split; reflexivity|]. split.
  - unfold tidy; cbn. repeat split; try lia; try congruence; auto.
  - unfold escrow; cbn. repeat split; intros; try discriminate; auto.
Qed.

Lemma reachable_sound w : reachable w -> guards_open w /\ tidy w /\ escrow w.
Proof.
  induction 1 as [b a f|w tx Hr (Hg & Ht & He) Hv].
  - apply deployed_sound.
  - split; [apply guards_open_step; assumption|].
    split; [apply tidy_step; assumption|apply escrow_step; assumption].
Qed.

(** C3.  Every public mutating call is atomic on failure: whenever a call
    fails, with whatever error, the ledger after it equals the ledger before
    it.  In particular [createGiftCard] for an asset other than the null
    address, by a depositor whose balance, as the asset contract answers it,
    is below the amount, fails with [InsufficientBalance], whatever else the
    asset contract would do: it is not asked to move anything before the
    check.  When the call of [balanceOf] itself fails, as it does at an
    address without code, [createGiftCard] fails with that failure.  The
    call on the ledger is this code run with assets that keep a standard
    book; failed, it leaves the token counter, the vault records, the token
    owners, the asset balances and the emitted records untouched. *)
Theorem failed_call_changes_nothing :
  (forall tx w e, snd (transact tx w) = Failed e -> fst (transact tx w) = w) /\
  (forall asset sender metadataURI token tokenAmount w,
     nft_entered (nft w) = false ->
     token <> 0 ->
     let asked := with_nft (with_nft_entered true (nft w)) w in
     (forall balance answered,
        asset_balanceOf asset token sender asked = Ok balance answered ->
        balance < tokenAmount ->
        createGiftCard_via asset sender metadataURI token tokenAmount w
          = Revert InsufficientBalance) /\
     (forall e,
        tokenAmount <> 0 ->
        asset_balanceOf asset token sender asked = Revert e ->
        createGiftCard_via asset sender metadataURI token tokenAmount w = Revert e)) /\
  (forall sender metadataURI token tokenAmount w,
     nft_entered (nft w) = false ->
     erc20_balances w token sender < tokenAmount ->
     exists e,
       createGiftCard sender metadataURI token tokenAmount
         = createGiftCard_via standard_asset sender metadataURI token tokenAmount /\
       createGiftCard sender metadataURI token tokenAmount w = Revert e /\
       transact (CreateGiftCard sender metadataURI token tokenAmount) w = (w, Failed e) /\
       let w' := after (CreateGiftCard sender metadataURI token tokenAmount) w in
       _tokenIdCounter (nft w') = _tokenIdCounter (nft w) /\
       _vaults (nft w') = _vaults (nft w) /\
       _owners (nft w') = _owners (nft w) /\
       erc20_balances w' = erc20_balances w /\
       events w' = events w).
Proof.
  split; [|split].
  - intros tx w e. unfold transact. destruct (run tx w); cbn; [discriminate|reflexivity].
  - intros asset sender metadataURI token tokenAmount w Hg Ht asked.
    apply Z.eqb_neq in Ht.
    split.
    + intros balance answered Hb Hlow.
      unfold createGiftCard_via, nonReentrant_nft, bind, gets, revert_if, modify,
        revert, ret.
      rewrite Hg, Ht. destruct (tokenAmount =? 0); [reflexivity|].
      fold asked. rewrite Hb. apply Z.ltb_lt in Hlow. rewrite Hlow. reflexivity.
    + intros e Ha Hb. apply Z.eqb_neq in Ha.
      unfold createGiftCard_via, nonReentrant_nft, bind, gets, revert_if, modify,
        revert, ret.
      rewrite Hg, Ht, Ha. fold asked. rewrite Hb. reflexivity.
  - intros sender metadataURI token tokenAmount w Hg Hb.
    exists (if token =? 0 then InvalidTokenAddress else InsufficientBalance).
    assert (E : createGiftCard sender metadataURI token tokenAmount w
                = Revert (if token =? 0 then InvalidTokenAddress
                          else InsufficientBalance)).
    { unfold createGiftCard, createGiftCard_via, standard_asset, asset_balanceOf,
        nonReentrant_nft, erc20_balanceOf, bind, gets, revert_if, modify, revert, ret.
      rewrite Hg. destruct (token =? 0); [reflexivity|].
      destruct (tokenAmount =? 0); [reflexivity|].
      cbn. apply Z.ltb_lt in Hb. rewrite Hb. reflexivity. }
    assert (T : transact (CreateGiftCard sender metadataURI token tokenAmount) w
                = (w, Failed (if token =? 0 then InvalidTokenAddress
                              else InsufficientBalance))).
    { unfold transact, run, returning, bind. rewrite E. reflexivity. }
    split; [reflexivity|]. split; [exact E|]. split; [exact T|].
    unfold after. rewrite T. cbn. repeat split; reflexivity.
Qed.

(** C8.  Authorization boundary: for every existing token and every caller
    that is not its current owner, [liquidate] fails with [NotTokenOwner],
    whatever the vault's [liquidated] flag is. *)
Theorem liquidate_by_non_owner caller tokenId w :
  nft_entered (nft w) = false ->
  _owners (nft w) tokenId <> 0 ->
  caller <> _owners (nft w) tokenId ->
  liquidate caller tokenId w = Revert NotTokenOwner.
Proof.
  intros Hg Ho Hc.
  unfold liquidate, liquidate_via, liquidate_mark, nonReentrant_nft, ownerOf,
    _requireOwned, _ownerOf, bind, gets, revert_if, modify, revert, ret.
  rewrite Hg. cbn.
  apply Z.eqb_neq in Ho. rewrite Ho.
  assert (E : (_owners (nft w) tokenId =? caller) = false) by (apply Z.eqb_neq; congruence).
  rewrite E. reflexivity.
Qed.

Lemma liquidate_rejects caller tokenId w :
  nft_entered (nft w) = false ->
  _owners (nft w) tokenId <> 0 ->
  liquidated (_vaults (nft w) tokenId) = true ->
  liquidate caller tokenId w =
    Revert (if _owners (nft w) tokenId =? caller then AlreadyLiquidated else NotTokenOwner).
Proof.
  intros Hg Ho Hl.
  unfold liquidate, liquidate_via, liquidate_mark, nonReentrant_nft, ownerOf,
    _requireOwned, _ownerOf, vault_at, bind, gets, revert_if, modify, revert, ret.
  rewrite Hg. cbn.
  apply Z.eqb_neq in Ho. rewrite Ho.
  destruct (_owners (nft w) tokenId =? caller); cbn; [rewrite Hl|]; reflexivity.
Qed.


Lemma bind_ok {A B} (c : M A) (k : A -> M B) w b w' :
  bind c k w = Ok b w' -> exists a w1, c w = Ok a w1 /\ k a w1 = Ok b w'.
Proof.
  unfold bind. destruct (c w) as [a w1|e]; [|discriminate].
  intros E. exists a, w1. split; [reflexivity|exact E].
Qed.

Lemma nonReentrant_nft_ok {A} (body : M A) w r w' :
  nonReentrant_nft body w = Ok r w' ->
  nft_entered (nft w) = false /\
  exists wb, body (with_nft (with_nft_entered true (nft w)) w) = Ok r wb /\
             w' = with_nft (with_nft_entered false (nft wb)) wb.
Proof.
  unfold nonReentrant_nft, bind, gets, revert_if, modify, ret, revert.
  destruct (nft_entered (nft w)); [discriminate|].
  destruct (body _) as [a wb|e]; [|discriminate].
  intros E. inversion E; subst. split; [reflexivity|]. exists wb. split; reflexivity.
Qed.

Lemma createGiftCard_post sender metadataURI token tokenAmount w :
  post (createGiftCard sender metadataURI token tokenAmount) w (fun tokenId w' =>
    tokenId = _tokenIdCounter (nft w) /\
    _tokenIdCounter (nft w') = tokenId + 1 /\
    _owners (nft w') tokenId = sender /\
    sender <> 0 /\
    _vaults (nft w') tokenId = mkTokenVault token tokenAmount false /\
    _tokenURIs (nft w') tokenId = metadataURI /\
    nft_entered (nft w') = false /\
    erc20_balances w' =
      erc20_balances (asset_moved w token sender nft_address tokenAmount) /\
    events w' = GiftCardCreated tokenId sender token tokenAmount :: events w).
Proof.
  open_contracts; walk; project; tests.
  rewrite !upd_same. repeat split; auto.
Qed.

Lemma liquidate_mark_post sender tokenId w :
  post (liquidate_mark sender tokenId) w (fun _ w' =>
    _owners (nft w) tokenId = sender /\
    sender <> 0 /\
    liquidated (_vaults (nft w) tokenId) = false /\
    _vaults (nft w') =
      upd (_vaults (nft w)) tokenId
        (mkTokenVault (tokenAddress (_vaults (nft w) tokenId))
                      (amount (_vaults (nft w) tokenId)) true) /\
    _owners (nft w') = _owners (nft w) /\
    erc20_balances w' = erc20_balances w /\
    events w' = events w).
Proof.
  open_contracts; walk; project; tests. repeat split; auto. congruence.
Qed.

Lemma liquidate_post sender tokenId w :
  post (liquidate sender tokenId) w (fun _ w' =>
    nft_entered (nft w) = false /\
    _owners (nft w) tokenId = sender /\
    liquidated (_vaults (nft w) tokenId) = false /\
    _vaults (nft w') =
      upd (_vaults (nft w)) tokenId
        (mkTokenVault (tokenAddress (_vaults (nft w) tokenId))
                      (amount (_vaults (nft w) tokenId)) true) /\
    _owners (nft w') = _owners (nft w) /\
    nft_entered (nft w') = false /\
    erc20_balances w' =
      erc20_balances
        (asset_moved w (tokenAddress (_vaults (nft w) tokenId)) nft_address sender
           (amount (_vaults (nft w) tokenId))) /\
    events w' =
      GiftCardLiquidated tokenId sender (amount (_vaults (nft w) tokenId)) :: events w).
Proof.
  open_contracts; walk; project; tests. rewrite !upd_same. project.
  repeat split; auto.
Qed.


Lemma vault_kept_all tokenId v txs w :
  vault_kept tokenId v w -> vault_kept tokenId v (after_all txs w).
Proof. apply after_all_keeps. intros; apply vault_kept_step; assumption. Qed.

Lemma nft_guard_all txs w :
  nft_entered (nft w) = false -> nft_entered (nft (after_all txs w)) = false.
Proof.
  apply (after_all_keeps (fun w => nft_entered (nft w) = false)).
  intros; apply nft_guard_step; assumption.
Qed.

(** C1, amended.  A deposit is paid out at most once.  A token created with
    a deposit of [tokenAmount] can later be redeemed by its owner.  That
    redeem is [liquidate_via] run with a standard asset, and [liquidate_via]
    calls the asset contract exactly once, whatever that contract does, and
    on a ledger on which the [liquidated] flag is already set, the
    guard is taken and no asset has moved: a redeem attempted from inside
    the payout fails, at the guard and at the flag.  With an asset that
    keeps a standard book the redeem moves exactly [tokenAmount] of the
    deposited asset from the contract to the caller.  From then on every
    redeem of the token fails: with [AlreadyLiquidated] when the caller is
    the current owner, with [NotTokenOwner] for any other caller. *)
Theorem deposit_is_paid_out_once
    creator metadataURI token tokenAmount w0 tokenId wc txs sender w1 :
  createGiftCard creator metadataURI token tokenAmount w0 = Ok tokenId wc ->
  liquidate sender tokenId (after_all txs wc) = Ok tt w1 ->
  let w := after_all txs wc in
  erc20_balances wc =
    erc20_balances (asset_moved w0 token creator nft_address tokenAmount) /\
  _owners (nft w) tokenId = sender /\
  (let view := liquidate_payout_view tokenId w in
   liquidate sender tokenId = liquidate_via standard_asset sender tokenId /\
   liquidated (_vaults (nft view) tokenId) = true /\
   erc20_balances view = erc20_balances w /\
   (forall asset,
      liquidate_via asset sender tokenId w =
        match asset_safeTransfer asset token sender tokenAmount view with
        | Ok _ paid => Ok tt (liquidate_settled sender tokenId paid)
        | Revert e => Revert e
        end) /\
   (forall asset caller,
      liquidate_via asset caller tokenId view = Revert ReentrancyGuardReentrantCall) /\
   (forall caller,
      liquidate_mark caller tokenId view =
        Revert (if sender =? caller then AlreadyLiquidated else NotTokenOwner))) /\
  erc20_balances w1 =
    erc20_balances (asset_moved w token nft_address sender tokenAmount) /\
  _vaults (nft w1) tokenId = mkTokenVault token tokenAmount true /\
  forall later caller,
    liquidate caller tokenId (after_all later w1) =
      Revert (if _owners (nft (after_all later w1)) tokenId =? caller
              then AlreadyLiquidated else NotTokenOwner).
Proof.
  intros Hc Hl w.
  pose proof (createGiftCard_post _ _ _ _ _ _ _ Hc)
    as (_ & _ & Hown & Hs & Hv & _ & _ & Hdep & _).
  assert (Hk : vault_kept tokenId (mkTokenVault token tokenAmount false) w).
  { apply vault_kept_all. unfold vault_kept. rewrite Hv, Hown. cbn.
    repeat split; auto. }
  destruct Hk as (Ho & Hta & Ham & _). cbn in Hta, Ham.
  pose proof (liquidate_post _ _ _ _ _ Hl)
    as (Hg & Hsender & Hfresh & Hv1 & Ho1 & Hg1 & Hpay & _).
  fold w in Hg, Hsender, Hfresh, Hv1, Ho1, Hpay. rewrite Hta, Ham in Hv1, Hpay.
  split; [exact Hdep|]. split; [exact Hsender|]. split.
  { cbv zeta.
    assert (Hexists : (_owners (nft w) tokenId =? 0) = false) by (apply Z.eqb_neq; exact Ho).
    split; [reflexivity|]. split; [|split; [|split; [|split]]].
    - unfold liquidate_payout_view. project. rewrite upd_same. reflexivity.
    - reflexivity.
    - intros asset.
      unfold liquidate_via, liquidate_mark, liquidate_payout, nonReentrant_nft, ownerOf,
        _requireOwned, _ownerOf, vault_at, emit, bind, gets, revert_if, modify, revert, ret.
      rewrite Hg. cbn. rewrite Hexists, Hsender, Z.eqb_refl. cbn.
      rewrite Hfresh. cbn. rewrite upd_same. cbn. rewrite Hta, Ham.
      unfold liquidate_payout_view. cbn. rewrite Hta, Ham.
      destruct (asset_safeTransfer asset token sender tokenAmount _) as [[] paid|e];
        reflexivity.
    - intros asset caller. unfold liquidate_via, nonReentrant_nft, bind, gets, revert_if.
      reflexivity.
    - intros caller.
      unfold liquidate_mark, liquidate_payout_view, ownerOf, _requireOwned, _ownerOf,
        vault_at, bind, gets, revert_if, modify, revert, ret.
      cbn. rewrite Hexists, Hsender.
      destruct (sender =? caller); cbn; [|reflexivity].
      rewrite upd_same. reflexivity. }
  split; [exact Hpay|]. split; [rewrite Hv1, upd_same; reflexivity|].
  intros later caller.
  assert (Hk : vault_kept tokenId (mkTokenVault token tokenAmount true)
                 (after_all later w1)).
  { apply vault_kept_all. unfold vault_kept. rewrite Hv1, Ho1, upd_same. cbn.
    repeat split; auto. }
  destruct Hk as (Ho2 & _ & _ & Hl2).
  apply liquidate_rejects; auto. apply nft_guard_all; assumption.
Qed.

(** C5.  For every minted token the vault's [amount] and [tokenAddress] are
    the same after any sequence of calls; a redeem pays out without zeroing
    ([getVaultContents] still reports the original amount, with the flag
    set); and the three resale calls leave every vault record, flag
    included, as it was. *)
Theorem vault_contents_never_change :
  (forall txs w tokenId,
     _owners (nft w) tokenId <> 0 ->
     amount (_vaults (nft (after_all txs w)) tokenId) = amount (_vaults (nft w) tokenId) /\
     tokenAddress (_vaults (nft (after_all txs w)) tokenId) =
       tokenAddress (_vaults (nft w) tokenId)) /\
  (forall sender tokenId w w',
     liquidate sender tokenId w = Ok tt w' ->
     getVaultContents tokenId w' =
       Ok (mkTokenVault (tokenAddress (_vaults (nft w) tokenId))
                        (amount (_vaults (nft w) tokenId)) true) w') /\
  (forall tx w,
     is_resale tx = true -> _vaults (nft (after tx w)) = _vaults (nft w)).
Proof.
  split; [|split].
  - intros txs w tokenId Ho.
    assert (Hk : vault_kept tokenId (_vaults (nft w) tokenId) (after_all txs w)).
    { apply vault_kept_all. unfold vault_kept. auto. }
    destruct Hk as (_ & Ht & Ha & _). auto.
  - intros sender tokenId w w' Hl.
    pose proof (liquidate_post _ _ _ _ _ Hl) as (_ & _ & _ & Hv & _).
    unfold getVaultContents, vault_at, gets. rewrite Hv, upd_same. reflexivity.
  - intros tx w Hr.
    apply (after_keeps (fun w' => _vaults (nft w') = _vaults (nft w))); [reflexivity|].
    destruct tx; try discriminate Hr; open_contracts; walk; project; reflexivity.
Qed.


(** C6.  Listing terminal property: a created listing, artwork or resale,
    whose [active] flag is false keeps it false through every sequence of
    calls.  Listings are created active at the next sequential id only. *)
Theorem inactive_listing_stays_inactive :
  (forall txs w l,
     l < _artistListingCounter (market w) ->
     ArtistListing.active (_artistListings (market w) l) = false ->
     ArtistListing.active (_artistListings (market (after_all txs w)) l) = false) /\
  (forall txs w l,
     l < _giftCardListingCounter (market w) ->
     GiftCardListing.active (_giftCardListings (market w) l) = false ->
     GiftCardListing.active (_giftCardListings (market (after_all txs w)) l) = false) /\
  (forall sender ipfsHash price w l w',
     createArtistListing sender ipfsHash price w = Ok l w' ->
     l = _artistListingCounter (market w) /\
     _artistListingCounter (market w') = l + 1 /\
     ArtistListing.active (_artistListings (market w') l) = true) /\
  (forall sender tokenId price w l w',
     listGiftCard sender tokenId price w = Ok l w' ->
     l = _giftCardListingCounter (market w) /\
     _giftCardListingCounter (market w') = l + 1 /\
     GiftCardListing.active (_giftCardListings (market w') l) = true).
Proof.
  split; [|split; [|split]].
  - intros txs w l Hl Ha.
    apply (after_all_keeps (artist_retired l)); [|split; assumption].
    intros; apply artist_retired_step; assumption.
  - intros txs w l Hl Ha.
    apply (after_all_keeps (giftCard_retired l)); [|split; assumption].
    intros; apply giftCard_retired_step; assumption.
  - intros sender ipfsHash price w l w'.
    apply (post_elim (createArtistListing sender ipfsHash price) w
             (fun l w' => l = _artistListingCounter (market w) /\
                          _artistListingCounter (market w') = l + 1 /\
                          ArtistListing.active (_artistListings (market w') l) = true)).
    open_contracts; walk; project. rewrite upd_same. auto.
  - intros sender tokenId price w l w'.
    apply (post_elim (listGiftCard sender tokenId price) w
             (fun l w' => l = _giftCardListingCounter (market w) /\
                          _giftCardListingCounter (market w') = l + 1 /\
                          GiftCardListing.active (_giftCardListings (market w') l) = true)).
    open_contracts; walk; project. rewrite upd_same. auto.
Qed.

Lemma purchaseGiftCard_post buyer value l w :
  post (purchaseGiftCard buyer value l) w (fun _ w' =>
    GiftCardListing.active (_giftCardListings (market w) l) = true /\
    GiftCardListing.active (_giftCardListings (market w') l) = false /\
    _owners (nft w) (GiftCardListing.tokenId (_giftCardListings (market w) l))
      = market_address /\
    _owners (nft w') (GiftCardListing.tokenId (_giftCardListings (market w) l)) = buyer).
Proof.
  open_contracts; walk; project; tests; try discriminate.
  rewrite !upd_same in *. project. auto.
Qed.

Lemma cancelGiftCardListing_post caller l w :
  post (cancelGiftCardListing caller l) w (fun _ w' =>
    GiftCardListing.active (_giftCardListings (market w) l) = true /\
    GiftCardListing.seller (_giftCardListings (market w) l) = caller /\
    GiftCardListing.active (_giftCardListings (market w') l) = false /\
    _owners (nft w) (GiftCardListing.tokenId (_giftCardListings (market w) l))
      = market_address /\
    _owners (nft w') (GiftCardListing.tokenId (_giftCardListings (market w) l)) = caller).
Proof.
  open_contracts; walk; project; tests; try discriminate.
  rewrite !upd_same in *. project. auto.
Qed.

(** C4.  Escrow invariant: in every reachable ledger the token referenced
    by an active resale listing is owned by the marketplace; a purchase
    deactivates the listing and hands the token to the buyer in the same
    call, a cancellation deactivates it and hands the token back to the
    seller. *)
Theorem escrow_custody w :
  reachable w ->
  (forall l,
     GiftCardListing.active (_giftCardListings (market w) l) = true ->
     _owners (nft w) (GiftCardListing.tokenId (_giftCardListings (market w) l))
       = market_address) /\
  (forall buyer value l w',
     purchaseGiftCard buyer value l w = Ok tt w' ->
     GiftCardListing.active (_giftCardListings (market w) l) = true /\
     GiftCardListing.active (_giftCardListings (market w') l) = false /\
     _owners (nft w') (GiftCardListing.tokenId (_giftCardListings (market w) l))
       = buyer) /\
  (forall caller l w',
     cancelGiftCardListing caller l w = Ok tt w' ->
     GiftCardListing.active (_giftCardListings (market w) l) = true /\
     GiftCardListing.active (_giftCardListings (market w') l) = false /\
     _owners (nft w') (GiftCardListing.tokenId (_giftCardListings (market w) l))
       = GiftCardListing.seller (_giftCardListings (market w) l)).
Proof.
  intros Hr. destruct (reachable_sound w Hr) as (_ & _ & Hheld & _).
  split; [exact Hheld|]. split.
  - intros buyer value l w' E.
    pose proof (purchaseGiftCard_post _ _ _ _ _ _ E) as (Ha & Ha' & _ & Ho). auto.
  - intros caller l w' E.
    pose proof (cancelGiftCardListing_post _ _ _ _ _ E) as (Ha & Hs & Ha' & _ & Ho).
    rewrite Hs. auto.
Qed.

(** C9, amended.  Both reads leave the ledger untouched.
    [getVaultContents] never fails: it returns the stored record, which for
    an id never minted is the zero-value record.  [getMetadataURI] returns
    the stored reference for an existing token and, for an id that is not
    a token, fails with the nonexistent-token error of the inherited
    [tokenURI].  In a reachable ledger the existing tokens are exactly the
    ids below the counter. *)
Theorem vault_and_metadata_reads :
  (forall tokenId w, getVaultContents tokenId w = Ok (_vaults (nft w) tokenId) w) /\
  (forall tokenId w,
     reachable w -> _tokenIdCounter (nft w) <= tokenId ->
     getVaultContents tokenId w = Ok TokenVault_zero w) /\
  (forall tokenId w,
     _owners (nft w) tokenId <> 0 ->
     getMetadataURI tokenId w = Ok (_tokenURIs (nft w) tokenId) w) /\
  (forall tokenId w,
     _owners (nft w) tokenId = 0 ->
     getMetadataURI tokenId w = Revert (ERC721NonexistentToken tokenId)) /\
  (forall tokenId w,
     reachable w ->
     (_owners (nft w) tokenId <> 0 <-> 0 <= tokenId < _tokenIdCounter (nft w))).
Proof.
  split; [|split; [|split; [|split]]].
  - reflexivity.
  - intros tokenId w Hr Hc.
    destruct (reachable_sound w Hr) as (_ & (_ & Hown & Hzero & _) & _).
    unfold getVaultContents, vault_at, gets.
    destruct (Z.eq_dec (_owners (nft w) tokenId) 0) as [Ho|Ho].
    + destruct (Hzero _ Ho) as (-> & _). reflexivity.
    + apply Hown in Ho. lia.
  - intros tokenId w Ho.
    unfold getMetadataURI, tokenURI, _requireOwned, _ownerOf, bind, gets, revert_if, ret.
    apply Z.eqb_neq in Ho. rewrite Ho. reflexivity.
  - intros tokenId w Ho.
    unfold getMetadataURI, tokenURI, _requireOwned, _ownerOf, bind, gets, revert_if, ret.
    rewrite Ho. reflexivity.
  - intros tokenId w Hr.
    destruct (reachable_sound w Hr) as (_ & (_ & Hown & _) & _). apply Hown.
Qed.

(** C10.  Cancelling checks the seller before the [active] flag: a caller
    who is not the recorded author or seller gets [NotSeller] whatever the
    flag is, and so a listing that was never created (whose recorded
    author is the null address) is reported as [NotSeller], not as
    [InvalidListing], for every caller and for both kinds of listing. *)
Theorem cancel_checks_the_seller_first caller l w :
  caller <> 0 ->
  (ArtistListing.artist (_artistListings (market w) l) <> caller ->
     cancelArtistListing caller l w = Revert NotSeller) /\
  (market_entered (market w) = false ->
   GiftCardListing.seller (_giftCardListings (market w) l) <> caller ->
     cancelGiftCardListing caller l w = Revert NotSeller) /\
  (reachable w -> _artistListingCounter (market w) <= l ->
     cancelArtistListing caller l w = Revert NotSeller) /\
  (reachable w -> _giftCardListingCounter (market w) <= l ->
     cancelGiftCardListing caller l w = Revert NotSeller).
Proof.
  intros Hc.
  assert (HA : ArtistListing.artist (_artistListings (market w) l) <> caller ->
               cancelArtistListing caller l w = Revert NotSeller).
  { intros Hn. unfold cancelArtistListing, artistListing_at, bind, gets, revert_if, revert.
    apply Z.eqb_neq in Hn. rewrite Hn. reflexivity. }
  assert (HG : market_entered (market w) = false ->
               GiftCardListing.seller (_giftCardListings (market w) l) <> caller ->
               cancelGiftCardListing caller l w = Revert NotSeller).
  { intros Hg Hn.
    unfold cancelGiftCardListing, nonReentrant_market, giftCardListing_at,
      bind, gets, revert_if, revert, modify, ret.
    rewrite Hg. cbn. apply Z.eqb_neq in Hn. rewrite Hn. reflexivity. }
  split; [exact HA|]. split; [exact HG|]. split.
  - intros Hr Hl. apply HA.
    destruct (reachable_sound w Hr) as (_ & (_ & _ & _ & _ & Hal & _) & _).
    rewrite (Hal l Hl). cbn. congruence.
  - intros Hr Hl.
    destruct (reachable_sound w Hr) as ((_ & Hg) & (_ & _ & _ & _ & _ & Hgl) & _).
    apply HG; [exact Hg|]. rewrite (Hgl l Hl). cbn. congruence.
Qed.


Lemma purchaseArtistDesign_checked sender value listingId w :
  market_entered (market w) = false ->
  ArtistListing.active (_artistListings (market w) listingId) = true ->
  ArtistListing.price (_artistListings (market w) listingId) <= value ->
  value <= native w sender ->
  purchaseArtistDesign sender value listingId w =
    if negb (native (move_native sender market_address value w) market_address <? value)
       && receive_ether (ArtistListing.artist (_artistListings (market w) listingId))
            (artist_payout_view sender value listingId w) value
    then Ok (ArtistListing.ipfsHash (_artistListings (market w) listingId))
            (artist_sale_settled sender value listingId w)
    else Revert TransferFailed.
Proof.
  intros Hg Ha Hp Hf.
  unfold purchaseArtistDesign, payable, nonReentrant_market, artistListing_at,
    deactivate_artistListing, call_value, emit, bind, gets, revert_if, revert, modify, ret.
  assert (E1 : (native w sender <? value) = false) by (apply Z.ltb_ge; exact Hf).
  assert (E2 : (value <? ArtistListing.price (_artistListings (market w) listingId))
               = false) by (apply Z.ltb_ge; exact Hp).
  rewrite E1. project. rewrite Hg. project. rewrite Ha. cbn [negb]. rewrite E2. project.
  rewrite upd_same. project.
  match goal with |- context [if ?b then Ok false _ else _] => destruct b eqn:Hb end;
    cbn [negb andb]; [reflexivity|].
  unfold artist_payout_view, artist_sale_settled, artist_payout_view. project.
  rewrite upd_same. project.
  match goal with |- context [receive_ether ?a ?v ?x] => destruct (receive_ether a v x) end;
    cbn [negb]; project; rewrite ?upd_same; reflexivity.
Qed.


Lemma marketplace_can_forward sender value w :
  value <= native w sender ->
  0 <= native w market_address ->
  (native (move_native sender market_address value w) market_address <? value) = false.
Proof.
  intros Hf Hm. apply Z.ltb_ge. unfold move_native. project.
  rewrite upd_same. unfold upd.
  destruct (Z.eqb_spec market_address sender) as [E|E]; [rewrite <- E in *|]; lia.
Qed.

(** C7.  For an active artwork listing and a payment of at least the price
    that the author accepts, [purchaseArtistDesign] has deactivated the
    listing by the time the author is paid, forwards the whole payment to
    the author (the marketplace keeps nothing and refunds nothing), and
    returns the listing's [ipfsHash]. *)
Theorem purchaseArtistDesign_pays_author sender value listingId w :
  market_entered (market w) = false ->
  ArtistListing.active (_artistListings (market w) listingId) = true ->
  ArtistListing.price (_artistListings (market w) listingId) <= value ->
  value <= native w sender ->
  0 <= native w market_address ->
  receive_ether (ArtistListing.artist (_artistListings (market w) listingId))
    (artist_payout_view sender value listingId w) value = true ->
  let listing := _artistListings (market w) listingId in
  let view := artist_payout_view sender value listingId w in
  let w' := artist_sale_settled sender value listingId w in
  ArtistListing.active (_artistListings (market view) listingId) = false /\
  purchaseArtistDesign sender value listingId w = Ok (ArtistListing.ipfsHash listing) w' /\
  _artistListings (market w') listingId = ArtistListing.deactivate listing /\
  native w' =
    native (move_native market_address (ArtistListing.artist listing) value
              (move_native sender market_address value w)) /\
  (sender <> market_address -> ArtistListing.artist listing <> market_address ->
   sender <> ArtistListing.artist listing ->
   native w' (ArtistListing.artist listing) = native w (ArtistListing.artist listing) + value /\
   native w' sender = native w sender - value /\
   native w' market_address = native w market_address).
Proof.
  intros Hg Ha Hp Hf Hm Hr listing view w'.
  split; [|split; [|split; [|split]]].
  - unfold view, artist_payout_view. project. rewrite upd_same. reflexivity.
  - rewrite purchaseArtistDesign_checked by assumption.
    rewrite marketplace_can_forward by assumption. rewrite Hr. reflexivity.
  - unfold w', artist_sale_settled, artist_payout_view. project.
    rewrite upd_same. reflexivity.
  - reflexivity.
  - intros H1 H2 H3.
    unfold w', artist_sale_settled, artist_payout_view. project. fold listing.
    rewrite !upd_same.
    rewrite !(upd_other _ _ _ market_address), !(upd_other _ _ _ sender),
      !(upd_other _ _ _ (ArtistListing.artist listing)), ?upd_same by congruence.
    repeat split; try lia.
Qed.


(** C2, amended.  When [purchaseArtistDesign] is called on an active listing
    with a sufficient payment and the author's account refuses the payment,
    the call fails with [TransferFailed] and, as every failed call does,
    leaves the ledger as it was: the listing is still active. *)
Theorem purchaseArtistDesign_failed_payout_reverts sender value listingId w :
  market_entered (market w) = false ->
  ArtistListing.active (_artistListings (market w) listingId) = true ->
  ArtistListing.price (_artistListings (market w) listingId) <= value ->
  value <= native w sender ->
  receive_ether (ArtistListing.artist (_artistListings (market w) listingId))
    (artist_payout_view sender value listingId w) value = false ->
  purchaseArtistDesign sender value listingId w = Revert TransferFailed /\
  transact (PurchaseArtistDesign sender value listingId) w = (w, Failed TransferFailed) /\
  ArtistListing.active
    (_artistListings (market (after (PurchaseArtistDesign sender value listingId) w))
       listingId) = true.
Proof.
  intros Hg Ha Hp Hf Hr.
  assert (E : purchaseArtistDesign sender value listingId w = Revert TransferFailed).
  { rewrite purchaseArtistDesign_checked by assumption.
    rewrite Hr, andb_false_r. reflexivity. }
  assert (T : transact (PurchaseArtistDesign sender value listingId) w
              = (w, Failed TransferFailed)).
  { unfold transact, run, returning, bind. rewrite E. reflexivity. }
  split; [exact E|]. split; [exact T|].
  unfold after. rewrite T. exact Ha.
Qed.

End Claims.

(* ================================================================== *)
(** * Solvency of the token contract *)

Section Solvency.

Context {deployment : Deployment}.

Lemma owed_below_upd_out n vaults k x t :
  (Z.of_nat n <= k) -> owed_below n (upd vaults k x) t = owed_below n vaults t.
Proof.
  induction n as [|n IH]; intros Hk; cbn [owed_below]; [reflexivity|].
  rewrite IH by lia. rewrite upd_other by lia. reflexivity.
Qed.

Lemma owed_below_upd_in n vaults k x t :
  0 <= k < Z.of_nat n ->
  owed_below n (upd vaults k x) t = owed_below n vaults t - owed (vaults k) t + owed x t.
Proof.
  induction n as [|n IH]; intros Hk; [lia|]. cbn [owed_below].
  destruct (Z.eq_dec k (Z.of_nat n)) as [->|Hne].
  - rewrite owed_below_upd_out by lia. rewrite upd_same. lia.
  - rewrite IH by lia. rewrite upd_other by lia. lia.
Qed.

Lemma owed_below_member n vaults k t :
  (forall id, 0 <= amount (vaults id)) ->
  0 <= k < Z.of_nat n -> owed (vaults k) t <= owed_below n vaults t.
Proof.
  intros Hpos. assert (Hnn : forall id, 0 <= owed (vaults id) t).
  { intros id. unfold owed. destruct (_ && _); [apply Hpos|lia]. }
  assert (H0 : forall m, 0 <= owed_below m vaults t).
  { induction m; cbn [owed_below]; [lia|]. specialize (Hnn (Z.of_nat m)). lia. }
  induction n as [|n IH]; intros Hk; [lia|]. cbn [owed_below].
  destruct (Z.eq_dec k (Z.of_nat n)) as [->|Hne].
  - specialize (H0 n). lia.
  - specialize (IH ltac:(lia)). specialize (Hnn (Z.of_nat n)). lia.
Qed.

Lemma erc20_transferFrom_exact token spender from to value w :
  post (erc20_transferFrom token spender from to value) w (fun _ w' =>
    from <> 0 /\ to <> 0 /\ value <= erc20_balances w token from /\
    (erc20_allowances w token from spender < MAX_UINT256 ->
     value <= erc20_allowances w token from spender) /\
    w' = asset_moved
           (with_erc20_allowances (spent_allowances w token from spender value) w)
           token from to value).
Proof.
  unfold erc20_transferFrom, erc20_spendAllowance, erc20_transfer_internal,
    erc20_update, erc20_balanceOf, spent_allowances.
  wp; tests; project; (repeat split; auto; try lia).
  all: match goal with
       | H : _ < MAX_UINT256 |- _ => apply Z.ltb_lt in H; rewrite H
       | H : MAX_UINT256 <= _ |- _ => apply Z.ltb_ge in H; rewrite H
       end; reflexivity.
Qed.

Lemma erc20_approve_exact token sender spender value w :
  post (erc20_approve token sender spender value) w (fun _ w' =>
    sender <> 0 /\
    w' = with_erc20_allowances (set_allowance w token sender spender value) w).
Proof. unfold erc20_approve, set_allowance. wp. tests. split; auto. Qed.

End Solvency.

(** The summaries of the two asset calls that say what happens to the
    allowances. *)
Ltac wp_call_exact :=
  lazymatch goal with
  | |- post (erc20_transferFrom _ _ _ _ _) _ _ =>
      eapply post_conseq; [apply erc20_transferFrom_exact|];
      intros [] ? (? & ? & ? & ? & ->)
  | |- post (erc20_approve _ _ _ _) _ _ =>
      eapply post_conseq; [apply erc20_approve_exact|];
      intros [] ? (? & ->)
  end.

Ltac walk_exact := repeat (cbv beta; first [wp_rule | wp_call_exact | wp_call]); cbv beta.

Section SolvencyStep.

Context {deployment : Deployment}.

Lemma MAX_UINT256_pos : 0 < MAX_UINT256.
Proof. vm_compute. reflexivity. Qed.

Lemma moved_balance (b : address -> address -> uint256) tok from to v t h :
  upd2 (upd2 b tok from (b tok from - v)) tok to
       (upd2 b tok from (b tok from - v) tok to + v) t h =
  b t h + (if (t =? tok) && (h =? to) then v else 0)
        - (if (t =? tok) && (h =? from) then v else 0).
Proof.
  unfold upd2.
  destruct (Z.eqb_spec t tok), (Z.eqb_spec h to), (Z.eqb_spec h from),
    (Z.eqb_spec tok tok), (Z.eqb_spec to from), (Z.eqb_spec to to);
    subst; cbn [andb]; try lia; congruence.
Qed.

Lemma backed_step tx w :
  valid_tx tx -> typed_tx tx -> tidy w -> backed w -> backed (after tx w).
Proof.
  intros Hv Hty Ht Hb. apply after_keeps; [assumption|].
  pose proof nft_address_nonzero. pose proof MAX_UINT256_pos.
  destruct Ht as ((Hc1 & _) & Hown & Hzero & _).
  destruct Hb as (Hpos & Hall & Hback).
  destruct Hv as (Hs0 & Hs1 & Hs2).
  destruct tx as [sender uri asset tokenAmount | sender tokenId | sender to tokenId
                 | sender operator approved | sender from to tokenId
                 | sender from to tokenId | sender ipfsHash price
                 | sender value listingId | sender listingId | sender tokenId price
                 | sender value listingId | sender listingId | token sender to value
                 | token sender spender value | token sender from to value];
    project; open_contracts; walk_exact; unfold backed, locked in *; project; auto.
  all: tests.
  all: rewrite ?upd_same in *; project.
  all: cbn [typed_tx] in Hty; unfold is_uint256 in Hty.
  all: (split; [|split]).
  all: try assumption.
  all: try (intros; rewrite moved_balance).
  - (* createGiftCard: the new vault *)
    intros id. unfold upd. destruct (id =? _); cbn; [lia|apply Hpos].
  - intros t s. unfold spent_allowances. project.
    destruct (_ <? MAX_UINT256); [|apply Hall].
    destruct (Z.eqb_spec t asset), (Z.eqb_spec nft_address sender);
      cbn [andb]; try apply Hall; congruence.
  - replace (Z.to_nat (_tokenIdCounter (nft w) + 1))
      with (S (Z.to_nat (_tokenIdCounter (nft w)))) by lia.
    cbn [owed_below]. rewrite Z2Nat.id by lia.
    rewrite owed_below_upd_out by lia. rewrite upd_same.
    unfold owed; cbn [tokenAddress amount liquidated negb].
    specialize (Hback t).
    destruct (Z.eqb_spec asset t), (Z.eqb_spec t asset),
      (Z.eqb_spec nft_address nft_address), (Z.eqb_spec nft_address sender);
      cbn [andb]; try lia; congruence.
  - (* liquidate *)
    intros id. unfold upd. destruct (id =? _); cbn; apply Hpos.
  - match goal with O : _owners (nft w) ?id = sender |- _ =>
      assert (Hin : 0 <= id < _tokenIdCounter (nft w)) by (apply Hown; congruence)
    end.
    rewrite owed_below_upd_in by lia.
    unfold owed; cbn [tokenAddress amount liquidated negb].
    match goal with L : liquidated _ = false |- _ => rewrite L end.
    specialize (Hback t). rewrite andb_false_r.
    destruct (Z.eqb_spec (tokenAddress (_vaults (nft w) tokenId)) t),
      (Z.eqb_spec t (tokenAddress (_vaults (nft w) tokenId))),
      (Z.eqb_spec nft_address nft_address), (Z.eqb_spec nft_address sender);
      cbn [andb negb]; try lia; congruence.
  - (* a holder moves an asset *)
    specialize (Hback t).
    destruct (Z.eqb_spec t token), (Z.eqb_spec nft_address to),
      (Z.eqb_spec nft_address sender); cbn [andb]; try lia; congruence.
  - intros t s. unfold set_allowance.
    destruct (Z.eqb_spec t token), (Z.eqb_spec nft_address sender);
      cbn [andb]; try apply Hall; congruence.
  - intros t s. unfold spent_allowances.
    destruct (Z.ltb_spec (erc20_allowances w token from sender) MAX_UINT256);
      [|apply Hall].
    destruct (Z.eqb_spec t token), (Z.eqb_spec nft_address from),
      (Z.eqb_spec s sender); cbn [andb]; try apply Hall; subst.
    rewrite Hall in *. lia.
  - specialize (Hback t).
    destruct (Z.eqb_spec t token), (Z.eqb_spec nft_address to),
      (Z.eqb_spec nft_address from); cbn [andb]; try lia; subst;
      rewrite Hall in *; lia.
Qed.
End SolvencyStep.

(* ================================================================== *)
(** * Calls that are shown to complete *)

Lemma total_ret {A} (a : A) w (Q : A -> World -> Prop) : Q a w -> total (ret a) w Q.
Proof. intros H. exists a, w. split; [reflexivity|exact H]. Qed.

Lemma total_bind {A B} (c : M A) (k : A -> M B) w (Q : B -> World -> Prop) :
  total c w (fun a w1 => total (k a) w1 Q) -> total (bind c k) w Q.
Proof.
  intros (a & w1 & Ec & b & w' & Ek & HQ). exists b, w'.
  split; [|exact HQ]. unfold bind. rewrite Ec. exact Ek.
Qed.

Lemma total_gets {A} (f : World -> A) w (Q : A -> World -> Prop) :
  Q (f w) w -> total (gets f) w Q.
Proof. intros H. exists (f w), w. split; [reflexivity|exact H]. Qed.

Lemma total_modify (f : World -> World) w (Q : unit -> World -> Prop) :
  Q tt (f w) -> total (modify f) w Q.
Proof. intros H. exists tt, (f w). split; [reflexivity|exact H]. Qed.

Lemma total_revert_if b e w (Q : unit -> World -> Prop) :
  b = false -> Q tt w -> total (revert_if b e) w Q.
Proof. intros -> H. exists tt, w. split; [reflexivity|exact H]. Qed.

Lemma total_conseq {A} (c : M A) w (Q' Q : A -> World -> Prop) :
  total c w Q' -> (forall a w', Q' a w' -> Q a w') -> total c w Q.
Proof. intros (a & w' & E & H) HQ. exists a, w'. split; [exact E|exact (HQ a w' H)]. Qed.

Lemma total_post {A} (c : M A) w (Q R : A -> World -> Prop) :
  total c w Q -> post c w R -> total c w (fun a w' => Q a w' /\ R a w').
Proof.
  intros (a & w' & E & H) HR. exists a, w'.
  split; [exact E|]. split; [exact H|exact (HR a w' E)].
Qed.

(** One step of a run that is shown to complete: a [revert_if] leaves its
    test to be refuted. *)
Ltac run_rule :=
  lazymatch goal with
  | |- total (bind _ _) _ _ => apply total_bind
  | |- total (ret _) _ _ => apply total_ret
  | |- total (gets _) _ _ => apply total_gets
  | |- total (modify _) _ _ => apply total_modify
  | |- total (revert_if _ _) _ _ => apply total_revert_if
  end.

Section Completion.

Context {deployment : Deployment}.

Lemma erc20_transfer_total token sender to value w :
  sender <> 0 -> to <> 0 -> value <= erc20_balances w token sender ->
  total (erc20_transfer token sender to value) w (fun _ w' =>
    w' = asset_moved w token sender to value).
Proof.
  intros Hs Ht Hv.
  unfold erc20_transfer, erc20_transfer_internal, erc20_update, erc20_balanceOf.
  repeat (cbv beta; run_rule); cbv beta;
    try (apply Z.eqb_neq; assumption); try (apply Z.ltb_ge; assumption).
  reflexivity.
Qed.

Lemma erc20_transferFrom_total token spender from to value w :
  from <> 0 -> to <> 0 -> value <= erc20_balances w token from ->
  value <= erc20_allowances w token from spender ->
  total (erc20_transferFrom token spender from to value) w (fun _ w' =>
    w' = asset_moved
           (with_erc20_allowances (spent_allowances w token from spender value) w)
           token from to value).
Proof.
  intros Hf Ht Hv Ha.
  unfold erc20_transferFrom, erc20_spendAllowance, erc20_transfer_internal,
    erc20_update, erc20_balanceOf, spent_allowances.
  apply total_bind, total_bind, total_gets. cbv beta.
  destruct (erc20_allowances w token from spender <? MAX_UINT256).
  - repeat (cbv beta; run_rule); cbv beta;
      try (apply Z.eqb_neq; assumption); try (apply Z.ltb_ge; assumption).
    reflexivity.
  - repeat (cbv beta; run_rule); cbv beta;
      try (apply Z.eqb_neq; assumption); try (apply Z.ltb_ge; assumption).
    reflexivity.
Qed.

Lemma _update_total to tokenId auth w :
  (auth <> 0 -> authorized w auth tokenId) ->
  total (_update to tokenId auth) w (fun from w' =>
    from = _owners (nft w) tokenId /\ exists counts, w' = moved w tokenId to counts).
Proof.
  intros Hauth.
  destruct (_update to tokenId auth w) as [from w'|e] eqn:E.
  - exists from, w'. split; [exact E|].
    pose proof (_update_post _ _ _ _ _ _ E) as (Hf & _ & Hw). auto.
  - exfalso. revert E.
    unfold _update, _checkAuthorized, _isAuthorized, isApprovedForAll, _ownerOf,
      bind, gets, ret, modify, revert.
    destruct (Z.eqb_spec auth 0) as [Ha|Ha].
    + destruct (_owners (nft w) tokenId =? 0), (to =? 0); discriminate.
    + destruct (Hauth Ha) as (_ & Hor).
      assert (Hb : ((_owners (nft w) tokenId =? auth)
                    || _operatorApprovals (nft w) (_owners (nft w) tokenId) auth
                    || (_tokenApprovals (nft w) tokenId =? auth)) = true).
      { rewrite !orb_true_iff, !Z.eqb_eq. tauto. }
      rewrite Hb. cbn [negb andb].
      destruct (_owners (nft w) tokenId =? 0), (to =? 0); discriminate.
Qed.

Lemma erc721_transferFrom_total sender from to tokenId w :
  to <> 0 -> _owners (nft w) tokenId = from -> authorized w sender tokenId ->
  total (erc721_transferFrom sender from to tokenId) w (fun _ w' =>
    exists counts, w' = moved w tokenId to counts).
Proof.
  intros Ht Ho Ha. unfold erc721_transferFrom.
  apply total_bind, total_revert_if; [apply Z.eqb_neq; exact Ht|].
  apply total_bind. eapply total_conseq; [apply _update_total; auto|].
  intros prev w' (-> & Hw). cbv beta.
  apply total_revert_if; [rewrite Ho, Z.eqb_refl; reflexivity|exact Hw].
Qed.

Lemma _safeMint_total operator to tokenId w :
  to <> 0 -> _owners (nft w) tokenId = 0 ->
  (forall seen, onERC721Received to seen operator 0 tokenId = true) ->
  total (_safeMint operator to tokenId) w (fun _ w' =>
    exists counts, w' = moved w tokenId to counts).
Proof.
  intros Ht Ho Hr. unfold _safeMint, _mint, checkOnERC721Received.
  apply total_bind, total_bind, total_revert_if; [apply Z.eqb_neq; exact Ht|].
  apply total_bind. eapply total_conseq; [apply _update_total; congruence|].
  intros prev w' (-> & Hw). cbv beta.
  apply total_revert_if; [rewrite Ho; reflexivity|].
  apply total_bind, total_gets. cbv beta.
  apply total_revert_if; [rewrite Hr; reflexivity|exact Hw].
Qed.

Lemma payable_total sender value w :
  value <= native w sender ->
  total (payable sender value) w (fun _ w' =>
    w' = move_native sender market_address value w).
Proof.
  intros Hv. unfold payable.
  repeat (cbv beta; run_rule); cbv beta; [apply Z.ltb_ge; exact Hv|reflexivity].
Qed.

Lemma call_value_total to value w :
  value <= native w market_address ->
  (forall seen, receive_ether to seen value = true) ->
  total (call_value to value) w (fun success w' =>
    success = true /\ w' = move_native market_address to value w).
Proof.
  intros Hv Hr. unfold call_value, total.
  apply Z.ltb_ge in Hv. rewrite Hv, Hr. eauto.
Qed.

End Completion.

(** A call inside a run that is shown to complete: its summary leaves the
    conditions under which it completes to be shown. *)
Ltac run_call :=
  lazymatch goal with
  | |- total (erc20_transfer _ _ _ _) _ _ =>
      eapply total_conseq; [apply erc20_transfer_total|intros [] ? ->]
  | |- total (erc20_transferFrom _ _ _ _ _) _ _ =>
      eapply total_conseq; [apply erc20_transferFrom_total|intros [] ? ->]
  | |- total (erc721_transferFrom _ _ _ _) _ _ =>
      eapply total_conseq; [apply erc721_transferFrom_total|intros [] ? (? & ->)]
  | |- total (_safeMint _ _ _) _ _ =>
      eapply total_conseq; [apply _safeMint_total|intros [] ? (? & ->)]
  | |- total (payable _ _) _ _ =>
      eapply total_conseq; [apply payable_total|intros [] ? ->]
  | |- total (call_value _ _) _ _ =>
      eapply total_conseq; [apply call_value_total|intros ? ? (-> & ->)]
  end.

Ltac run := repeat (cbv beta; first [run_rule | run_call]); cbv beta; project.

(* ================================================================== *)
(** * Further properties of the two contracts *)

Section Further.

Context {deployment : Deployment}.

Lemma reachable_typed_reachable w : reachable_typed w -> reachable w.
Proof.
  induction 1; [apply reachable_deployed|apply reachable_after; assumption].
Qed.

Lemma reachable_typed_backed w : reachable_typed w -> backed w.
Proof.
  induction 1 as [b a f Hb Ha|w tx Hr IH Hv Hty].
  - unfold backed, locked. cbn. repeat split; auto. lia.
  - apply backed_step; auto.
    apply reachable_typed_reachable in Hr.
    destruct (reachable_sound w Hr) as (_ & Ht & _). exact Ht.
Qed.

Lemma owed_below_nonneg n vaults t :
  (forall id, 0 <= amount (vaults id)) -> 0 <= owed_below n vaults t.
Proof.
  intros Hpos. induction n as [|n IH]; cbn [owed_below]; [lia|].
  assert (0 <= owed (vaults (Z.of_nat n)) t); [|lia].
  unfold owed. destruct (_ && _); [apply Hpos|lia].
Qed.

(** X1, solvency: on every ledger reached by calls that carry words, the
    token contract's balance of each asset covers the deposits of all cards
    in that asset that have not been redeemed, and the token contract has
    let nobody draw on that balance. *)
Theorem vaults_are_backed w t :
  reachable_typed w ->
  0 <= locked w t <= erc20_balances w t nft_address /\
  (forall spender, erc20_allowances w t nft_address spender = 0).
Proof.
  intros Hr. destruct (reachable_typed_backed w Hr) as (Hpos & Hall & Hback).
  split; [split|].
  - apply owed_below_nonneg. exact Hpos.
  - apply Hback.
  - intros spender. apply Hall.
Qed.

Lemma liquidate_total caller tokenId w :
  nft_entered (nft w) = false ->
  _owners (nft w) tokenId = caller -> caller <> 0 ->
  liquidated (_vaults (nft w) tokenId) = false ->
  amount (_vaults (nft w) tokenId)
    <= erc20_balances w (tokenAddress (_vaults (nft w) tokenId)) nft_address ->
  total (liquidate caller tokenId) w (fun _ _ => True).
Proof.
  intros Hg Ho Hc Hl Ha. pose proof nft_address_nonzero.
  open_contracts. run; rewrite ?upd_same; project; auto.
  - rewrite Ho. apply Z.eqb_neq. exact Hc.
  - rewrite Ho, Z.eqb_refl. reflexivity.
Qed.

(** X2: on such a ledger [liquidate] called by the owner of a card that has
    not been redeemed completes; it marks the vault and moves the deposit
    from the token contract to the owner. *)
Theorem owner_can_always_redeem caller tokenId w :
  reachable_typed w ->
  _owners (nft w) tokenId = caller -> caller <> 0 ->
  liquidated (_vaults (nft w) tokenId) = false ->
  exists w',
    liquidate caller tokenId w = Ok tt w' /\
    liquidated (_vaults (nft w') tokenId) = true /\
    erc20_balances w' =
      erc20_balances
        (asset_moved w (tokenAddress (_vaults (nft w) tokenId)) nft_address caller
           (amount (_vaults (nft w) tokenId))).
Proof.
  intros Hr Ho Hc Hl.
  destruct (reachable_typed_backed w Hr) as (Hpos & _ & Hback).
  destruct (reachable_sound w (reachable_typed_reachable w Hr))
    as ((Hg & _) & (_ & Hown & _) & _).
  assert (Hin : 0 <= tokenId < _tokenIdCounter (nft w)) by (apply Hown; congruence).
  assert (Ha : amount (_vaults (nft w) tokenId)
               <= erc20_balances w (tokenAddress (_vaults (nft w) tokenId)) nft_address).
  { etransitivity; [|apply Hback]. unfold locked.
    pose proof (owed_below_member (Z.to_nat (_tokenIdCounter (nft w))) (_vaults (nft w))
                  tokenId (tokenAddress (_vaults (nft w) tokenId)) Hpos) as Hm.
    unfold owed in Hm at 1. rewrite Z.eqb_refl, Hl in Hm. apply Hm. lia. }
  destruct (liquidate_total caller tokenId w Hg Ho Hc Hl Ha) as ([] & w' & E & _).
  exists w'. split; [exact E|].
  pose proof (liquidate_post _ _ _ _ _ E) as (_ & _ & _ & Hv & _ & _ & Hpay & _).
  split; [rewrite Hv, upd_same; reflexivity|exact Hpay].
Qed.


(** X3: [createGiftCard] called with an asset, a non-zero amount the caller
    holds and has let the token contract move, by a caller that accepts the
    token, completes and returns the old counter as the new id; after it the
    vault read, the metadata read and [ownerOf] at that id return the asset
    and amount, the reference and the caller, [totalSupply] is one more, and
    the amount has moved from the caller to the token contract. *)
Theorem createGiftCard_stores_what_it_is_given sender metadataURI token tokenAmount w :
  reachable w ->
  sender <> 0 -> token <> 0 -> tokenAmount <> 0 ->
  tokenAmount <= erc20_balances w token sender ->
  tokenAmount <= erc20_allowances w token sender nft_address ->
  _tokenIdCounter (nft w) < MAX_UINT256 ->
  (forall seen id, onERC721Received sender seen sender 0 id = true) ->
  exists w',
    createGiftCard sender metadataURI token tokenAmount w
      = Ok (_tokenIdCounter (nft w)) w' /\
    getVaultContents (_tokenIdCounter (nft w)) w'
      = Ok (mkTokenVault token tokenAmount false) w' /\
    getMetadataURI (_tokenIdCounter (nft w)) w' = Ok metadataURI w' /\
    ownerOf (_tokenIdCounter (nft w)) w' = Ok sender w' /\
    totalSupply w' = Ok (_tokenIdCounter (nft w) + 1) w' /\
    erc20_balances w' =
      erc20_balances (asset_moved w token sender nft_address tokenAmount).
Proof.
  intros Hr Hs Ht Ha Hb Hal Hc Hacc.
  destruct (reachable_sound w Hr) as ((Hg & _) & (_ & Hown & _) & _).
  pose proof nft_address_nonzero.
  assert (Hfresh : _owners (nft w) (_tokenIdCounter (nft w)) = 0).
  { destruct (Z.eq_dec (_owners (nft w) (_tokenIdCounter (nft w))) 0) as [E|E]; [exact E|].
    apply Hown in E. lia. }
  assert (T : total (createGiftCard sender metadataURI token tokenAmount) w
                (fun _ _ => True)).
  { open_contracts. run; auto.
    all: try (apply Z.eqb_neq; assumption); try (apply Z.ltb_ge; assumption).
    apply Z.leb_gt. assumption. }
  destruct T as (id & w' & E & _).
  pose proof (createGiftCard_post _ _ _ _ _ _ _ E)
    as (-> & Hc' & Ho & _ & Hv & Hu & _ & Hbal & _).
  exists w'. split; [exact E|].
  unfold getVaultContents, vault_at, getMetadataURI, tokenURI, ownerOf, _requireOwned,
    _ownerOf, totalSupply, bind, gets, revert_if, ret.
  rewrite Hv, Ho, Hc'. apply Z.eqb_neq in Hs. rewrite Hs. cbv beta iota.
  rewrite Hu. auto.
Qed.

(** X4, the failures of [createGiftCard] outside a re-entrant call: the null
    asset fails with [InvalidTokenAddress]; a zero amount with
    [InsufficientBalance]; an amount the caller holds but has not let the
    token contract move with the asset's [ERC20InsufficientAllowance]. *)
Theorem createGiftCard_rejections sender metadataURI token tokenAmount w :
  nft_entered (nft w) = false ->
  (token = 0 ->
     createGiftCard sender metadataURI token tokenAmount w = Revert InvalidTokenAddress) /\
  (token <> 0 -> tokenAmount = 0 ->
     createGiftCard sender metadataURI token tokenAmount w = Revert InsufficientBalance) /\
  (token <> 0 -> tokenAmount <> 0 ->
   tokenAmount <= erc20_balances w token sender ->
   erc20_allowances w token sender nft_address < tokenAmount ->
   tokenAmount <= MAX_UINT256 ->
     createGiftCard sender metadataURI token tokenAmount w
       = Revert ERC20InsufficientAllowance).
Proof.
  intros Hg.
  unfold createGiftCard, createGiftCard_via, standard_asset, asset_balanceOf,
    asset_safeTransferFrom, nonReentrant_nft, erc20_balanceOf, safeTransferFrom,
    erc20_transferFrom, erc20_spendAllowance, bind, gets, revert_if, modify, revert, ret.
  rewrite Hg. cbn [nft erc20_balances erc20_allowances with_nft].
  split; [|split].
  - intros ->. reflexivity.
  - intros Ht ->. apply Z.eqb_neq in Ht. rewrite Ht. reflexivity.
  - intros Ht Ha Hb Hal Hm.
    apply Z.eqb_neq in Ht, Ha. rewrite Ht, Ha. project.
    apply Z.ltb_ge in Hb. rewrite Hb. project.
    assert (E1 : (erc20_allowances w token sender nft_address <? MAX_UINT256) = true)
      by (apply Z.ltb_lt; lia).
    rewrite E1. apply Z.ltb_lt in Hal. rewrite Hal. reflexivity.
Qed.

(** X5, the checks of [listGiftCard] in their order: an id without a token
    fails inside [ownerOf]; a caller who is not the owner fails with
    [NotSeller]; then a zero price with [InvalidListing]; then a token the
    marketplace is not approved for with [NotApproved]. *)
Theorem listGiftCard_checks_in_order sender tokenId price w :
  (_owners (nft w) tokenId = 0 ->
     listGiftCard sender tokenId price w = Revert (ERC721NonexistentToken tokenId)) /\
  (_owners (nft w) tokenId <> 0 -> _owners (nft w) tokenId <> sender ->
     listGiftCard sender tokenId price w = Revert NotSeller) /\
  (_owners (nft w) tokenId = sender -> sender <> 0 -> price = 0 ->
     listGiftCard sender tokenId price w = Revert InvalidListing) /\
  (_owners (nft w) tokenId = sender -> sender <> 0 -> price <> 0 ->
   _tokenApprovals (nft w) tokenId <> market_address ->
     listGiftCard sender tokenId price w = Revert NotApproved).
Proof.
  unfold listGiftCard, ownerOf, getApproved, _requireOwned, _ownerOf, bind, gets,
    revert_if, revert, ret.
  split; [|split; [|split]].
  - intros ->. reflexivity.
  - intros Ho Hs. apply Z.eqb_neq in Ho, Hs. rewrite Ho, Hs. reflexivity.
  - intros Ho Hs ->. rewrite Ho. apply Z.eqb_neq in Hs. rewrite Hs. project.
    rewrite Z.eqb_refl. reflexivity.
  - intros Ho Hs Hp Ha. rewrite Ho.
    apply Z.eqb_neq in Hs, Hp, Ha. rewrite Hs. project. rewrite Z.eqb_refl, Hp.
    cbn [negb]. project. rewrite Ho, Hs. project. rewrite Ha. reflexivity.
Qed.

Lemma listGiftCard_post sender tokenId price w :
  post (listGiftCard sender tokenId price) w (fun l w' =>
    l = _giftCardListingCounter (market w) /\
    _giftCardListings (market w') l = GiftCardListing.mk l tokenId sender price true /\
    _owners (nft w') tokenId = market_address /\
    _tokenApprovals (nft w') tokenId = 0 /\
    _vaults (nft w') = _vaults (nft w) /\
    native w' = native w).
Proof.
  open_contracts; walk; project; tests. rewrite !upd_same.
  match goal with H : _owners _ _ <> 0 |- _ => apply Z.eqb_neq in H; rewrite H end.
  rewrite upd_same. repeat split; reflexivity.
Qed.

(** X6: [listGiftCard] by the owner, at a non-zero price, of a token the
    marketplace is approved for completes and returns the old counter; the
    listing read at that id returns the token, the caller and the price,
    active; the marketplace owns the token and nobody is approved for it;
    no vault changes. *)
Theorem listGiftCard_takes_custody sender tokenId price w :
  _owners (nft w) tokenId = sender -> sender <> 0 -> price <> 0 ->
  _tokenApprovals (nft w) tokenId = market_address ->
  _giftCardListingCounter (market w) < MAX_UINT256 ->
  exists w',
    listGiftCard sender tokenId price w = Ok (_giftCardListingCounter (market w)) w' /\
    getGiftCardListing (_giftCardListingCounter (market w)) w'
      = Ok (GiftCardListing.mk (_giftCardListingCounter (market w)) tokenId sender
              price true) w' /\
    ownerOf tokenId w' = Ok market_address w' /\
    getApproved tokenId w' = Ok 0 w' /\
    _vaults (nft w') = _vaults (nft w).
Proof.
  intros Ho Hs Hp Ha Hc. pose proof market_address_nonzero as Hm.
  assert (T : total (listGiftCard sender tokenId price) w (fun _ _ => True)).
  { open_contracts. run; auto.
    - rewrite Ho. apply Z.eqb_neq. exact Hs.
    - rewrite Ho, Z.eqb_refl. reflexivity.
    - apply Z.eqb_neq. exact Hp.
    - rewrite Ho. apply Z.eqb_neq. exact Hs.
    - rewrite Ha, Z.eqb_refl. reflexivity.
    - split; [exact Hm|]. right; right. exact Ha.
    - apply Z.leb_gt. exact Hc. }
  destruct T as (l & w' & E & _).
  pose proof (listGiftCard_post _ _ _ _ _ _ E) as (-> & Hl & Ho' & Ha' & Hv & _).
  exists w'. split; [exact E|].
  unfold getGiftCardListing, giftCardListing_at, ownerOf, getApproved, _requireOwned,
    _ownerOf, bind, gets, revert_if, ret.
  rewrite Hl, Ho'. apply Z.eqb_neq in Hm. rewrite Hm. cbv beta iota.
  rewrite Ha'. auto.
Qed.


Lemma parties_valid_step tx w :
  valid_tx tx -> parties_valid w -> parties_valid (after tx w).
Proof.
  intros Hv Hp. apply after_keeps; [assumption|].
  destruct Hp as (Ha & Hg).
  destruct tx; project; open_contracts; walk; unfold parties_valid; project; auto.
  all: tests; try discriminate.
  all: split; intros l'; upd_cases; project; auto; try discriminate.
Qed.

Lemma reachable_parties w : reachable w -> parties_valid w.
Proof.
  induction 1 as [b a f|w tx Hr IH Hv].
  - split; intros l; cbn; discriminate.
  - apply parties_valid_step; assumption.
Qed.

Lemma cancelGiftCardListing_frame caller l w :
  post (cancelGiftCardListing caller l) w (fun _ w' =>
    native w' = native w /\ _vaults (nft w') = _vaults (nft w) /\
    erc20_balances w' = erc20_balances w).
Proof. open_contracts; walk; project; auto. Qed.

(** X7: on a reachable ledger the seller of an active resale listing can
    always cancel it: the call completes, the token is the seller's again,
    the listing is inactive, and no currency, asset balance or vault
    changes. *)
Theorem seller_can_always_cancel l w :
  reachable w ->
  GiftCardListing.active (_giftCardListings (market w) l) = true ->
  let listing := _giftCardListings (market w) l in
  exists w',
    cancelGiftCardListing (GiftCardListing.seller listing) l w = Ok tt w' /\
    ownerOf (GiftCardListing.tokenId listing) w' = Ok (GiftCardListing.seller listing) w' /\
    GiftCardListing.active (_giftCardListings (market w') l) = false /\
    native w' = native w /\
    erc20_balances w' = erc20_balances w /\
    _vaults (nft w') = _vaults (nft w).
Proof.
  intros Hr Ha listing.
  destruct (reachable_sound w Hr) as ((_ & Hg) & _ & (Hheld & _)).
  destruct (reachable_parties w Hr) as (_ & Hsel).
  destruct (Hsel l Ha) as (Hs0 & _). fold listing in Hs0.
  pose proof market_address_nonzero as Hm.
  assert (T : total (cancelGiftCardListing (GiftCardListing.seller listing) l) w
                (fun _ _ => True)).
  { open_contracts. run; rewrite ?upd_same; unfold authorized; project; auto.
    all: try (rewrite Z.eqb_refl; reflexivity).
    all: try (rewrite Ha; reflexivity).
    all: try (apply Hheld; exact Ha).
    all: split; [exact Hm|]; left; apply Hheld; exact Ha. }
  destruct T as ([] & w' & E & _).
  pose proof (cancelGiftCardListing_post _ _ _ _ _ E) as (_ & _ & Ha' & _ & Ho').
  pose proof (cancelGiftCardListing_frame _ _ _ _ _ E) as (Hn & Hv & Hb).
  exists w'. split; [exact E|].
  unfold ownerOf, _requireOwned, _ownerOf, bind, gets, revert_if, ret.
  fold listing in Ho'. rewrite Ho'. apply Z.eqb_neq in Hs0. rewrite Hs0. auto.
Qed.

Lemma purchaseGiftCard_frame buyer value l w :
  post (purchaseGiftCard buyer value l) w (fun _ w' =>
    _vaults (nft w') = _vaults (nft w) /\
    erc20_balances w' = erc20_balances w /\
    native w' =
      native (move_native market_address
                (GiftCardListing.seller (_giftCardListings (market w) l)) value
                (move_native buyer market_address value w))).
Proof.
  open_contracts; walk; project; tests; try discriminate.
  rewrite !upd_same. project. auto.
Qed.

(** X8: on a reachable ledger [purchaseGiftCard] of an active listing, with
    a payment of at least the price that the buyer holds and the seller's
    account accepts, completes: the buyer owns the token, the listing is
    inactive, no vault changes, and the whole payment has gone from the
    buyer through the marketplace to the seller. *)
Theorem purchaseGiftCard_settles buyer value l w :
  reachable w ->
  buyer <> 0 ->
  GiftCardListing.active (_giftCardListings (market w) l) = true ->
  GiftCardListing.price (_giftCardListings (market w) l) <= value ->
  value <= native w buyer ->
  0 <= native w market_address ->
  (forall seen,
     receive_ether (GiftCardListing.seller (_giftCardListings (market w) l)) seen value
       = true) ->
  let listing := _giftCardListings (market w) l in
  exists w',
    purchaseGiftCard buyer value l w = Ok tt w' /\
    ownerOf (GiftCardListing.tokenId listing) w' = Ok buyer w' /\
    GiftCardListing.active (_giftCardListings (market w') l) = false /\
    _vaults (nft w') = _vaults (nft w) /\
    native w' =
      native (move_native market_address (GiftCardListing.seller listing) value
                (move_native buyer market_address value w)).
Proof.
  intros Hr Hb Ha Hp Hf Hm0 Hacc listing.
  destruct (reachable_sound w Hr) as ((_ & Hg) & _ & (Hheld & _)).
  pose proof market_address_nonzero as Hm.
  assert (T : total (purchaseGiftCard buyer value l) w (fun _ _ => True)).
  { open_contracts. run; rewrite ?upd_same; unfold authorized; project; auto.
    all: try (rewrite Ha; reflexivity).
    all: try (apply Z.ltb_ge; exact Hp).
    all: try (apply Hheld; exact Ha).
    all: try (split; [exact Hm|]; left; apply Hheld; exact Ha).
    all: unfold upd; destruct (Z.eqb_spec market_address buyer) as [E|E];
      [rewrite <- E in *|]; lia. }
  destruct T as ([] & w' & E & _).
  pose proof (purchaseGiftCard_post _ _ _ _ _ _ E) as (_ & Ha' & _ & Ho').
  pose proof (purchaseGiftCard_frame _ _ _ _ _ _ E) as (Hv & _ & Hn).
  exists w'. split; [exact E|].
  unfold ownerOf, _requireOwned, _ownerOf, bind, gets, revert_if, ret.
  fold listing in Ho'. rewrite Ho'. apply Z.eqb_neq in Hb. rewrite Hb. auto.
Qed.


Lemma vault_amount_available tokenId w :
  reachable_typed w ->
  _owners (nft w) tokenId <> 0 ->
  liquidated (_vaults (nft w) tokenId) = false ->
  amount (_vaults (nft w) tokenId)
    <= erc20_balances w (tokenAddress (_vaults (nft w) tokenId)) nft_address.
Proof.
  intros Hr Ho Hl.
  destruct (reachable_typed_backed w Hr) as (Hpos & _ & Hback).
  destruct (reachable_sound w (reachable_typed_reachable w Hr))
    as (_ & (_ & Hown & _) & _).
  apply Hown in Ho.
  etransitivity; [|apply Hback]. unfold locked.
  pose proof (owed_below_member (Z.to_nat (_tokenIdCounter (nft w))) (_vaults (nft w))
                tokenId (tokenAddress (_vaults (nft w) tokenId)) Hpos) as Hm.
  unfold owed in Hm at 1. rewrite Z.eqb_refl, Hl in Hm. apply Hm. lia.
Qed.

(** X9: a buyer whose [purchaseGiftCard] completed for a card that had not
    been redeemed can redeem it right away: [liquidate] by the buyer
    completes and pays the card's deposit to the buyer. *)
Theorem purchased_card_redeems_for_buyer buyer value l w w' :
  reachable_typed w ->
  valid_sender buyer -> is_uint256 value -> is_uint256 l ->
  purchaseGiftCard buyer value l w = Ok tt w' ->
  let tokenId := GiftCardListing.tokenId (_giftCardListings (market w) l) in
  liquidated (_vaults (nft w) tokenId) = false ->
  exists w'',
    liquidate buyer tokenId w' = Ok tt w'' /\
    erc20_balances w'' =
      erc20_balances
        (asset_moved w' (tokenAddress (_vaults (nft w) tokenId)) nft_address buyer
           (amount (_vaults (nft w) tokenId))).
Proof.
  intros Hr Hb Hv Hl E tokenId Hliq.
  assert (Hafter : after (PurchaseGiftCard buyer value l) w = w').
  { unfold after, transact, run, returning, bind. rewrite E. reflexivity. }
  assert (Hr' : reachable_typed w').
  { rewrite <- Hafter. apply reachable_typed_after; [exact Hr|exact Hb|].
    cbn. split; assumption. }
  pose proof (purchaseGiftCard_post _ _ _ _ _ _ E) as (_ & _ & _ & Ho').
  pose proof (purchaseGiftCard_frame _ _ _ _ _ _ E) as (Hvault & _ & _).
  fold tokenId in Ho'. destruct Hb as (Hb0 & _).
  assert (Hliq' : liquidated (_vaults (nft w') tokenId) = false)
    by (rewrite Hvault; exact Hliq).
  assert (Ha : amount (_vaults (nft w') tokenId)
               <= erc20_balances w' (tokenAddress (_vaults (nft w') tokenId)) nft_address).
  { apply vault_amount_available; [exact Hr'|congruence|exact Hliq']. }
  destruct (reachable_sound w' (reachable_typed_reachable w' Hr')) as ((Hg & _) & _).
  destruct (liquidate_total buyer tokenId w' Hg Ho' Hb0 Hliq' Ha) as ([] & w'' & E' & _).
  exists w''. split; [exact E'|].
  pose proof (liquidate_post _ _ _ _ _ E') as (_ & _ & _ & _ & _ & _ & Hpay & _).
  rewrite Hvault in Hpay. exact Hpay.
Qed.

(** X10: the marketplace keeps nothing of what passes through it: no call
    from an account changes the marketplace's own balance of native
    currency. *)
Theorem marketplace_keeps_no_payment tx w :
  reachable w -> valid_tx tx ->
  native (after tx w) market_address = native w market_address.
Proof.
  intros Hr Hv.
  apply (after_keeps (fun w' => native w' market_address = native w market_address));
    [reflexivity|].
  destruct (reachable_parties w Hr) as (Hart & Hsel).
  destruct Hv as (_ & _ & Hs).
  destruct tx; project; open_contracts; walk; project; auto.
  all: tests; try discriminate.
  all: rewrite ?upd_same in *; project.
  - destruct (Hart listingId ltac:(assumption)) as (_ & _ & Hn).
    rewrite upd_other by congruence. rewrite upd_same.
    rewrite upd_other by congruence. lia.
  - destruct (Hsel listingId ltac:(assumption)) as (_ & _ & Hn).
    rewrite upd_other by congruence. rewrite upd_same.
    rewrite upd_other by congruence. lia.
Qed.


Lemma market_guard_all txs w :
  market_entered (market w) = false ->
  market_entered (market (after_all txs w)) = false.
Proof.
  apply (after_all_keeps (fun w => market_entered (market w) = false)).
  intros; apply market_guard_step; assumption.
Qed.

Lemma purchaseArtistDesign_inactive buyer value l w :
  market_entered (market w) = false ->
  value <= native w buyer ->
  ArtistListing.active (_artistListings (market w) l) = false ->
  purchaseArtistDesign buyer value l w = Revert InvalidListing.
Proof.
  intros Hg Hf Ha.
  unfold purchaseArtistDesign, payable, nonReentrant_market, artistListing_at,
    bind, gets, revert_if, revert, modify, ret.
  apply Z.ltb_ge in Hf. rewrite Hf. project. rewrite Hg. project. rewrite Ha.
  reflexivity.
Qed.

Lemma purchaseArtistDesign_post buyer value l w :
  post (purchaseArtistDesign buyer value l) w (fun _ w' =>
    ArtistListing.active (_artistListings (market w) l) = true /\
    ArtistListing.active (_artistListings (market w') l) = false /\
    _artistListingCounter (market w') = _artistListingCounter (market w) /\
    market_entered (market w') = false).
Proof.
  open_contracts; walk; project; tests; try discriminate.
  rewrite upd_same. auto.
Qed.

Lemma cancelArtistListing_post caller l w :
  post (cancelArtistListing caller l) w (fun _ w' =>
    ArtistListing.active (_artistListings (market w) l) = true /\
    ArtistListing.artist (_artistListings (market w) l) = caller /\
    ArtistListing.active (_artistListings (market w') l) = false /\
    _artistListingCounter (market w') = _artistListingCounter (market w) /\
    market_entered (market w') = market_entered (market w) /\
    native w' = native w /\ nft w' = nft w /\ erc20_balances w' = erc20_balances w).
Proof.
  open_contracts; walk; project; tests. rewrite upd_same.
  repeat split; auto.
Qed.

(** X11: once an artwork listing has been bought or cancelled, whatever
    calls follow, buying it fails with [InvalidListing] for any buyer who
    holds the payment, and cancelling it fails again. *)
Theorem artwork_sells_at_most_once l w w1 :
  reachable w ->
  (exists buyer value hash, purchaseArtistDesign buyer value l w = Ok hash w1) \/
  (exists caller, cancelArtistListing caller l w = Ok tt w1) ->
  forall txs buyer value caller,
    let w2 := after_all txs w1 in
    value <= native w2 buyer ->
    purchaseArtistDesign buyer value l w2 = Revert InvalidListing /\
    (cancelArtistListing caller l w2 = Revert InvalidListing \/
     cancelArtistListing caller l w2 = Revert NotSeller).
Proof.
  intros Hr Hdone txs buyer value caller w2 Hf.
  destruct (reachable_sound w Hr) as ((_ & Hg) & (_ & _ & _ & _ & Hal & _) & _).
  assert (Hret : artist_retired l w1 /\ market_entered (market w1) = false).
  { destruct Hdone as [(b & v & h & E)|(c & E)].
    - pose proof (purchaseArtistDesign_post _ _ _ _ _ _ E) as (Ha & Ha' & Hc & Hg').
      split; [|exact Hg']. split; [|exact Ha']. rewrite Hc.
      destruct (Z.lt_ge_cases l (_artistListingCounter (market w))) as [?|Hge]; [assumption|].
      rewrite (Hal l Hge) in Ha. discriminate Ha.
    - pose proof (cancelArtistListing_post _ _ _ _ _ E) as (Ha & _ & Ha' & Hc & Hg' & _).
      split; [|congruence]. split; [|exact Ha']. rewrite Hc.
      destruct (Z.lt_ge_cases l (_artistListingCounter (market w))) as [?|Hge]; [assumption|].
      rewrite (Hal l Hge) in Ha. discriminate Ha. }
  destruct Hret as (Hret & Hg1).
  assert (Hret2 : artist_retired l w2).
  { apply (after_all_keeps (artist_retired l)); [|exact Hret].
    intros; apply artist_retired_step; assumption. }
  destruct Hret2 as (_ & Hin).
  split.
  - apply purchaseArtistDesign_inactive; auto. apply market_guard_all. exact Hg1.
  - unfold cancelArtistListing, artistListing_at, bind, gets, revert_if, revert.
    destruct (ArtistListing.artist (_artistListings (market w2) l) =? caller);
      cbn [negb]; [left; rewrite Hin; reflexivity|right; reflexivity].
Qed.

Lemma artist_terms_step l a tx w : artist_terms l a w -> artist_terms l a (after tx w).
Proof.
  intros (Hl & H1 & H2 & H3 & H4). apply after_keeps; [repeat split; assumption|].
  destruct tx; open_contracts; walk; unfold artist_terms; project; auto.
  all: tests; try discriminate.
  all: (split; [lia|]); upd_cases; project; auto; lia.
Qed.

Lemma giftCard_terms_step l g tx w : giftCard_terms l g w -> giftCard_terms l g (after tx w).
Proof.
  intros (Hl & H1 & H2 & H3 & H4). apply after_keeps; [repeat split; assumption|].
  destruct tx; open_contracts; walk; unfold giftCard_terms; project; auto.
  all: tests; try discriminate.
  all: (split; [lia|]); upd_cases; project; auto; lia.
Qed.

(** X12: the terms of a created listing never change: whatever calls
    follow, an artwork listing keeps its id, author, reference and price,
    and a resale listing its id, token, seller and price. *)
Theorem listing_terms_never_change txs w l :
  (l < _artistListingCounter (market w) ->
   let before := _artistListings (market w) l in
   let now := _artistListings (market (after_all txs w)) l in
   ArtistListing.listingId now = ArtistListing.listingId before /\
   ArtistListing.artist now = ArtistListing.artist before /\
   ArtistListing.ipfsHash now = ArtistListing.ipfsHash before /\
   ArtistListing.price now = ArtistListing.price before) /\
  (l < _giftCardListingCounter (market w) ->
   let before := _giftCardListings (market w) l in
   let now := _giftCardListings (market (after_all txs w)) l in
   GiftCardListing.listingId now = GiftCardListing.listingId before /\
   GiftCardListing.tokenId now = GiftCardListing.tokenId before /\
   GiftCardListing.seller now = GiftCardListing.seller before /\
   GiftCardListing.price now = GiftCardListing.price before).
Proof.
  split; intros Hl before now.
  - assert (H : artist_terms l before (after_all txs w)).
    { apply (after_all_keeps (artist_terms l before)).
      - intros; apply artist_terms_step; assumption.
      - unfold artist_terms, before. auto. }
    destruct H as (_ & H). exact H.
  - assert (H : giftCard_terms l before (after_all txs w)).
    { apply (after_all_keeps (giftCard_terms l before)).
      - intros; apply giftCard_terms_step; assumption.
      - unfold giftCard_terms, before. auto. }
    destruct H as (_ & H). exact H.
Qed.


Lemma createArtistListing_post sender hash price w :
  post (createArtistListing sender hash price) w (fun l w' =>
    l = _artistListingCounter (market w) /\
    hash <> EmptyString /\ price <> 0 /\
    _artistListings (market w') = upd (_artistListings (market w)) l
                                    (ArtistListing.mk l sender hash price true) /\
    _giftCardListings (market w') = _giftCardListings (market w) /\
    nft w' = nft w /\ native w' = native w /\ erc20_balances w' = erc20_balances w).
Proof.
  open_contracts; walk; project; tests.
  repeat split; auto.
  intros ->. discriminate.
Qed.

(** X13: [createArtistListing] completes exactly when the reference is not
    empty, the price is not zero and the counter is not at its maximum; an
    empty reference or a zero price fails with [InvalidListing]; a completed
    call returns the old counter, the listing read there returns the caller,
    reference and price, active, every other listing reads as before, and
    the token contract and the currency are untouched. *)
Theorem createArtistListing_accepts_exactly sender hash price w :
  ((exists l w', createArtistListing sender hash price w = Ok l w') <->
   (hash <> EmptyString /\ price <> 0 /\ _artistListingCounter (market w) < MAX_UINT256)) /\
  (hash = EmptyString \/ price = 0 ->
   createArtistListing sender hash price w = Revert InvalidListing) /\
  (forall l w',
     createArtistListing sender hash price w = Ok l w' ->
     l = _artistListingCounter (market w) /\
     getArtistListing l w' = Ok (ArtistListing.mk l sender hash price true) w' /\
     (forall l', l' <> l -> getArtistListing l' w' = Ok (_artistListings (market w) l') w') /\
     nft w' = nft w /\ native w' = native w).
Proof.
  split; [|split].
  - split.
    + intros (l & w' & E). revert E.
      unfold createArtistListing, checked_increment, bind, gets, revert_if, revert, ret.
      destruct hash; [discriminate|]. cbn [String.length Nat.eqb].
      destruct (Z.eqb_spec price 0); [discriminate|]. project.
      destruct (Z.leb_spec MAX_UINT256 (_artistListingCounter (market w))); [discriminate|].
      intros _. repeat split; auto. discriminate.
    + intros (Hh & Hp & Hc).
      assert (T : total (createArtistListing sender hash price) w (fun _ _ => True)).
      { open_contracts. run; auto.
        - destruct hash; [congruence|reflexivity].
        - apply Z.eqb_neq. exact Hp.
        - apply Z.leb_gt. exact Hc. }
      destruct T as (l & w' & E & _). eauto.
  - unfold createArtistListing, bind, gets, revert_if, revert, ret.
    intros [->| ->]; [reflexivity|].
    destruct (Nat.eqb (String.length hash) 0); reflexivity.
  - intros l w' E.
    pose proof (createArtistListing_post _ _ _ _ _ _ E)
      as (-> & _ & _ & Hl & _ & Hn & Hf & _).
    unfold getArtistListing, artistListing_at, gets. rewrite Hl.
    split; [reflexivity|]. split; [rewrite upd_same; reflexivity|].
    split; [|auto]. intros l' Hne. rewrite upd_other by exact Hne. reflexivity.
Qed.

Lemma guarded_market_rejects w :
  market_entered (market w) = true ->
  (forall caller l, cancelGiftCardListing caller l w = Revert ReentrancyGuardReentrantCall) /\
  (forall buyer value l,
     purchaseArtistDesign buyer value l w = Revert InsufficientFunds \/
     purchaseArtistDesign buyer value l w = Revert ReentrancyGuardReentrantCall) /\
  (forall buyer value l,
     purchaseGiftCard buyer value l w = Revert InsufficientFunds \/
     purchaseGiftCard buyer value l w = Revert ReentrancyGuardReentrantCall).
Proof.
  intros Hg. split; [|split].
  - intros caller l.
    unfold cancelGiftCardListing, nonReentrant_market, bind, gets, revert_if, revert.
    rewrite Hg. reflexivity.
  - intros buyer value l.
    unfold purchaseArtistDesign, payable, nonReentrant_market, bind, gets, revert_if,
      revert, modify, ret.
    destruct (native w buyer <? value); [left; reflexivity|right].
    project. rewrite Hg. reflexivity.
  - intros buyer value l.
    unfold purchaseGiftCard, payable, nonReentrant_market, bind, gets, revert_if,
      revert, modify, ret.
    destruct (native w buyer <? value); [left; reflexivity|right].
    project. rewrite Hg. reflexivity.
Qed.

(** X14: in the ledger the author's account observes while
    [purchaseArtistDesign] hands it the payment, the guarded calls of the
    marketplace fail for every caller, and the listing being bought cannot
    be cancelled. *)
Theorem no_reentry_during_artist_payout sender value l w :
  let view := artist_payout_view sender value l w in
  (forall buyer v l',
     purchaseArtistDesign buyer v l' view = Revert InsufficientFunds \/
     purchaseArtistDesign buyer v l' view = Revert ReentrancyGuardReentrantCall) /\
  (forall buyer v l',
     purchaseGiftCard buyer v l' view = Revert InsufficientFunds \/
     purchaseGiftCard buyer v l' view = Revert ReentrancyGuardReentrantCall) /\
  (forall caller l',
     cancelGiftCardListing caller l' view = Revert ReentrancyGuardReentrantCall) /\
  (forall caller,
     cancelArtistListing caller l view = Revert NotSeller \/
     cancelArtistListing caller l view = Revert InvalidListing).
Proof.
  intros view.
  assert (Hg : market_entered (market view) = true) by reflexivity.
  destruct (guarded_market_rejects view Hg) as (Hc & Ha & Hp).
  split; [exact Ha|]. split; [exact Hp|]. split; [exact Hc|].
  intros caller.
  unfold cancelArtistListing, artistListing_at, bind, gets, revert_if, revert.
  unfold view, artist_payout_view. project. rewrite upd_same. project.
  destruct (ArtistListing.artist (_artistListings (market w) l) =? caller);
    cbn [negb]; [right|left]; reflexivity.
Qed.

Lemma counter_kept tx w :
  (forall s u t a, tx <> CreateGiftCard s u t a) ->
  _tokenIdCounter (nft (after tx w)) = _tokenIdCounter (nft w).
Proof.
  intros Hne.
  apply (after_keeps (fun w' => _tokenIdCounter (nft w') = _tokenIdCounter (nft w)));
    [reflexivity|].
  destruct tx; try (exfalso; eapply Hne; reflexivity);
    open_contracts; walk; project; auto.
Qed.

(** X15: [totalSupply] returns the counter, which grows by exactly one with
    each completed [createGiftCard] and with nothing else. *)
Theorem totalSupply_counts_created_cards txs w :
  totalSupply (after_all txs w)
    = Ok (_tokenIdCounter (nft w) + created txs w) (after_all txs w).
Proof.
  unfold totalSupply, gets. f_equal.
  revert w. induction txs as [|tx rest IH]; intros w; cbn [after_all created]; [lia|].
  rewrite IH.
  assert (Hstep : _tokenIdCounter (nft (after tx w)) =
                  _tokenIdCounter (nft w) +
                  (if is_creation tx && succeeds tx w then 1 else 0)).
  { destruct tx as [sender uri asset tokenAmount| | | | | | | | | | | | | | ];
      cbn [is_creation andb];
      try (rewrite counter_kept by (intros; discriminate); lia).
    unfold succeeds, after, transact, run, returning, bind.
    destruct (createGiftCard sender uri asset tokenAmount w)
      as [id w'|e] eqn:E; cbn [fst snd ret]; [|lia].
    pose proof (createGiftCard_post _ _ _ _ _ _ _ E) as (-> & Hc & _). lia. }
  lia.
Qed.


Lemma write_index_spec {V} (listings : list V) i v :
  (i < List.length listings)%nat ->
  exists out, write_index listings i v = Some out /\
    List.length out = List.length listings /\
    nth_error out i = Some v /\
    (forall k, k <> i -> nth_error out k = nth_error listings k).
Proof.
  revert i. induction listings as [|x rest IH]; intros i Hi; cbn in Hi; [lia|].
  destruct i as [|i]; cbn [write_index].
  - exists (v :: rest). repeat split; auto. intros [|k] Hk; [congruence|reflexivity].
  - destruct (IH i ltac:(lia)) as (out & -> & Hlen & Hnth & Hother).
    exists (x :: out). cbn. repeat split; auto.
    intros [|k] Hk; [reflexivity|]. cbn. apply Hother. congruence.
Qed.

Lemma copy_listings_spec {V} (table : mapping V) bound :
  forall fuel i listings,
    0 <= i <= bound ->
    (fuel = Z.to_nat bound - Z.to_nat i)%nat ->
    List.length listings = Z.to_nat bound ->
    exists out, copy_listings table bound fuel i listings = Some out /\
      List.length out = Z.to_nat bound /\
      (forall k, (k < Z.to_nat i)%nat -> nth_error out k = nth_error listings k) /\
      (forall k, i <= k < bound -> nth_error out (Z.to_nat k) = Some (table k)).
Proof.
  induction fuel as [|fuel IH]; intros i listings Hi Hf Hlen.
  - assert (i = bound) by lia. subst i.
    cbn [copy_listings]. rewrite Z.ltb_irrefl.
    exists listings. repeat split; auto; intros; lia.
  - assert (Hlt : i < bound) by lia.
    cbn [copy_listings]. apply Z.ltb_lt in Hlt. rewrite Hlt. apply Z.ltb_lt in Hlt.
    destruct (write_index_spec listings (Z.to_nat i) (table i) ltac:(lia))
      as (mid & -> & Hmlen & Hmi & Hmother).
    destruct (IH (i + 1) mid ltac:(lia) ltac:(lia) ltac:(lia))
      as (out & -> & Holen & Hprefix & Hrest).
    exists out. repeat split; auto.
    + intros k Hk. rewrite Hprefix by lia. apply Hmother. lia.
    + intros k Hk. destruct (Z.eq_dec k i) as [->|Hne].
      * rewrite Hprefix by lia. exact Hmi.
      * apply Hrest. lia.
Qed.

Lemma ids_match_step tx w : ids_match w -> ids_match (after tx w).
Proof.
  intros (Ha & Hg). apply after_keeps; [split; assumption|].
  destruct tx; open_contracts; walk; unfold ids_match; project; auto.
  all: tests; try discriminate.
  all: split; intros l' Hl'; upd_cases; project; auto; try (apply Ha; lia);
    try (apply Hg; lia).
Qed.

Lemma reachable_ids_match w : reachable w -> ids_match w.
Proof.
  induction 1 as [b a f|w tx Hr IH Hv].
  - split; intros l Hl; cbn in Hl; lia.
  - apply ids_match_step; assumption.
Qed.

(** X16: on a reachable ledger the two full-table reads return their
    arrays: one entry per created listing, entry [l] being listing [l],
    whose [listingId] is [l]. *)
Theorem full_table_reads_return_every_listing w :
  reachable w ->
  (exists listings,
     getArtistListings w = Some listings /\
     Z.of_nat (List.length listings) = _artistListingCounter (market w) /\
     forall l, 0 <= l < _artistListingCounter (market w) ->
       nth_error listings (Z.to_nat l) = Some (_artistListings (market w) l) /\
       ArtistListing.listingId (_artistListings (market w) l) = l) /\
  (exists listings,
     getGiftCardListings w = Some listings /\
     Z.of_nat (List.length listings) = _giftCardListingCounter (market w) /\
     forall l, 0 <= l < _giftCardListingCounter (market w) ->
       nth_error listings (Z.to_nat l) = Some (_giftCardListings (market w) l) /\
       GiftCardListing.listingId (_giftCardListings (market w) l) = l).
Proof.
  intros Hr.
  destruct (reachable_sound w Hr) as (_ & ((_ & Hca & Hcg) & _) & _).
  destruct (reachable_ids_match w Hr) as (Hia & Hig).
  split.
  - destruct (copy_listings_spec (_artistListings (market w))
                (_artistListingCounter (market w))
                (Z.to_nat (_artistListingCounter (market w))) 0
                (repeat ArtistListing.zero (Z.to_nat (_artistListingCounter (market w)))))
      as (out & E & Hlen & _ & Hnth); [lia|lia|apply repeat_length|].
    exists out. split; [exact E|]. split; [lia|].
    intros l Hl. split; [apply Hnth; exact Hl|apply Hia; exact Hl].
  - destruct (copy_listings_spec (_giftCardListings (market w))
                (_giftCardListingCounter (market w))
                (Z.to_nat (_giftCardListingCounter (market w))) 0
                (repeat GiftCardListing.zero
                   (Z.to_nat (_giftCardListingCounter (market w)))))
      as (out & E & Hlen & _ & Hnth); [lia|lia|apply repeat_length|].
    exists out. split; [exact E|]. split; [lia|].
    intros l Hl. split; [apply Hnth; exact Hl|apply Hig; exact Hl].
Qed.


(** X17: a purchase whose payment the buyer holds checks the listing before
    the payment: an inactive listing fails with [InvalidListing] whatever is
    paid, an active one paid below its price with [InsufficientPayment]; an
    id that was never created fails as an inactive listing. *)
Theorem purchases_check_listing_then_payment buyer value l w :
  market_entered (market w) = false ->
  value <= native w buyer ->
  (ArtistListing.active (_artistListings (market w) l) = false ->
     purchaseArtistDesign buyer value l w = Revert InvalidListing) /\
  (ArtistListing.active (_artistListings (market w) l) = true ->
   value < ArtistListing.price (_artistListings (market w) l) ->
     purchaseArtistDesign buyer value l w = Revert InsufficientPayment) /\
  (GiftCardListing.active (_giftCardListings (market w) l) = false ->
     purchaseGiftCard buyer value l w = Revert InvalidListing) /\
  (GiftCardListing.active (_giftCardListings (market w) l) = true ->
   value < GiftCardListing.price (_giftCardListings (market w) l) ->
     purchaseGiftCard buyer value l w = Revert InsufficientPayment) /\
  (reachable w -> _artistListingCounter (market w) <= l ->
     purchaseArtistDesign buyer value l w = Revert InvalidListing) /\
  (reachable w -> _giftCardListingCounter (market w) <= l ->
     purchaseGiftCard buyer value l w = Revert InvalidListing).
Proof.
  intros Hg Hf. apply Z.ltb_ge in Hf.
  assert (HA : ArtistListing.active (_artistListings (market w) l) = false ->
               purchaseArtistDesign buyer value l w = Revert InvalidListing).
  { intros Ha. apply purchaseArtistDesign_inactive; auto. apply Z.ltb_ge. exact Hf. }
  assert (HG : GiftCardListing.active (_giftCardListings (market w) l) = false ->
               purchaseGiftCard buyer value l w = Revert InvalidListing).
  { intros Ha.
    unfold purchaseGiftCard, payable, nonReentrant_market, giftCardListing_at,
      bind, gets, revert_if, revert, modify, ret.
    rewrite Hf. project. rewrite Hg. project. rewrite Ha. reflexivity. }
  split; [exact HA|]. split; [|split; [exact HG|split; [|split]]].
  - intros Ha Hp.
    unfold purchaseArtistDesign, payable, nonReentrant_market, artistListing_at,
      bind, gets, revert_if, revert, modify, ret.
    rewrite Hf. project. rewrite Hg. project. rewrite Ha. cbn [negb]. project.
    apply Z.ltb_lt in Hp. rewrite Hp. reflexivity.
  - intros Ha Hp.
    unfold purchaseGiftCard, payable, nonReentrant_market, giftCardListing_at,
      bind, gets, revert_if, revert, modify, ret.
    rewrite Hf. project. rewrite Hg. project. rewrite Ha. cbn [negb]. project.
    apply Z.ltb_lt in Hp. rewrite Hp. reflexivity.
  - intros Hr Hl. apply HA.
    destruct (reachable_sound w Hr) as (_ & (_ & _ & _ & _ & Hal & _) & _).
    rewrite (Hal l Hl). reflexivity.
  - intros Hr Hl. apply HG.
    destruct (reachable_sound w Hr) as (_ & (_ & _ & _ & _ & _ & Hgl) & _).
    rewrite (Hgl l Hl). reflexivity.
Qed.

Lemma purchaseGiftCard_nft_guard buyer value l w :
  post (purchaseGiftCard buyer value l) w (fun _ w' =>
    nft_entered (nft w') = nft_entered (nft w)).
Proof. open_contracts; walk; project; auto. Qed.

(** X18: the marketplace does not look into the vault: a purchase of a card
    that has already been redeemed completes like any other, the buyer pays
    the seller in full, no asset moves, and the buyer's own [liquidate] fails
    with [AlreadyLiquidated]. *)
Theorem redeemed_card_is_still_sold buyer value l w w' :
  nft_entered (nft w) = false ->
  buyer <> 0 ->
  purchaseGiftCard buyer value l w = Ok tt w' ->
  let tokenId := GiftCardListing.tokenId (_giftCardListings (market w) l) in
  liquidated (_vaults (nft w) tokenId) = true ->
  ownerOf tokenId w' = Ok buyer w' /\
  native w' =
    native (move_native market_address
              (GiftCardListing.seller (_giftCardListings (market w) l)) value
              (move_native buyer market_address value w)) /\
  erc20_balances w' = erc20_balances w /\
  liquidate buyer tokenId w' = Revert AlreadyLiquidated.
Proof.
  intros Hg Hb E tokenId Hl.
  pose proof (purchaseGiftCard_post _ _ _ _ _ _ E) as (_ & _ & _ & Ho).
  pose proof (purchaseGiftCard_frame _ _ _ _ _ _ E) as (Hv & Hbal & Hn).
  pose proof (purchaseGiftCard_nft_guard _ _ _ _ _ _ E) as Hg'.
  fold tokenId in Ho.
  split.
  { unfold ownerOf, _requireOwned, _ownerOf, bind, gets, revert_if, ret.
    rewrite Ho. apply Z.eqb_neq in Hb. rewrite Hb. reflexivity. }
  split; [exact Hn|]. split; [exact Hbal|].
  rewrite (liquidate_rejects buyer tokenId w').
  - rewrite Ho, Z.eqb_refl. reflexivity.
  - congruence.
  - congruence.
  - rewrite Hv. exact Hl.
Qed.

End Further.

(* ================================================================== *)
(** * The book of the mock asset *)

Lemma sum_balances_upd_out b a v holders :
  ~ In a holders ->
  MockERC20.sum_balances (upd b a v) holders = MockERC20.sum_balances b holders.
Proof.
  induction holders as [|x rest IH]; intros Hn; cbn [MockERC20.sum_balances];
    [reflexivity|].
  rewrite IH by (intros H; apply Hn; right; exact H).
  rewrite upd_other; [reflexivity|]. intros ->. apply Hn. left. reflexivity.
Qed.

Lemma sum_balances_upd_in b a v holders :
  NoDup holders -> In a holders ->
  MockERC20.sum_balances (upd b a v) holders
    = MockERC20.sum_balances b holders - b a + v.
Proof.
  induction 1 as [|x rest Hx Hnd IH]; intros Hin; [destruct Hin|].
  cbn [MockERC20.sum_balances]. destruct Hin as [->|Hin].
  - rewrite upd_same, sum_balances_upd_out by exact Hx. lia.
  - rewrite IH by exact Hin. rewrite upd_other; [lia|].
    intros ->. apply Hx. exact Hin.
Qed.

Lemma sum_balances_nonneg b holders :
  (forall a, 0 <= b a) -> 0 <= MockERC20.sum_balances b holders.
Proof.
  intros Hb. induction holders as [|x rest IH]; cbn [MockERC20.sum_balances]; [lia|].
  specialize (Hb x). lia.
Qed.

Lemma two_balances_le_sum b a c holders :
  (forall x, 0 <= b x) -> NoDup holders -> In a holders -> In c holders -> a <> c ->
  b a + b c <= MockERC20.sum_balances b holders.
Proof.
  intros Hb. induction 1 as [|x rest Hx Hnd IH]; intros Ha Hc Hne; [destruct Ha|].
  cbn [MockERC20.sum_balances].
  assert (Hone : forall y, In y rest -> b y <= MockERC20.sum_balances b rest).
  { clear - Hb. induction rest as [|z rest IH]; intros y Hy; [destruct Hy|].
    cbn [MockERC20.sum_balances]. pose proof (sum_balances_nonneg b rest Hb).
    destruct Hy as [->|Hy]; [lia|]. specialize (IH y Hy). specialize (Hb z). lia. }
  destruct Ha as [->|Ha], Hc as [->|Hc].
  - congruence.
  - specialize (Hone c Hc). lia.
  - specialize (Hone a Ha). lia.
  - specialize (IH Ha Hc Hne). specialize (Hb x). lia.
Qed.

(** The holders of a book that adds up can be taken to include any two
    given accounts. *)
Lemma holders_include b total holders a c :
  NoDup holders -> (forall x, ~ In x holders -> b x = 0) ->
  MockERC20.sum_balances b holders = total ->
  exists holders',
    NoDup holders' /\ (forall x, ~ In x holders' -> b x = 0) /\
    MockERC20.sum_balances b holders' = total /\ In a holders' /\ In c holders'.
Proof.
  intros Hnd Hout Hsum.
  assert (Hadd : forall hs y,
            NoDup hs -> (forall x, ~ In x hs -> b x = 0) ->
            MockERC20.sum_balances b hs = total ->
            exists hs', NoDup hs' /\ (forall x, ~ In x hs' -> b x = 0) /\
                        MockERC20.sum_balances b hs' = total /\ In y hs' /\
                        (forall x, In x hs -> In x hs')).
  { intros hs y Hn Ho Hs. destruct (in_dec Z.eq_dec y hs) as [Hy|Hy].
    - exists hs. auto.
    - exists (y :: hs). repeat split.
      + constructor; assumption.
      + intros x Hx. apply Ho. intros H. apply Hx. right. exact H.
      + cbn [MockERC20.sum_balances]. rewrite (Ho y Hy). lia.
      + left. reflexivity.
      + intros x Hx. right. exact Hx. }
  destruct (Hadd holders a Hnd Hout Hsum) as (h1 & N1 & O1 & S1 & A1 & _).
  destruct (Hadd h1 c N1 O1 S1) as (h2 & N2 & O2 & S2 & C2 & I2).
  exists h2. repeat split; auto.
Qed.

Lemma word_mod_small z : 0 <= z <= MAX_UINT256 -> z mod (MAX_UINT256 + 1) = z.
Proof. intros H. apply Z.mod_small. lia. Qed.

Lemma balance_le_supply s a :
  MockERC20.adds_up s -> MockERC20._balances s a <= MockERC20._totalSupply s.
Proof.
  intros (Hb & _ & _ & _ & holders & Hnd & Hout & Hsum).
  destruct (holders_include _ _ _ a a Hnd Hout Hsum) as (hs & N & O & S & A & _).
  rewrite <- S. clear - Hb A. induction hs as [|x rest IH]; [destruct A|].
  cbn [MockERC20.sum_balances].
  pose proof (sum_balances_nonneg (MockERC20._balances s) rest Hb).
  destruct A as [->|A]; [lia|]. specialize (IH A). specialize (Hb x). lia.
Qed.

(** On a book that adds up the credit of a mint does not wrap. *)
Lemma _mint_exact s account value :
  MockERC20.adds_up s -> 0 <= value -> account <> 0 ->
  MockERC20._mint account value s =
    if MockERC20._totalSupply s + value <=? MAX_UINT256
    then inr (MockERC20.with_balances
                (upd (MockERC20._balances s) account
                     (MockERC20._balances s account + value))
                (MockERC20.with_totalSupply (MockERC20._totalSupply s + value) s))
    else inl ArithmeticOverflow.
Proof.
  intros Hs Hv Ha. pose proof (balance_le_supply s account Hs) as Hle.
  destruct Hs as (Hb & _).
  unfold MockERC20._mint, MockERC20._update, MockERC20.checked_add.
  apply Z.eqb_neq in Ha. rewrite Ha, Z.eqb_refl.
  destruct (Z.leb_spec (MockERC20._totalSupply s + value) MAX_UINT256) as [Hfit|Hfit];
    [|reflexivity].
  cbn [MockERC20._balances MockERC20.with_totalSupply].
  unfold MockERC20.unchecked_add. rewrite word_mod_small; [reflexivity|].
  specialize (Hb account). lia.
Qed.

(** On a book that adds up neither the debit nor the credit of a transfer
    wraps. *)
Lemma _transfer_exact s from to value :
  MockERC20.adds_up s -> 0 <= value -> from <> 0 -> to <> 0 ->
  MockERC20._transfer from to value s =
    if MockERC20._balances s from <? value then inl ERC20InsufficientBalance
    else
      let debited :=
        upd (MockERC20._balances s) from (MockERC20._balances s from - value) in
      inr (MockERC20.with_balances (upd debited to (debited to + value)) s).
Proof.
  intros Hs Hv Hf Ht.
  pose proof (balance_le_supply s from Hs) as Hfrom.
  destruct Hs as (Hb & _ & _ & Hmax & holders & Hnd & Hout & Hsum).
  unfold MockERC20._transfer, MockERC20._update.
  apply Z.eqb_neq in Hf, Ht. rewrite Hf, Ht. cbv zeta.
  destruct (Z.ltb_spec (MockERC20._balances s from) value) as [Hlow|Hhas];
    [reflexivity|].
  cbn [MockERC20._balances MockERC20.with_balances].
  unfold MockERC20.unchecked_sub, MockERC20.unchecked_add.
  rewrite (word_mod_small (MockERC20._balances s from - value)) by lia.
  rewrite word_mod_small; [reflexivity|].
  apply Z.eqb_neq in Hf, Ht.
  destruct (Z.eq_dec to from) as [->|Hne].
  - rewrite upd_same. lia.
  - rewrite upd_other by exact Hne.
    destruct (holders_include _ _ _ from to Hnd Hout Hsum) as (hs & N & O & S & F & T).
    pose proof (two_balances_le_sum _ from to hs Hb N F T ltac:(congruence)).
    pose proof (Hb to). lia.
Qed.

Lemma _mint_adds_up s account value s' :
  MockERC20.adds_up s -> 0 <= value ->
  MockERC20._mint account value s = inr s' -> MockERC20.adds_up s'.
Proof.
  intros Hs Hv E.
  assert (Ha : account <> 0).
  { intros ->. discriminate E. }
  rewrite _mint_exact in E by assumption.
  destruct (Z.leb_spec (MockERC20._totalSupply s + value) MAX_UINT256) as [Hfit|];
    [|discriminate].
  injection E as <-.
  destruct Hs as (Hb & Hal & Hz & Hmax & holders & Hnd & Hout & Hsum).
  destruct (holders_include _ _ _ account account Hnd Hout Hsum)
    as (hs & N & O & S & A & _).
  unfold MockERC20.adds_up. cbn [MockERC20._balances MockERC20._allowances
    MockERC20._totalSupply MockERC20.with_balances MockERC20.with_totalSupply].
  split; [|split; [exact Hal|split; [|split; [exact Hfit|]]]].
  - intros a. unfold upd. destruct (a =? account); [specialize (Hb account); lia|apply Hb].
  - rewrite upd_other by congruence. exact Hz.
  - exists hs. split; [exact N|]. split.
    + intros x Hx. rewrite upd_other; [apply O; exact Hx|].
      intros ->. apply Hx. exact A.
    + rewrite sum_balances_upd_in by assumption. lia.
Qed.

Lemma _transfer_adds_up s from to value s' :
  MockERC20.adds_up s -> 0 <= value ->
  MockERC20._transfer from to value s = inr s' -> MockERC20.adds_up s'.
Proof.
  intros Hs Hv E.
  assert (Hf : from <> 0).
  { intros ->. discriminate E. }
  assert (Ht : to <> 0).
  { intros ->. unfold MockERC20._transfer in E.
    apply Z.eqb_neq in Hf. rewrite Hf in E. discriminate E. }
  rewrite _transfer_exact in E by assumption.
  destruct (Z.ltb_spec (MockERC20._balances s from) value) as [|Hhas]; [discriminate|].
  cbv zeta in E. injection E as <-.
  destruct Hs as (Hb & Hal & Hz & Hmax & holders & Hnd & Hout & Hsum).
  destruct (holders_include _ _ _ from to Hnd Hout Hsum)
    as (hs & N & O & S & F & T).
  unfold MockERC20.adds_up. cbn [MockERC20._balances MockERC20._allowances
    MockERC20._totalSupply MockERC20.with_balances].
  split; [|split; [exact Hal|split; [|split; [exact Hmax|]]]].
  - intros a. unfold upd. pose proof (Hb from). pose proof (Hb to). pose proof (Hb a).
    destruct (a =? to), (to =? from), (a =? from); lia.
  - rewrite !upd_other by congruence. exact Hz.
  - exists hs. split; [exact N|]. split.
    + intros x Hx. rewrite !upd_other; [apply O; exact Hx| |];
        intros ->; apply Hx; assumption.
    + rewrite sum_balances_upd_in by assumption.
      rewrite sum_balances_upd_in by assumption. lia.
Qed.

Lemma _approve_adds_up s owner spender value s' :
  MockERC20.adds_up s -> 0 <= value <= MAX_UINT256 ->
  MockERC20._approve owner spender value s = inr s' ->
  MockERC20.adds_up s' /\ MockERC20._balances s' = MockERC20._balances s /\
  MockERC20._totalSupply s' = MockERC20._totalSupply s.
Proof.
  intros (Hb & Hal & Hrest) Hv E. unfold MockERC20._approve in E.
  destruct (owner =? 0); [discriminate|]. destruct (spender =? 0); [discriminate|].
  injection E as <-. split; [|split; reflexivity].
  split; [exact Hb|]. split; [|exact Hrest].
  intros o sp. cbn [MockERC20._allowances MockERC20.with_allowances].
  destruct (_ && _); [exact Hv|apply Hal].
Qed.

Lemma _spendAllowance_adds_up s owner spender value s' :
  MockERC20.adds_up s -> 0 <= value ->
  MockERC20._spendAllowance owner spender value s = inr s' ->
  MockERC20.adds_up s' /\ MockERC20._balances s' = MockERC20._balances s /\
  MockERC20._totalSupply s' = MockERC20._totalSupply s.
Proof.
  intros Hs Hv E. unfold MockERC20._spendAllowance, MockERC20.allowance in E.
  cbv zeta in E.
  destruct (MockERC20._allowances s owner spender <? MAX_UINT256);
    [|injection E as <-; auto].
  destruct (Z.ltb_spec (MockERC20._allowances s owner spender) value) as [|Hhas];
    [discriminate|].
  eapply _approve_adds_up; [exact Hs| |exact E].
  destruct Hs as (_ & Hal & _). specialize (Hal owner spender).
  unfold MockERC20.unchecked_sub. rewrite word_mod_small; lia.
Qed.

Lemma one_token_positive : 0 < 10 ^ MockERC20.decimals.
Proof. vm_compute. reflexivity. Qed.

Lemma checked_mul_value a b v :
  0 <= a -> 0 <= b -> MockERC20.checked_mul a b = inr v -> v = a * b /\ 0 <= v <= MAX_UINT256.
Proof.
  intros Ha Hb. unfold MockERC20.checked_mul.
  destruct (Z.leb_spec (a * b) MAX_UINT256); [|discriminate].
  intros E. injection E as <-. split; [reflexivity|]. nia.
Qed.

Lemma call_adds_up c s :
  MockERC20.valid_call c -> MockERC20.adds_up s -> MockERC20.adds_up (MockERC20.after c s).
Proof.
  intros Hv Hs. unfold MockERC20.after.
  destruct (MockERC20.call c s) as [e|s'] eqn:E; [exact Hs|].
  pose proof one_token_positive as H10.
  destruct c as [sender to amount|sender|sender to value|sender spender value
                |sender from to value]; cbn [MockERC20.call MockERC20.valid_call] in *.
  - unfold MockERC20.mint in E.
    destruct (MockERC20.checked_mul amount (10 ^ MockERC20.decimals)) as [|v] eqn:Em;
      [discriminate|].
    apply checked_mul_value in Em; [|lia|lia].
    apply (_mint_adds_up s to v s' Hs); [lia|exact E].
  - unfold MockERC20.faucet in E.
    destruct (MockERC20.checked_mul 1000 (10 ^ MockERC20.decimals)) as [|v] eqn:Em;
      [discriminate|].
    apply checked_mul_value in Em; [|lia|lia].
    apply (_mint_adds_up s sender v s' Hs); [lia|exact E].
  - apply (_transfer_adds_up s sender to value s' Hs); [lia|exact E].
  - apply (_approve_adds_up s sender spender value s' Hs); [lia|exact E].
  - unfold MockERC20.transferFrom in E.
    destruct (MockERC20._spendAllowance from sender value s) as [|s1] eqn:Es;
      [discriminate|].
    destruct (_spendAllowance_adds_up s from sender value s1 Hs ltac:(lia) Es)
      as (Hs1 & _).
    apply (_transfer_adds_up s1 from to value s' Hs1); [lia|exact E].
Qed.

Lemma empty_book_adds_up name symbol :
  MockERC20.adds_up (MockERC20.mk (fun _ => 0) (fun _ _ => 0) 0 name symbol).
Proof.
  pose proof MAX_UINT256_pos.
  unfold MockERC20.adds_up. cbn [MockERC20._balances MockERC20._allowances
    MockERC20._totalSupply].
  repeat split; try lia.
  exists []. split; [constructor|]. split; [reflexivity|reflexivity].
Qed.

Lemma reachable_adds_up s : MockERC20.reachable s -> MockERC20.adds_up s.
Proof.
  induction 1 as [sender name symbol n s Hs Hn E|s c Hr IH Hv].
  - unfold MockERC20.constructor in E. pose proof one_token_positive.
    destruct (MockERC20.checked_mul n (10 ^ MockERC20.decimals)) as [|v] eqn:Em;
      [discriminate|].
    apply checked_mul_value in Em; [|lia|lia].
    apply (_mint_adds_up _ sender v s (empty_book_adds_up name symbol)); [lia|exact E].
  - apply call_adds_up; assumption.
Qed.

(** X19: the book of a deployed mock asset always adds up: finitely many
    accounts hold a balance, their balances sum to the total supply, the
    total supply is a word, and so no balance exceeds it. *)
Theorem supply_is_the_sum_of_balances s :
  MockERC20.reachable s ->
  (exists holders,
     NoDup holders /\
     (forall a, ~ In a holders -> MockERC20.balanceOf a s = 0) /\
     MockERC20.sum_balances (MockERC20._balances s) holders = MockERC20.totalSupply s) /\
  (forall a, 0 <= MockERC20.balanceOf a s <= MockERC20.totalSupply s) /\
  MockERC20.totalSupply s <= MAX_UINT256.
Proof.
  intros Hr. pose proof (reachable_adds_up s Hr) as Hs.
  pose proof (balance_le_supply s) as Hle.
  destruct Hs as (Hb & Hal & Hz & Hmax & holders & Hnd & Hout & Hsum).
  split; [exists holders; auto|]. split; [|exact Hmax].
  intros a. split; [apply Hb|]. apply Hle.
  unfold MockERC20.adds_up. repeat split; try assumption; try apply Hal.
  exists holders. auto.
Qed.

(** X20: on the book of a deployed mock asset the unchecked debit and
    credit of a transfer never wrap, so [transfer] agrees with the transfer
    of the ledger's asset book, which computes without bounds: both fail
    with the same error, or both complete with the same balances. *)
Theorem transfer_agrees_with_the_ledger token sender to value s w :
  MockERC20.reachable s -> 0 <= value ->
  (forall a, erc20_balances w token a = MockERC20.balanceOf a s) ->
  match MockERC20.transfer sender to value s, erc20_transfer token sender to value w with
  | inr s', Ok _ w' => forall a, erc20_balances w' token a = MockERC20.balanceOf a s'
  | inl e, Revert e' => e = e'
  | _, _ => False
  end.
Proof.
  intros Hr Hv Hsame. pose proof (reachable_adds_up s Hr) as Hs.
  unfold MockERC20.transfer, erc20_transfer, erc20_transfer_internal, erc20_update,
    erc20_balanceOf, bind, gets, revert_if, revert, modify, ret.
  destruct (Z.eqb_spec sender 0) as [->|Hf]; [reflexivity|].
  destruct (Z.eqb_spec to 0) as [->|Ht].
  { unfold MockERC20._transfer. apply Z.eqb_neq in Hf. rewrite Hf. reflexivity. }
  rewrite _transfer_exact by assumption.
  rewrite (Hsame sender). unfold MockERC20.balanceOf.
  destruct (MockERC20._balances s sender <? value); [reflexivity|].
  cbv zeta. intros a.
  cbn [erc20_balances with_erc20_balances MockERC20._balances MockERC20.with_balances].
  unfold upd2, upd. rewrite !Z.eqb_refl. cbn [andb].
  rewrite !Hsame. unfold MockERC20.balanceOf.
  destruct (a =? to), (to =? sender), (a =? sender); reflexivity.
Qed.

(** X21: [mint] on a deployed mock asset, for any caller: a number of
    tokens whose amount in base units does not fit the word is a panic,
    before the receiver is looked at; then the null receiver is refused;
    then a total supply that would not fit is a panic; otherwise the call
    completes and credits the receiver and the total supply with
    [amount * 10^decimals], leaving every other balance and all allowances
    alone. *)
Theorem mint_accepts_exactly sender to amount s :
  MockERC20.reachable s -> 0 <= amount ->
  let value := amount * 10 ^ MockERC20.decimals in
  (MAX_UINT256 < value -> MockERC20.mint sender to amount s = inl ArithmeticOverflow) /\
  (value <= MAX_UINT256 -> to = 0 ->
     MockERC20.mint sender to amount s = inl ERC20InvalidReceiver) /\
  (value <= MAX_UINT256 -> to <> 0 -> MAX_UINT256 < MockERC20.totalSupply s + value ->
     MockERC20.mint sender to amount s = inl ArithmeticOverflow) /\
  (to <> 0 -> MockERC20.totalSupply s + value <= MAX_UINT256 ->
     exists s',
       MockERC20.mint sender to amount s = inr s' /\
       MockERC20.balanceOf to s' = MockERC20.balanceOf to s + value /\
       MockERC20.totalSupply s' = MockERC20.totalSupply s + value /\
       (forall a, a <> to -> MockERC20.balanceOf a s' = MockERC20.balanceOf a s) /\
       MockERC20._allowances s' = MockERC20._allowances s).
Proof.
  intros Hr Ha value. pose proof (reachable_adds_up s Hr) as Hs.
  pose proof one_token_positive as H10.
  assert (Hv : 0 <= value) by (unfold value; nia).
  assert (Hsup : 0 <= MockERC20._totalSupply s).
  { pose proof (balance_le_supply s 0 Hs). destruct Hs as (Hb & _). specialize (Hb 0). lia. }
  unfold MockERC20.mint, MockERC20.checked_mul, MockERC20.totalSupply,
    MockERC20.balanceOf. fold value.
  split; [|split; [|split]].
  - intros Hbig. apply Z.leb_gt in Hbig. rewrite Hbig. reflexivity.
  - intros Hfit ->. apply Z.leb_le in Hfit. rewrite Hfit. reflexivity.
  - intros Hfit Ht Hbig. apply Z.leb_le in Hfit. rewrite Hfit.
    rewrite _mint_exact by assumption. apply Z.leb_gt in Hbig. rewrite Hbig. reflexivity.
  - intros Ht Hroom.
    assert (Hfit : (value <=? MAX_UINT256) = true) by (apply Z.leb_le; lia).
    rewrite Hfit. rewrite _mint_exact by assumption.
    apply Z.leb_le in Hroom. rewrite Hroom.
    eexists. split; [reflexivity|].
    cbn [MockERC20._balances MockERC20._allowances MockERC20._totalSupply
         MockERC20.with_balances MockERC20.with_totalSupply].
    rewrite upd_same. repeat split.
    intros a Hne. apply upd_other. exact Hne.
Qed.

(** X22: [faucet] credits its caller with 1000 tokens, that is
    [1000 * 10^18] base units, whenever the total supply has room for them,
    and is a panic otherwise; nobody else's balance changes. *)
Theorem faucet_gives_1000_tokens sender s :
  MockERC20.reachable s -> sender <> 0 ->
  (MockERC20.totalSupply s + 1000 * 10 ^ 18 <= MAX_UINT256 ->
     exists s',
       MockERC20.faucet sender s = inr s' /\
       MockERC20.balanceOf sender s' = MockERC20.balanceOf sender s + 1000 * 10 ^ 18 /\
       MockERC20.totalSupply s' = MockERC20.totalSupply s + 1000 * 10 ^ 18 /\
       (forall a, a <> sender -> MockERC20.balanceOf a s' = MockERC20.balanceOf a s)) /\
  (MAX_UINT256 < MockERC20.totalSupply s + 1000 * 10 ^ 18 ->
     MockERC20.faucet sender s = inl ArithmeticOverflow).
Proof.
  intros Hr Hs0. pose proof (reachable_adds_up s Hr) as Hs.
  assert (Hmul : MockERC20.checked_mul 1000 (10 ^ MockERC20.decimals)
                 = inr (1000 * 10 ^ 18)) by (vm_compute; reflexivity).
  assert (Hpos : 0 <= 1000 * 10 ^ 18) by (vm_compute; discriminate).
  unfold MockERC20.faucet, MockERC20.totalSupply, MockERC20.balanceOf.
  rewrite Hmul. rewrite _mint_exact by assumption.
  split.
  - intros Hroom. apply Z.leb_le in Hroom. rewrite Hroom.
    eexists. split; [reflexivity|].
    cbn [MockERC20._balances MockERC20._totalSupply
         MockERC20.with_balances MockERC20.with_totalSupply].
    rewrite upd_same. repeat split.
    intros a Hne. apply upd_other. exact Hne.
  - intros Hbig. apply Z.leb_gt in Hbig. rewrite Hbig. reflexivity.
Qed.

(** X23: the deployment completes exactly when the initial supply in base
    units fits the word; the deployer then holds all of it, and nobody has
    an allowance. *)
Theorem constructor_mints_the_initial_supply sender name symbol initialSupply :
  sender <> 0 -> 0 <= initialSupply ->
  let value := initialSupply * 10 ^ MockERC20.decimals in
  (MAX_UINT256 < value ->
     MockERC20.constructor sender name symbol initialSupply = inl ArithmeticOverflow) /\
  (value <= MAX_UINT256 ->
     exists s,
       MockERC20.constructor sender name symbol initialSupply = inr s /\
       MockERC20.totalSupply s = value /\
       MockERC20.balanceOf sender s = value /\
       (forall a, a <> sender -> MockERC20.balanceOf a s = 0) /\
       (forall o sp, MockERC20.allowance o sp s = 0)).
Proof.
  intros Hs Hn value. pose proof one_token_positive as H10.
  assert (Hv : 0 <= value) by (unfold value; nia).
  unfold MockERC20.constructor, MockERC20.checked_mul. fold value.
  split.
  - intros Hbig. apply Z.leb_gt in Hbig. rewrite Hbig. reflexivity.
  - intros Hfit. pose proof Hfit as Hfit'. apply Z.leb_le in Hfit'. rewrite Hfit'.
    rewrite _mint_exact; [|apply empty_book_adds_up|exact Hv|exact Hs].
    cbn [MockERC20._totalSupply MockERC20._balances]. rewrite Z.add_0_l, Hfit'.
    eexists. split; [reflexivity|].
    unfold MockERC20.totalSupply, MockERC20.balanceOf, MockERC20.allowance.
    cbn [MockERC20._balances MockERC20._allowances MockERC20._totalSupply
         MockERC20.with_balances MockERC20.with_totalSupply].
    rewrite upd_same. repeat split.
    intros a Hne. rewrite upd_other by exact Hne. reflexivity.
Qed.

(** X24: the supply of the mock asset never shrinks: a call of [mint] or
    [faucet] leaves it or raises it by the minted amount, every other call
    leaves it as it is. *)
Theorem supply_only_grows_by_minting c s :
  MockERC20.reachable s -> MockERC20.valid_call c ->
  let before := MockERC20.totalSupply s in
  let now := MockERC20.totalSupply (MockERC20.after c s) in
  match c with
  | MockERC20.Mint _ _ amount =>
      now = before \/ now = before + amount * 10 ^ MockERC20.decimals
  | MockERC20.Faucet _ => now = before \/ now = before + 1000 * 10 ^ MockERC20.decimals
  | _ => now = before
  end.
Proof.
  intros Hr Hv before now. pose proof (reachable_adds_up s Hr) as Hs.
  pose proof one_token_positive as H10.
  unfold now, before, MockERC20.after, MockERC20.totalSupply.
  destruct (MockERC20.call c s) as [e|s'] eqn:E;
    [destruct c; auto|].
  assert (Hmint : forall account value,
            0 <= value -> MockERC20._mint account value s = inr s' ->
            MockERC20._totalSupply s' = MockERC20._totalSupply s + value).
  { intros account value Hval Em.
    assert (Ha : account <> 0) by (intros ->; discriminate Em).
    rewrite _mint_exact in Em by assumption.
    destruct (_ <=? _); [|discriminate]. injection Em as <-. reflexivity. }
  assert (Htransfer : forall s1 from to value,
            MockERC20._transfer from to value s1 = inr s' ->
            MockERC20._totalSupply s' = MockERC20._totalSupply s1).
  { intros s1 from to value Et. unfold MockERC20._transfer, MockERC20._update in Et.
    destruct (from =? 0); [discriminate|]. destruct (to =? 0) eqn:Eto; [discriminate|].
    cbv zeta in Et. destruct (_ <? _); [discriminate|].
    injection Et as <-. reflexivity. }
  destruct c as [sender to amount|sender|sender to value|sender spender value
                |sender from to value]; cbn [MockERC20.call MockERC20.valid_call] in *.
  - right. unfold MockERC20.mint in E.
    destruct (MockERC20.checked_mul amount (10 ^ MockERC20.decimals)) as [|v] eqn:Em;
      [discriminate|].
    apply checked_mul_value in Em; [|lia|lia]. destruct Em as (-> & Hw).
    apply (Hmint to); [lia|exact E].
  - right. unfold MockERC20.faucet in E.
    destruct (MockERC20.checked_mul 1000 (10 ^ MockERC20.decimals)) as [|v] eqn:Em;
      [discriminate|].
    apply checked_mul_value in Em; [|lia|lia]. destruct Em as (-> & Hw).
    apply (Hmint sender); [lia|exact E].
  - apply (Htransfer s sender to value E).
  - destruct (_approve_adds_up s sender spender value s' Hs ltac:(lia) E) as (_ & _ & Ht).
    exact Ht.
  - unfold MockERC20.transferFrom in E.
    destruct (MockERC20._spendAllowance from sender value s) as [|s1] eqn:Es;
      [discriminate|].
    destruct (_spendAllowance_adds_up s from sender value s1 Hs ltac:(lia) Es)
      as (_ & _ & Ht).
    rewrite <- Ht. apply (Htransfer s1 from to value E).
Qed.

(* ================================================================== *)
(** * The content store *)

Section Store.

Context {Blob NFTMetadata : Type}.
Variable JSON_stringify : NFTMetadata -> string.
Variable JSON_parse : string -> option NFTMetadata.
Variable createObjectURL : Blob -> string.


Lemma map_get_set_same key (value : IpfsService.Stored Blob) m :
  IpfsService.map_get key (IpfsService.map_set key value m) = Some value.
Proof.
  induction m as [|[k v] rest IH]; cbn [IpfsService.map_set IpfsService.map_get].
  - rewrite String.eqb_refl. reflexivity.
  - destruct (String.eqb k key) eqn:E; cbn [IpfsService.map_get].
    + rewrite String.eqb_refl. reflexivity.
    + rewrite E. exact IH.
Qed.

Lemma map_get_set_other key key' (value : IpfsService.Stored Blob) m :
  key' <> key ->
  IpfsService.map_get key' (IpfsService.map_set key value m)
    = IpfsService.map_get key' m.
Proof.
  intros Hne.
  induction m as [|[k v] rest IH]; cbn [IpfsService.map_set IpfsService.map_get].
  - destruct (String.eqb_spec key key'); [congruence|reflexivity].
  - destruct (String.eqb_spec k key) as [->|Hk]; cbn [IpfsService.map_get].
    + destruct (String.eqb_spec key key'); [congruence|reflexivity].
    + destruct (String.eqb k key'); [reflexivity|exact IH].
Qed.

Lemma map_set_entries key (value : IpfsService.Stored Blob) m k v :
  In (k, v) (IpfsService.map_set key value m) ->
  (k = key /\ v = value) \/ In (k, v) m.
Proof.
  induction m as [|[k0 v0] rest IH]; cbn [IpfsService.map_set].
  - intros [E|[]]. injection E as <- <-. left. auto.
  - destruct (String.eqb k0 key).
    + intros [E|H]; [injection E as <- <-; left; auto|right; right; exact H].
    + intros [E|H]; [right; left; exact E|].
      destruct (IH H) as [?|?]; [left; assumption|right; right; assumption].
Qed.

Lemma map_get_entry key m (value : IpfsService.Stored Blob) :
  IpfsService.map_get key m = Some value -> In (key, value) m.
Proof.
  induction m as [|[k v] rest IH]; cbn [IpfsService.map_get]; [discriminate|].
  destruct (String.eqb_spec k key) as [->|].
  - intros E. injection E as <-. left. reflexivity.
  - intros E. right. apply IH. exact E.
Qed.

Lemma substring_all s : String.substring 0 (String.length s) s = s.
Proof. induction s as [|c s IH]; cbn; [reflexivity|rewrite IH; reflexivity]. Qed.

(** The address scheme in front of an id is what [replace] removes. *)
Lemma replace_scheme cid :
  IpfsService.replace "ipfs://" "" (String.append "ipfs://" cid) = cid.
Proof.
  destruct cid as [|c rest]; [reflexivity|].
  simpl. rewrite substring_all. reflexivity.
Qed.

Lemma replace_avoids a pattern replacement s :
  IpfsService.avoids a s ->
  IpfsService.replace (String a pattern) replacement s = s.
Proof.
  induction s as [|b rest IH]; intros Hs; [reflexivity|].
  destruct Hs as (Hb & Hrest).
  cbn [IpfsService.replace String.prefix].
  destruct (ascii_dec a b) as [E|_]; [congruence|].
  rewrite IH by exact Hrest. reflexivity.
Qed.

Lemma avoids_append c s1 s2 :
  IpfsService.avoids c s1 -> IpfsService.avoids c s2 ->
  IpfsService.avoids c (String.append s1 s2).
Proof.
  induction s1 as [|a rest IH]; cbn [String.append IpfsService.avoids]; [auto|].
  intros (Ha & Hr) H2. split; [exact Ha|apply IH; assumption].
Qed.

Lemma avoids_repeat_char c a k : a <> c -> IpfsService.avoids c (IpfsService.repeat_char a k).
Proof.
  intros Hne. induction k; cbn [IpfsService.repeat_char IpfsService.avoids]; auto.
Qed.

Lemma avoids_digits d : IpfsService.avoids "i" (NilEmpty.string_of_uint d).
Proof.
  induction d; cbn [NilEmpty.string_of_uint IpfsService.avoids]; auto;
    (split; [discriminate|assumption]).
Qed.

Lemma mock_cid_avoids n : IpfsService.avoids "i" (IpfsService.mock_cid n).
Proof.
  unfold IpfsService.mock_cid, IpfsService.padStart, IpfsService.toString.
  repeat apply avoids_append.
  - cbn. repeat split; discriminate.
  - apply avoids_repeat_char. discriminate.
  - apply avoids_digits.
  - cbn. repeat split; discriminate.
Qed.

Lemma read_digits_padded k n :
  IpfsService.read_digits
    (String.append (IpfsService.repeat_char "0" k) (IpfsService.toString n)) = Some n.
Proof.
  unfold IpfsService.read_digits. induction k as [|k IH].
  - cbn [IpfsService.repeat_char String.append]. unfold IpfsService.toString.
    rewrite NilEmpty.usu. cbn [option_map]. rewrite DecimalN.Unsigned.of_to. reflexivity.
  - cbn [IpfsService.repeat_char String.append NilEmpty.uint_of_string].
    destruct (NilEmpty.uint_of_string
                (String.append (IpfsService.repeat_char "0" k) (IpfsService.toString n)))
      as [d|]; [|discriminate IH].
    exact IH.
Qed.

Lemma length_append s1 s2 :
  String.length (String.append s1 s2) = (String.length s1 + String.length s2)%nat.
Proof. induction s1 as [|a s1 IH]; cbn; [reflexivity|rewrite IH; reflexivity]. Qed.

Lemma append_cancel_r s1 s2 t :
  String.append s1 t = String.append s2 t -> s1 = s2.
Proof.
  intros E.
  assert (Hlen : String.length s1 = String.length s2).
  { apply (f_equal String.length) in E. rewrite !length_append in E. lia. }
  revert s2 E Hlen. induction s1 as [|a s1 IH]; intros [|b s2] E Hlen;
    try discriminate Hlen; [reflexivity|].
  cbn [String.append] in E. injection E as -> E. f_equal. apply IH; [exact E|].
  cbn in Hlen. lia.
Qed.

(** Different counter values have different mock ids. *)
Lemma mock_cid_injective n m : IpfsService.mock_cid n = IpfsService.mock_cid m -> n = m.
Proof.
  unfold IpfsService.mock_cid. cbn [String.append]. intros E. injection E as E.
  apply append_cancel_r in E. unfold IpfsService.padStart in E.
  apply (f_equal IpfsService.read_digits) in E.
  rewrite !read_digits_padded in E. injection E as E. exact E.
Qed.

Lemma mock_cid_replace n :
  IpfsService.replace "ipfs://" "" (IpfsService.mock_cid n) = IpfsService.mock_cid n.
Proof. apply replace_avoids. apply mock_cid_avoids. Qed.

Lemma store_mock_spec (value : IpfsService.Stored Blob) st :
  IpfsService.store_mock value st =
    (IpfsService.mock_cid (IpfsService.increment (IpfsService.mockCidCounter st)),
     IpfsService.mkState
       (IpfsService.map_set
          (IpfsService.mock_cid (IpfsService.increment (IpfsService.mockCidCounter st)))
          value (IpfsService.mockStorage st))
       (IpfsService.increment (IpfsService.mockCidCounter st))).
Proof. reflexivity. Qed.

(** An upload either leaves the state alone (the network took it) or
    stores one value under the mock id of the next counter value. *)
Lemma after_upload_cases (u : IpfsService.Upload Blob NFTMetadata) st :
  IpfsService.after_upload JSON_stringify u st = st \/
  exists value,
    IpfsService.after_upload JSON_stringify u st = snd (IpfsService.store_mock value st).
Proof.
  destruct u as [key upload blob|key upload metadata];
    cbn [IpfsService.after_upload];
    unfold IpfsService.uploadImage, IpfsService.uploadMetadata.
  - destruct (IpfsService.no_key key); [right; eexists; reflexivity|].
    destruct upload; [left; reflexivity|right; eexists; reflexivity].
  - destruct (IpfsService.no_key key).
    + right. exists (IpfsService.StoredString (JSON_stringify metadata)).
      rewrite store_mock_spec. reflexivity.
    + destruct upload; [left; reflexivity|].
      right. exists (IpfsService.StoredString (JSON_stringify metadata)).
      rewrite store_mock_spec. reflexivity.
Qed.

Lemma increment_below n :
  (n < 2 ^ 53)%N -> IpfsService.increment n = (n + 1)%N.
Proof. intros H. unfold IpfsService.increment. apply N.ltb_lt in H. rewrite H. reflexivity. Qed.

Lemma increment_grows n : (n <= IpfsService.increment n)%N.
Proof. unfold IpfsService.increment. destruct (n <? 2 ^ 53)%N; lia. Qed.

Lemma after_upload_counter (u : IpfsService.Upload Blob NFTMetadata) st :
  (IpfsService.mockCidCounter st
   <= IpfsService.mockCidCounter (IpfsService.after_upload JSON_stringify u st))%N.
Proof.
  destruct (after_upload_cases u st) as [->|(value & ->)]; [lia|].
  rewrite store_mock_spec. cbn [snd IpfsService.mockCidCounter]. apply increment_grows.
Qed.

Lemma after_uploads_counter (us : list (IpfsService.Upload Blob NFTMetadata)) st :
  (IpfsService.mockCidCounter st
   <= IpfsService.mockCidCounter (IpfsService.after_uploads JSON_stringify us st))%N.
Proof.
  revert st. induction us as [|u rest IH]; intros st; cbn [IpfsService.after_uploads];
    [lia|].
  etransitivity; [apply (after_upload_counter u)|apply IH].
Qed.

(** While the counter is exact, a mock upload keeps what is stored and
    keeps the keys among the ids that were handed out. *)
Lemma after_upload_keeps (u : IpfsService.Upload Blob NFTMetadata) st :
  (IpfsService.mockCidCounter (IpfsService.after_upload JSON_stringify u st) < 2 ^ 53)%N ->
  IpfsService.keys_used st ->
  IpfsService.keys_used (IpfsService.after_upload JSON_stringify u st) /\
  (forall cid value,
     IpfsService.map_get cid (IpfsService.mockStorage st) = Some value ->
     IpfsService.map_get cid
       (IpfsService.mockStorage (IpfsService.after_upload JSON_stringify u st))
     = Some value).
Proof.
  intros Hc Hk.
  destruct (after_upload_cases u st) as [->|(value & E)]; [auto|].
  rewrite E in *. rewrite store_mock_spec in *.
  cbn [snd IpfsService.mockCidCounter IpfsService.mockStorage] in *.
  pose proof (increment_grows (IpfsService.mockCidCounter st)) as Hg.
  rewrite increment_below in * by lia.
  split.
  - intros k v Hin. cbn [IpfsService.mockStorage IpfsService.mockCidCounter] in *.
    apply map_set_entries in Hin. destruct Hin as [(-> & _)|Hin].
    + exists (IpfsService.mockCidCounter st + 1)%N. split; [lia|reflexivity].
    + destruct (Hk k v Hin) as (n & Hn & ->). exists n. split; [lia|reflexivity].
  - intros cid v Hget. rewrite map_get_set_other; [exact Hget|].
    intros ->. apply map_get_entry in Hget.
    destruct (Hk _ _ Hget) as (n & Hn & Heq). apply mock_cid_injective in Heq. lia.
Qed.

Lemma initial_keys_used : IpfsService.keys_used (@IpfsService.initial Blob).
Proof. intros k v []. Qed.

Lemma after_uploads_keeps (us : list (IpfsService.Upload Blob NFTMetadata)) st :
  (IpfsService.mockCidCounter (IpfsService.after_uploads JSON_stringify us st) < 2 ^ 53)%N ->
  IpfsService.keys_used st ->
  IpfsService.keys_used (IpfsService.after_uploads JSON_stringify us st) /\
  (forall cid value,
     IpfsService.map_get cid (IpfsService.mockStorage st) = Some value ->
     IpfsService.map_get cid
       (IpfsService.mockStorage (IpfsService.after_uploads JSON_stringify us st))
     = Some value).
Proof.
  revert st. induction us as [|u rest IH]; intros st Hc Hk;
    cbn [IpfsService.after_uploads] in *; [auto|].
  pose proof (after_uploads_counter rest (IpfsService.after_upload JSON_stringify u st)).
  destruct (after_upload_keeps u st ltac:(lia) Hk) as (Hk1 & Hget1).
  destruct (IH _ Hc Hk1) as (Hk2 & Hget2).
  split; [exact Hk2|]. intros cid value Hget. apply Hget2, Hget1, Hget.
Qed.

Lemma mock_entry_read (value : IpfsService.Stored Blob) m cid :
  IpfsService.map_get cid m = Some value ->
  (if IpfsService.map_has cid m then IpfsService.map_get cid m else None) = Some value.
Proof. intros E. unfold IpfsService.map_has. rewrite E. reflexivity. Qed.

Lemma uploadImage_mock key upload blob (st : IpfsService.State Blob) :
  IpfsService.mock_path key upload ->
  IpfsService.uploadImage key upload blob st
    = IpfsService.store_mock (IpfsService.StoredBlob blob) st.
Proof.
  intros [Hk| ->]; unfold IpfsService.uploadImage.
  - rewrite Hk. reflexivity.
  - destruct (IpfsService.no_key key); reflexivity.
Qed.

Lemma uploadMetadata_mock key upload (metadata : NFTMetadata)
    (st : IpfsService.State Blob) :
  IpfsService.mock_path key upload ->
  IpfsService.uploadMetadata JSON_stringify key upload metadata st
    = (String.append "ipfs://"
         (fst (IpfsService.store_mock
                 (IpfsService.StoredString (JSON_stringify metadata)) st)),
       snd (IpfsService.store_mock
              (IpfsService.StoredString (JSON_stringify metadata)) st)).
Proof.
  intros [Hk| ->]; unfold IpfsService.uploadMetadata.
  - rewrite Hk. rewrite store_mock_spec. reflexivity.
  - destruct (IpfsService.no_key key); rewrite store_mock_spec; reflexivity.
Qed.

(** X25: what an upload puts into the mock store reads back without the
    network: the metadata read returns the stored text parsed, whatever the
    gateways would answer, and both image reads return the object address
    of the stored blob, with or without the address scheme in front of the
    id. *)
Theorem mock_uploads_read_back key upload fetch (st : IpfsService.State Blob) :
  IpfsService.mock_path key upload ->
  (forall metadata : NFTMetadata,
     let r := IpfsService.uploadMetadata JSON_stringify key upload metadata st in
     IpfsService.fetchMetadata JSON_parse fetch (fst r) (snd r)
       = JSON_parse (JSON_stringify metadata)) /\
  (forall blob,
     let r := IpfsService.uploadImage key upload blob st in
     IpfsService.fetchImage createObjectURL (fst r) (snd r) = createObjectURL blob /\
     IpfsService.getIPFSUrl createObjectURL (fst r) (snd r) = createObjectURL blob /\
     IpfsService.getIPFSUrl createObjectURL (String.append "ipfs://" (fst r)) (snd r)
       = createObjectURL blob).
Proof.
  intros Hm. split.
  - intros metadata r. unfold r. rewrite uploadMetadata_mock by exact Hm.
    rewrite store_mock_spec. cbn [fst snd].
    unfold IpfsService.fetchMetadata. cbv zeta. rewrite replace_scheme.
    cbn [IpfsService.mockStorage].
    rewrite (mock_entry_read (IpfsService.StoredString (JSON_stringify metadata)));
      [reflexivity|apply map_get_set_same].
  - intros blob r. unfold r. rewrite uploadImage_mock by exact Hm.
    rewrite store_mock_spec. cbn [fst snd].
    unfold IpfsService.fetchImage, IpfsService.getIPFSUrl. cbv zeta.
    rewrite replace_scheme, mock_cid_replace. cbn [IpfsService.mockStorage].
    rewrite (mock_entry_read (IpfsService.StoredBlob blob));
      [auto|apply map_get_set_same].
Qed.

(** X26: the reads look at what kind of value is stored: the metadata read
    of an id under which a blob is stored goes to the gateways, and the image
    read of an address under which a text is stored answers with the gateway
    address of the id. *)
Theorem mock_reads_check_the_kind key upload fetch (st : IpfsService.State Blob) :
  IpfsService.mock_path key upload ->
  (forall blob,
     let r := IpfsService.uploadImage key upload blob st in
     IpfsService.fetchMetadata JSON_parse fetch (fst r) (snd r)
       = IpfsService.try_gateways fetch IpfsService.GATEWAY_OPTIONS (fst r)) /\
  (forall metadata : NFTMetadata,
     let r := IpfsService.uploadMetadata JSON_stringify key upload metadata st in
     exists cid,
       fst r = String.append "ipfs://" cid /\
       IpfsService.fetchImage createObjectURL (fst r) (snd r)
         = String.append IpfsService.IPFS_GATEWAY cid).
Proof.
  intros Hm. split.
  - intros blob r. unfold r. rewrite uploadImage_mock by exact Hm.
    rewrite store_mock_spec. cbn [fst snd].
    unfold IpfsService.fetchMetadata. cbv zeta. rewrite mock_cid_replace.
    cbn [IpfsService.mockStorage].
    rewrite (mock_entry_read (IpfsService.StoredBlob blob));
      [reflexivity|apply map_get_set_same].
  - intros metadata r. unfold r. rewrite uploadMetadata_mock by exact Hm.
    rewrite store_mock_spec. cbn [fst snd].
    eexists. split; [reflexivity|].
    unfold IpfsService.fetchImage. cbv zeta. rewrite replace_scheme.
    cbn [IpfsService.mockStorage].
    rewrite (mock_entry_read (IpfsService.StoredString (JSON_stringify metadata)));
      [reflexivity|apply map_get_set_same].
Qed.

(** X27: as long as the counter stays below [2^53], the ids the mock store
    hands out are new, and nothing stored is ever overwritten: after any
    further uploads every stored id still holds its value, so the reads of a
    stored id answer as before.  At [2^53] the counter stops and the same
    id is handed out again. *)
Theorem mock_store_keeps_its_entries
    (us more : list (IpfsService.Upload Blob NFTMetadata)) :
  let st := IpfsService.after_uploads JSON_stringify us IpfsService.initial in
  let later := IpfsService.after_uploads JSON_stringify more st in
  (IpfsService.mockCidCounter later < 2 ^ 53)%N ->
  IpfsService.map_has (fst (IpfsService.generateMockCID later))
    (IpfsService.mockStorage later) = false /\
  (forall cid value,
     IpfsService.map_get cid (IpfsService.mockStorage st) = Some value ->
     IpfsService.map_get cid (IpfsService.mockStorage later) = Some value) /\
  (forall fetch ipfsUri,
     IpfsService.map_has (IpfsService.replace "ipfs://" "" ipfsUri)
       (IpfsService.mockStorage st) = true ->
     IpfsService.fetchMetadata JSON_parse fetch ipfsUri later
       = IpfsService.fetchMetadata JSON_parse fetch ipfsUri st /\
     IpfsService.fetchImage createObjectURL ipfsUri later
       = IpfsService.fetchImage createObjectURL ipfsUri st) /\
  (forall stuck : IpfsService.State Blob,
     IpfsService.mockCidCounter stuck = (2 ^ 53)%N ->
     IpfsService.generateMockCID stuck
       = (IpfsService.mock_cid (2 ^ 53), stuck)).
Proof.
  intros st later Hc.
  pose proof (after_uploads_counter more st) as Hmono. fold later in Hmono.
  destruct (after_uploads_keeps us IpfsService.initial ltac:(fold st; lia)
              initial_keys_used) as (Hk & _). fold st in Hk.
  destruct (after_uploads_keeps more st Hc Hk) as (Hk' & Hkeep). fold later in Hk', Hkeep.
  split; [|split; [exact Hkeep|split]].
  - unfold IpfsService.generateMockCID. cbv zeta. cbn [fst].
    rewrite increment_below by exact Hc. unfold IpfsService.map_has.
    destruct (IpfsService.map_get _ _) as [v|] eqn:E; [|reflexivity].
    apply map_get_entry in E. destruct (Hk' _ _ E) as (n & Hn & Heq).
    apply mock_cid_injective in Heq. lia.
  - intros fetch ipfsUri Hhas. unfold IpfsService.map_has in Hhas.
    destruct (IpfsService.map_get (IpfsService.replace "ipfs://" "" ipfsUri)
                (IpfsService.mockStorage st)) as [v|] eqn:E; [|discriminate].
    pose proof (Hkeep _ _ E) as E'.
    unfold IpfsService.fetchMetadata, IpfsService.fetchImage. cbv zeta.
    rewrite (mock_entry_read v _ _ E), (mock_entry_read v _ _ E'). auto.
  - intros [storage counter] Hs. cbn [IpfsService.mockCidCounter] in Hs. subst counter.
    unfold IpfsService.generateMockCID, IpfsService.increment.
    cbn [IpfsService.mockCidCounter IpfsService.mockStorage].
    rewrite N.ltb_irrefl. reflexivity.
Qed.

(** X28: an artwork uploaded through the mock store can be listed and is
    shown: its id is not empty, so [createArtistListing] with that id and a
    non-zero price completes while the listing counter has room, the listing
    read returns that id, and the image address computed from the listing's
    reference is the object address of the uploaded blob. *)
Theorem uploaded_artwork_is_listed_and_shown
    key upload blob (st : IpfsService.State Blob) sender price w :
  IpfsService.mock_path key upload ->
  price <> 0 -> _artistListingCounter (market w) < MAX_UINT256 ->
  let r := IpfsService.uploadImage key upload blob st in
  exists l w',
    createArtistListing sender (fst r) price w = Ok l w' /\
    getArtistListing l w' = Ok (ArtistListing.mk l sender (fst r) price true) w' /\
    IpfsService.getIPFSUrl createObjectURL
      (String.append "ipfs://" (ArtistListing.ipfsHash (_artistListings (market w') l)))
      (snd r) = createObjectURL blob.
Proof.
  intros Hm Hp Hc r.
  assert (Hcid : fst r = IpfsService.mock_cid
                           (IpfsService.increment (IpfsService.mockCidCounter st))).
  { unfold r. rewrite uploadImage_mock by exact Hm. reflexivity. }
  assert (Hne : fst r <> EmptyString).
  { rewrite Hcid. unfold IpfsService.mock_cid. discriminate. }
  assert (T : total (createArtistListing sender (fst r) price) w (fun _ _ => True)).
  { open_contracts. run; auto.
    - destruct (fst r); [congruence|reflexivity].
    - apply Z.eqb_neq. exact Hp.
    - apply Z.leb_gt. exact Hc. }
  destruct T as (l & w' & E & _).
  pose proof (createArtistListing_post _ _ _ _ _ _ E) as (-> & _ & _ & Hl & _).
  exists (_artistListingCounter (market w)), w'. split; [exact E|].
  unfold getArtistListing, artistListing_at, gets. rewrite Hl, upd_same.
  split; [reflexivity|]. cbn [ArtistListing.ipfsHash].
  unfold r. rewrite uploadImage_mock by exact Hm. rewrite store_mock_spec. cbn [fst snd].
  unfold IpfsService.getIPFSUrl. cbv zeta. rewrite replace_scheme.
  cbn [IpfsService.mockStorage].
  rewrite (mock_entry_read (IpfsService.StoredBlob blob));
    [reflexivity|apply map_get_set_same].
Qed.

End Store.

(* ================================================================== *)
(** * The word wrap *)

Lemma append_empty_r s : String.append s EmptyString = s.
Proof. induction s as [|a s IH]; cbn; [reflexivity|rewrite IH; reflexivity]. Qed.

Lemma append_assoc s1 s2 s3 :
  String.append (String.append s1 s2) s3 = String.append s1 (String.append s2 s3).
Proof. induction s1 as [|a s1 IH]; cbn; [reflexivity|rewrite IH; reflexivity]. Qed.

Lemma text_of_app l1 l2 :
  AiService.text_of (l1 ++ l2)
    = String.append (AiService.text_of l1) (AiService.text_of l2).
Proof.
  induction l1 as [|x l1 IH]; cbn [AiService.text_of app String.append]; [reflexivity|].
  rewrite IH, append_assoc. reflexivity.
Qed.

Lemma split_nonempty c s : AiService.split c s <> [].
Proof.
  destruct s as [|a rest]; cbn [AiService.split]; [discriminate|].
  destruct (Ascii.eqb a c); [discriminate|].
  destruct (AiService.split c rest); discriminate.
Qed.

(** The pieces of a split, each followed by the separator, spell the text
    followed by one separator. *)
Lemma split_spells c s :
  AiService.text_of (map (fun word => String.append word (String c EmptyString))
                       (AiService.split c s))
    = String.append s (String c EmptyString).
Proof.
  induction s as [|a rest IH]; [reflexivity|].
  cbn [AiService.split]. destruct (Ascii.eqb_spec a c) as [->|Hne].
  - cbn [map AiService.text_of String.append]. rewrite IH. reflexivity.
  - pose proof (split_nonempty c rest) as Hn.
    destruct (AiService.split c rest) as [|word words]; [congruence|].
    cbn [map AiService.text_of String.append] in *. rewrite IH. reflexivity.
Qed.

(** What [wrap] returns spells the lines so far, the current line and the
    words still to come. *)
Lemma wrap_spells too_wide words : forall lines currentLine,
  AiService.text_of (AiService.wrap too_wide words lines currentLine)
    = String.append (AiService.text_of lines)
        (String.append currentLine
           (AiService.text_of (map (fun word => String.append word " ") words))).
Proof.
  induction words as [|word rest IH]; intros lines currentLine;
    cbn [AiService.wrap map AiService.text_of].
  - rewrite text_of_app. cbn [AiService.text_of]. reflexivity.
  - cbv zeta. destruct (too_wide _ && _); rewrite IH.
    + rewrite text_of_app. cbn [AiService.text_of].
      rewrite append_empty_r, !append_assoc. reflexivity.
    + rewrite !append_assoc. reflexivity.
Qed.

Lemma wrap_lines too_wide (P : string -> Prop) words : forall lines currentLine,
  Forall P lines ->
  (currentLine = EmptyString \/ P currentLine) ->
  (forall word, In word words -> P (String.append word " ")) ->
  (forall line, too_wide line = false -> P line) ->
  (words = [] -> currentLine <> EmptyString) ->
  Forall P (AiService.wrap too_wide words lines currentLine).
Proof.
  induction words as [|word rest IH]; intros lines currentLine Hl Hc Hw Hfit Hlast;
    cbn [AiService.wrap].
  - apply Forall_app. split; [exact Hl|]. constructor; [|constructor].
    destruct Hc as [->|Hc]; [exfalso; apply Hlast; reflexivity|exact Hc].
  - cbv zeta.
    assert (Hword : P (String.append word " ")) by (apply Hw; left; reflexivity).
    assert (Hrest : forall w, In w rest -> P (String.append w " "))
      by (intros w Hin; apply Hw; right; exact Hin).
    assert (Hne : forall s, String.append s (String.append word " ") <> EmptyString).
    { intros s. destruct s, word; discriminate. }
    destruct (too_wide (String.append currentLine (String.append word " "))) eqn:Ew;
      cbn [andb].
    + destruct (String.eqb_spec currentLine "") as [->|Hcur]; cbn [negb].
      * apply IH; auto; intros _; apply Hne.
      * apply IH; auto; try (intros _; apply (Hne EmptyString)).
        apply Forall_app. split; [exact Hl|]. constructor; [|constructor].
        destruct Hc as [?|?]; [congruence|assumption].
    + apply IH; auto; intros _; apply Hne.
Qed.

(** X29: the word wrap of the placeholder artwork loses nothing: the lines
    it produces, one after the other, spell the prompt followed by one
    space; there is at least one line, and every line either holds a single
    word of the prompt or fits the width. *)
Theorem wrapped_lines_spell_the_prompt too_wide prompt :
  AiService.text_of (AiService.wrapped_lines too_wide prompt)
    = String.append prompt " " /\
  AiService.wrapped_lines too_wide prompt <> [] /\
  Forall (AiService.one_word_or_fits too_wide prompt)
    (AiService.wrapped_lines too_wide prompt).
Proof.
  unfold AiService.wrapped_lines. split; [|split].
  - rewrite wrap_spells. cbn [AiService.text_of String.append]. apply split_spells.
  - intros E. pose proof (wrap_spells too_wide (AiService.split " " prompt) [] "") as H.
    rewrite E in H. cbn [AiService.text_of String.append] in H.
    rewrite split_spells in H. destruct prompt; discriminate H.
  - apply wrap_lines.
    + constructor.
    + left. reflexivity.
    + intros word Hin. left. exists word. auto.
    + intros line Hfit. right. exact Hfit.
    + intros E. exfalso. apply (split_nonempty " " prompt). exact E.
Qed.

(* ================================================================== *)
(** * The properties on concrete ledgers *)

Lemma minted_by_alice :
  @createGiftCard Scenario.accepting Scenario.alice "ipfs://card" Scenario.asset 100
    Scenario.genesis = Ok 0 Scenario.minted.
Proof. vm_compute. reflexivity. Qed.

Lemma minted_reachable : @reachable Scenario.accepting Scenario.minted.
Proof.
  unfold Scenario.minted, Scenario.genesis.
  apply reachable_after; [apply reachable_deployed|].
  vm_compute. repeat split; discriminate.
Qed.

Lemma listed_reachable : @reachable Scenario.accepting Scenario.listed.
Proof.
  unfold Scenario.listed.
  apply reachable_after; [apply reachable_after; [apply minted_reachable|]|];
    vm_compute; repeat split; discriminate.
Qed.

Lemma artwork_listed_reachable : @reachable Scenario.accepting Scenario.artwork_listed.
Proof.
  unfold Scenario.artwork_listed, Scenario.genesis.
  apply reachable_after; [apply reachable_deployed|].
  vm_compute. repeat split; discriminate.
Qed.

(** C1, the claim as stated fails: after Alice has redeemed token 0, a
    redeem by Bob, who does not own it, fails with [NotTokenOwner], not with
    [AlreadyLiquidated]. *)
Lemma second_redeem_by_stranger_is_NotTokenOwner :
  @liquidate Scenario.accepting Scenario.alice 0 Scenario.minted
    = Ok tt Scenario.redeemed /\
  @liquidate Scenario.accepting Scenario.bob 0 Scenario.redeemed
    = Revert NotTokenOwner /\
  @liquidate Scenario.accepting Scenario.bob 0 Scenario.redeemed
    <> Revert AlreadyLiquidated.
Proof. vm_compute. repeat split; try reflexivity; discriminate. Qed.

Lemma redeemed_after_approval :
  @liquidate Scenario.accepting Scenario.alice 0
    (@after_all Scenario.accepting [Approve Scenario.alice Scenario.bob 0] Scenario.minted)
  = Ok tt Scenario.redeemed_late.
Proof. vm_compute. reflexivity. Qed.

Lemma deposit_is_paid_out_once_witness :
  @createGiftCard Scenario.accepting Scenario.alice "ipfs://card" Scenario.asset 100
    Scenario.genesis = Ok 0 Scenario.minted /\
  erc20_balances Scenario.redeemed_late Scenario.asset Scenario.alice = 500 /\
  @liquidate Scenario.accepting Scenario.bob 0
    (@after_all Scenario.accepting [TransferFrom Scenario.bob Scenario.alice Scenario.bob 0]
       Scenario.redeemed_late)
  = Revert AlreadyLiquidated /\
  @liquidate Scenario.accepting Scenario.alice 0
    (@after_all Scenario.accepting [TransferFrom Scenario.bob Scenario.alice Scenario.bob 0]
       Scenario.redeemed_late)
  = Revert NotTokenOwner /\
  liquidate_via Scenario.watching Scenario.alice 0
    (@after_all Scenario.accepting [Approve Scenario.alice Scenario.bob 0] Scenario.minted)
  = Ok tt Scenario.redeemed_late.
Proof.
  pose proof (@deposit_is_paid_out_once Scenario.accepting
                Scenario.alice "ipfs://card"%string Scenario.asset 100 Scenario.genesis
                0 Scenario.minted [Approve Scenario.alice Scenario.bob 0]
                Scenario.alice Scenario.redeemed_late
                minted_by_alice redeemed_after_approval)
    as (_ & _ & (_ & _ & _ & Hvia & _) & Hpay & _ & Hlater).
  split; [exact minted_by_alice|].
  split; [rewrite Hpay; vm_compute; reflexivity|].
  split; [|split].
  - rewrite (Hlater [TransferFrom Scenario.bob Scenario.alice Scenario.bob 0] Scenario.bob).
    vm_compute. reflexivity.
  - rewrite (Hlater [TransferFrom Scenario.bob Scenario.alice Scenario.bob 0] Scenario.alice).
    vm_compute. reflexivity.
  - rewrite (Hvia Scenario.watching). vm_compute. reflexivity.
Defined.

(** C2, the claim as stated fails: Bob pays 25 for the artwork listed at 10,
    Alice's account refuses the payment, the call fails with
    [TransferFailed], and the listing is active afterwards. *)
Lemma failed_purchase_leaves_listing_active :
  ArtistListing.active (_artistListings (market Scenario.artwork_listed) 0) = true /\
  ArtistListing.price (_artistListings (market Scenario.artwork_listed) 0) <= 25 /\
  snd (@transact Scenario.rejecting (PurchaseArtistDesign Scenario.bob 25 0)
         Scenario.artwork_listed) = Failed TransferFailed /\
  ArtistListing.active
    (_artistListings
       (market (fst (@transact Scenario.rejecting (PurchaseArtistDesign Scenario.bob 25 0)
                       Scenario.artwork_listed))) 0) = true.
Proof. vm_compute. repeat split; try reflexivity; discriminate. Qed.

Lemma purchaseArtistDesign_failed_payout_reverts_witness :
  @purchaseArtistDesign Scenario.rejecting Scenario.bob 25 0 Scenario.artwork_listed
    = Revert TransferFailed /\
  ArtistListing.active
    (_artistListings
       (market (@after Scenario.rejecting (PurchaseArtistDesign Scenario.bob 25 0)
                  Scenario.artwork_listed)) 0) = true.
Proof.
  destruct (@purchaseArtistDesign_failed_payout_reverts Scenario.rejecting
              Scenario.bob 25 0 Scenario.artwork_listed)
    as (E & _ & A); try (vm_compute; reflexivity); try (vm_compute; discriminate).
  split; [exact E|exact A].
Defined.

Lemma genesis_answers_bob :
  asset_balanceOf (@standard_asset Scenario.accepting) Scenario.asset Scenario.bob
    (with_nft (with_nft_entered true (nft Scenario.genesis)) Scenario.genesis)
  = Ok 0 (with_nft (with_nft_entered true (nft Scenario.genesis)) Scenario.genesis).
Proof. vm_compute. reflexivity. Qed.

Lemma failed_call_changes_nothing_witness :
  @createGiftCard_via Scenario.accepting (@standard_asset Scenario.accepting)
    Scenario.bob "ipfs://card" Scenario.asset 40 Scenario.genesis
    = Revert InsufficientBalance /\
  @createGiftCard_via Scenario.accepting Scenario.codeless
    Scenario.bob "ipfs://card" 3 40 Scenario.genesis
    = Revert RevertWithoutData /\
  fst (@transact Scenario.accepting
         (CreateGiftCard Scenario.bob "ipfs://card" Scenario.asset 40) Scenario.genesis)
    = Scenario.genesis.
Proof.
  assert (G : nft_entered (nft Scenario.genesis) = false) by reflexivity.
  assert (A : Scenario.asset <> 0) by discriminate.
  assert (N : 3 <> 0) by discriminate.
  assert (V : 40 <> 0) by discriminate.
  assert (L : 0 < 40) by reflexivity.
  assert (B : erc20_balances Scenario.genesis Scenario.asset Scenario.bob < 40)
    by (vm_compute; reflexivity).
  split; [|split].
  - exact (proj1 (proj1 (proj2 (@failed_call_changes_nothing Scenario.accepting))
                    (@standard_asset Scenario.accepting) Scenario.bob
                    "ipfs://card"%string Scenario.asset 40 Scenario.genesis G A)
             0 _ genesis_answers_bob L).
  - exact (proj2 (proj1 (proj2 (@failed_call_changes_nothing Scenario.accepting))
                    Scenario.codeless Scenario.bob "ipfs://card"%string 3 40
                    Scenario.genesis G N)
             RevertWithoutData V eq_refl).
  - destruct (proj2 (proj2 (@failed_call_changes_nothing Scenario.accepting))
                Scenario.bob "ipfs://card"%string Scenario.asset 40 Scenario.genesis G B)
      as (e & _ & _ & T & _).
    rewrite T. reflexivity.
Defined.

Lemma escrow_custody_witness :
  @reachable Scenario.accepting Scenario.listed /\
  GiftCardListing.active (_giftCardListings (market Scenario.listed) 0) = true /\
  _owners (nft Scenario.listed)
    (GiftCardListing.tokenId (_giftCardListings (market Scenario.listed) 0)) = 200.
Proof.
  assert (A : GiftCardListing.active (_giftCardListings (market Scenario.listed) 0) = true)
    by (vm_compute; reflexivity).
  split; [exact listed_reachable|]. split; [exact A|].
  exact (proj1 (@escrow_custody Scenario.accepting Scenario.listed listed_reachable) 0 A).
Defined.

Lemma vault_contents_never_change_witness :
  _owners (nft Scenario.minted) 0 <> 0 /\
  amount (_vaults (nft (@after_all Scenario.accepting
                          [Approve Scenario.alice 200 0;
                           ListGiftCard Scenario.alice 0 70;
                           PurchaseGiftCard Scenario.bob 70 0;
                           Liquidate Scenario.bob 0] Scenario.minted)) 0) =
  amount (_vaults (nft Scenario.minted) 0).
Proof.
  assert (O : _owners (nft Scenario.minted) 0 <> 0) by (vm_compute; discriminate).
  split; [exact O|].
  exact (proj1 (proj1 (@vault_contents_never_change Scenario.accepting) _
                  Scenario.minted 0 O)).
Defined.

Lemma inactive_listing_stays_inactive_witness :
  0 < _artistListingCounter (market Scenario.artwork_sold) /\
  ArtistListing.active (_artistListings (market Scenario.artwork_sold) 0) = false /\
  ArtistListing.active
    (_artistListings
       (market (@after_all Scenario.accepting
                  [CancelArtistListing Scenario.alice 0;
                   CreateArtistListing Scenario.alice "QmArtwork" 10;
                   PurchaseArtistDesign Scenario.bob 25 0] Scenario.artwork_sold)) 0)
    = false.
Proof.
  assert (C : 0 < _artistListingCounter (market Scenario.artwork_sold))
    by (vm_compute; reflexivity).
  assert (A : ArtistListing.active (_artistListings (market Scenario.artwork_sold) 0)
              = false) by (vm_compute; reflexivity).
  split; [exact C|]. split; [exact A|].
  exact (proj1 (@inactive_listing_stays_inactive Scenario.accepting) _
           Scenario.artwork_sold 0 C A).
Defined.

Lemma purchaseArtistDesign_pays_author_witness :
  @purchaseArtistDesign Scenario.accepting Scenario.bob 25 0 Scenario.artwork_listed
    = Ok "QmArtwork"%string
         (@artist_sale_settled Scenario.accepting Scenario.bob 25 0
            Scenario.artwork_listed) /\
  native (@artist_sale_settled Scenario.accepting Scenario.bob 25 0
            Scenario.artwork_listed) Scenario.alice = 25.
Proof.
  destruct (@purchaseArtistDesign_pays_author Scenario.accepting
              Scenario.bob 25 0 Scenario.artwork_listed)
    as (_ & E & _ & _ & B); try (vm_compute; reflexivity); try (vm_compute; discriminate).
  split; [exact E|].
  destruct B as (B & _); try (vm_compute; discriminate). exact B.
Defined.

Lemma liquidate_by_non_owner_witness :
  @liquidate Scenario.accepting Scenario.bob 0 Scenario.minted = Revert NotTokenOwner /\
  @liquidate Scenario.accepting Scenario.bob 0 Scenario.redeemed = Revert NotTokenOwner.
Proof.
  split; apply (@liquidate_by_non_owner Scenario.accepting);
    try (vm_compute; reflexivity); vm_compute; discriminate.
Defined.

(** C9, the claim as stated fails: on the freshly deployed ledger no token
    has id 7, and [getMetadataURI 7] fails instead of returning an empty
    reference. *)
Lemma getMetadataURI_fails_on_unknown_id :
  _tokenIdCounter (nft Scenario.genesis) <= 7 /\
  getMetadataURI 7 Scenario.genesis
    = Revert (ERC721NonexistentToken 7) /\
  (forall uri, getMetadataURI 7 Scenario.genesis
               <> Ok uri Scenario.genesis).
Proof.
  split; [vm_compute; discriminate|]. split; [reflexivity|].
  intros uri. vm_compute. discriminate.
Qed.

Lemma vault_and_metadata_reads_witness :
  getVaultContents 7 Scenario.minted
    = Ok TokenVault_zero Scenario.minted /\
  getMetadataURI 0 Scenario.minted
    = Ok "ipfs://card"%string Scenario.minted /\
  getMetadataURI 7 Scenario.minted
    = Revert (ERC721NonexistentToken 7).
Proof.
  destruct (@vault_and_metadata_reads Scenario.accepting) as (_ & Z & K & U & _).
  split; [|split].
  - apply Z; [exact minted_reachable|vm_compute; discriminate].
  - apply (K 0 Scenario.minted). vm_compute. discriminate.
  - apply U. reflexivity.
Defined.

Lemma cancel_checks_the_seller_first_witness :
  cancelArtistListing Scenario.bob 5 Scenario.artwork_listed
    = Revert NotSeller /\
  @cancelGiftCardListing Scenario.accepting Scenario.bob 5 Scenario.artwork_listed
    = Revert NotSeller.
Proof.
  destruct (@cancel_checks_the_seller_first Scenario.accepting Scenario.bob 5
              Scenario.artwork_listed) as (_ & _ & A & G); [discriminate|].
  split; [apply A|apply G]; try exact artwork_listed_reachable;
    vm_compute; discriminate.
Defined.

(* ================================================================== *)
(** * The further properties on concrete ledgers *)

Lemma genesis_reachable_typed : @reachable_typed Scenario.accepting Scenario.genesis.
Proof.
  unfold Scenario.genesis. apply reachable_typed_deployed.
  - intros t. destruct ((t =? Scenario.asset) && (nft_address =? Scenario.alice)); lia.
  - intros t s. change (nft_address =? Scenario.alice) with false.
    cbn [andb]. rewrite andb_false_r. reflexivity.
Qed.

Lemma minted_reachable_typed : @reachable_typed Scenario.accepting Scenario.minted.
Proof.
  unfold Scenario.minted.
  apply reachable_typed_after; [exact genesis_reachable_typed| |];
    vm_compute; repeat split; discriminate.
Qed.

Lemma listed_reachable_typed : @reachable_typed Scenario.accepting Scenario.listed.
Proof.
  unfold Scenario.listed.
  apply reachable_typed_after;
    [apply reachable_typed_after; [exact minted_reachable_typed| |]| |];
    vm_compute; repeat split; discriminate.
Qed.

(** X1 on the ledger where Alice has created one card of 100. *)
Lemma vaults_are_backed_witness :
  @reachable_typed Scenario.accepting Scenario.minted /\
  locked Scenario.minted Scenario.asset
    <= erc20_balances Scenario.minted Scenario.asset (@nft_address Scenario.accepting) /\
  locked Scenario.minted Scenario.asset = 100.
Proof.
  split; [exact minted_reachable_typed|].
  split; [|vm_compute; reflexivity].
  exact (proj2 (proj1 (@vaults_are_backed Scenario.accepting Scenario.minted
                         Scenario.asset minted_reachable_typed))).
Defined.

Lemma genesis_reachable : @reachable Scenario.accepting Scenario.genesis.
Proof. unfold Scenario.genesis. apply reachable_deployed. Qed.

(** X2 for Alice and her card. *)
Lemma owner_can_always_redeem_witness :
  _owners (nft Scenario.minted) 0 = Scenario.alice /\
  liquidated (_vaults (nft Scenario.minted) 0) = false /\
  exists w',
    @liquidate Scenario.accepting Scenario.alice 0 Scenario.minted = Ok tt w' /\
    liquidated (_vaults (nft w') 0) = true.
Proof.
  assert (O : _owners (nft Scenario.minted) 0 = Scenario.alice) by (vm_compute; reflexivity).
  assert (L : liquidated (_vaults (nft Scenario.minted) 0) = false)
    by (vm_compute; reflexivity).
  assert (A : Scenario.alice <> 0) by discriminate.
  split; [exact O|]. split; [exact L|].
  destruct (@owner_can_always_redeem Scenario.accepting Scenario.alice 0 Scenario.minted
              minted_reachable_typed O A L) as (w' & E & M & _).
  exists w'. split; [exact E|exact M].
Defined.

(** X3 for Alice's first card. *)
Lemma createGiftCard_stores_what_it_is_given_witness :
  100 <= erc20_balances Scenario.genesis Scenario.asset Scenario.alice /\
  100 <= erc20_allowances Scenario.genesis Scenario.asset Scenario.alice
           (@nft_address Scenario.accepting) /\
  exists w',
    @createGiftCard Scenario.accepting Scenario.alice "ipfs://card" Scenario.asset 100
      Scenario.genesis = Ok (_tokenIdCounter (nft Scenario.genesis)) w' /\
    getVaultContents (_tokenIdCounter (nft Scenario.genesis)) w'
      = Ok (mkTokenVault Scenario.asset 100 false) w' /\
    getMetadataURI (_tokenIdCounter (nft Scenario.genesis)) w'
      = Ok "ipfs://card"%string w'.
Proof.
  assert (B : 100 <= erc20_balances Scenario.genesis Scenario.asset Scenario.alice)
    by (vm_compute; discriminate).
  assert (A : 100 <= erc20_allowances Scenario.genesis Scenario.asset Scenario.alice
                       (@nft_address Scenario.accepting))
    by (vm_compute; discriminate).
  split; [exact B|]. split; [exact A|].
  destruct (@createGiftCard_stores_what_it_is_given Scenario.accepting
              Scenario.alice "ipfs://card"%string Scenario.asset 100 Scenario.genesis
              genesis_reachable) as (w' & E & V & U & _);
    try discriminate; try assumption;
    try (vm_compute; reflexivity); try (intros; reflexivity).
  exists w'. split; [exact E|]. split; [exact V|exact U].
Defined.

(** X4 on the deployed ledger: Alice has let the token contract move only 300. *)
Lemma createGiftCard_rejections_witness :
  @createGiftCard Scenario.accepting Scenario.alice "ipfs://card" 0 100 Scenario.genesis
    = Revert InvalidTokenAddress /\
  @createGiftCard Scenario.accepting Scenario.alice "ipfs://card" Scenario.asset 0
    Scenario.genesis = Revert InsufficientBalance /\
  @createGiftCard Scenario.accepting Scenario.alice "ipfs://card" Scenario.asset 400
    Scenario.genesis = Revert ERC20InsufficientAllowance.
Proof.
  assert (G : nft_entered (nft Scenario.genesis) = false) by reflexivity.
  split; [|split].
  - apply (proj1 (@createGiftCard_rejections Scenario.accepting Scenario.alice
                    "ipfs://card"%string 0 100 Scenario.genesis G)). reflexivity.
  - apply (proj1 (proj2 (@createGiftCard_rejections Scenario.accepting Scenario.alice
                    "ipfs://card"%string Scenario.asset 0 Scenario.genesis G)));
      [discriminate|reflexivity].
  - apply (proj2 (proj2 (@createGiftCard_rejections Scenario.accepting Scenario.alice
                    "ipfs://card"%string Scenario.asset 400 Scenario.genesis G)));
      try discriminate; try (vm_compute; reflexivity); vm_compute; discriminate.
Defined.

(** X5 on the ledger where Alice owns token 0 and has approved nobody. *)
Lemma listGiftCard_checks_in_order_witness :
  @listGiftCard Scenario.accepting Scenario.alice 7 70 Scenario.minted
    = Revert (ERC721NonexistentToken 7) /\
  @listGiftCard Scenario.accepting Scenario.bob 0 70 Scenario.minted = Revert NotSeller /\
  @listGiftCard Scenario.accepting Scenario.alice 0 0 Scenario.minted
    = Revert InvalidListing /\
  @listGiftCard Scenario.accepting Scenario.alice 0 70 Scenario.minted
    = Revert NotApproved.
Proof.
  split; [|split; [|split]].
  - apply (@listGiftCard_checks_in_order Scenario.accepting Scenario.alice 7 70
             Scenario.minted). vm_compute. reflexivity.
  - apply (@listGiftCard_checks_in_order Scenario.accepting Scenario.bob 0 70
             Scenario.minted); vm_compute; discriminate.
  - apply (@listGiftCard_checks_in_order Scenario.accepting Scenario.alice 0 0
             Scenario.minted); try (vm_compute; reflexivity); discriminate.
  - apply (@listGiftCard_checks_in_order Scenario.accepting Scenario.alice 0 70
             Scenario.minted); try (vm_compute; reflexivity); discriminate.
Defined.

(** X6 for Alice's token once the marketplace is approved for it. *)
Lemma listGiftCard_takes_custody_witness :
  _tokenApprovals (nft Scenario.approved) 0 = @market_address Scenario.accepting /\
  exists w',
    @listGiftCard Scenario.accepting Scenario.alice 0 70 Scenario.approved
      = Ok (_giftCardListingCounter (market Scenario.approved)) w' /\
    @ownerOf 0 w' = Ok (@market_address Scenario.accepting) w' /\
    @getApproved 0 w' = Ok 0 w'.
Proof.
  assert (A : _tokenApprovals (nft Scenario.approved) 0 = @market_address Scenario.accepting)
    by (vm_compute; reflexivity).
  split; [exact A|].
  destruct (@listGiftCard_takes_custody Scenario.accepting Scenario.alice 0 70
              Scenario.approved) as (w' & E & _ & O & P & _);
    try exact A; try discriminate; try (vm_compute; reflexivity).
  exists w'. split; [exact E|]. split; [exact O|exact P].
Defined.

(** X7 for Alice's resale listing. *)
Lemma seller_can_always_cancel_witness :
  GiftCardListing.active (_giftCardListings (market Scenario.listed) 0) = true /\
  exists w',
    @cancelGiftCardListing Scenario.accepting
      (GiftCardListing.seller (_giftCardListings (market Scenario.listed) 0)) 0
      Scenario.listed = Ok tt w' /\
    GiftCardListing.active (_giftCardListings (market w') 0) = false /\
    native w' = native Scenario.listed.
Proof.
  assert (A : GiftCardListing.active (_giftCardListings (market Scenario.listed) 0) = true)
    by (vm_compute; reflexivity).
  split; [exact A|].
  destruct (@seller_can_always_cancel Scenario.accepting 0 Scenario.listed
              listed_reachable A) as (w' & E & _ & I & N & _).
  exists w'. split; [exact E|]. split; [exact I|exact N].
Defined.

(** X8 for Bob buying Alice's listed card at its price. *)
Lemma purchaseGiftCard_settles_witness :
  GiftCardListing.active (_giftCardListings (market Scenario.listed) 0) = true /\
  GiftCardListing.price (_giftCardListings (market Scenario.listed) 0) <= 70 /\
  70 <= native Scenario.listed Scenario.bob /\
  exists w',
    @purchaseGiftCard Scenario.accepting Scenario.bob 70 0 Scenario.listed = Ok tt w' /\
    @ownerOf (GiftCardListing.tokenId (_giftCardListings (market Scenario.listed) 0)) w'
      = Ok Scenario.bob w' /\
    GiftCardListing.active (_giftCardListings (market w') 0) = false.
Proof.
  assert (B : Scenario.bob <> 0) by discriminate.
  assert (A : GiftCardListing.active (_giftCardListings (market Scenario.listed) 0) = true)
    by (vm_compute; reflexivity).
  assert (P : GiftCardListing.price (_giftCardListings (market Scenario.listed) 0) <= 70)
    by (vm_compute; discriminate).
  assert (F : 70 <= native Scenario.listed Scenario.bob) by (vm_compute; discriminate).
  assert (M : 0 <= native Scenario.listed (@market_address Scenario.accepting))
    by (vm_compute; discriminate).
  assert (R : forall seen,
            @receive_ether Scenario.accepting
              (GiftCardListing.seller (_giftCardListings (market Scenario.listed) 0))
              seen 70 = true) by (intros seen; reflexivity).
  split; [exact A|]. split; [exact P|]. split; [exact F|].
  destruct (@purchaseGiftCard_settles Scenario.accepting Scenario.bob 70 0 Scenario.listed
              listed_reachable B A P F M R) as (w' & E & O & I & _).
  exists w'. split; [exact E|]. split; [exact O|exact I].
Defined.

Lemma sold_to_bob :
  @purchaseGiftCard Scenario.accepting Scenario.bob 70 0 Scenario.listed
    = Ok tt Scenario.sold.
Proof. vm_compute. reflexivity. Qed.

(** X9 for Bob after his purchase. *)
Lemma purchased_card_redeems_for_buyer_witness :
  @purchaseGiftCard Scenario.accepting Scenario.bob 70 0 Scenario.listed
    = Ok tt Scenario.sold /\
  liquidated
    (_vaults (nft Scenario.listed)
       (GiftCardListing.tokenId (_giftCardListings (market Scenario.listed) 0))) = false /\
  exists w'',
    @liquidate Scenario.accepting Scenario.bob
      (GiftCardListing.tokenId (_giftCardListings (market Scenario.listed) 0))
      Scenario.sold = Ok tt w''.
Proof.
  assert (B : @valid_sender Scenario.accepting Scenario.bob)
    by (repeat split; discriminate).
  assert (V : is_uint256 70) by (split; vm_compute; discriminate).
  assert (I : is_uint256 0) by (split; vm_compute; discriminate).
  assert (L : liquidated
                (_vaults (nft Scenario.listed)
                   (GiftCardListing.tokenId
                      (_giftCardListings (market Scenario.listed) 0))) = false)
    by (vm_compute; reflexivity).
  split; [exact sold_to_bob|]. split; [exact L|].
  destruct (@purchased_card_redeems_for_buyer Scenario.accepting Scenario.bob 70 0
              Scenario.listed Scenario.sold listed_reachable_typed B V I sold_to_bob L)
    as (w'' & E & _).
  exists w''. exact E.
Defined.

(** X10 for Bob's purchase: the 70 he pays end with Alice. *)
Lemma marketplace_keeps_no_payment_witness :
  native (@after Scenario.accepting (PurchaseGiftCard Scenario.bob 70 0) Scenario.listed)
    (@market_address Scenario.accepting)
  = native Scenario.listed (@market_address Scenario.accepting) /\
  native (@after Scenario.accepting (PurchaseGiftCard Scenario.bob 70 0) Scenario.listed)
    Scenario.alice = 70.
Proof.
  split; [|vm_compute; reflexivity].
  apply (@marketplace_keeps_no_payment Scenario.accepting
           (PurchaseGiftCard Scenario.bob 70 0) Scenario.listed listed_reachable).
  vm_compute. repeat split; discriminate.
Defined.

Lemma artwork_sold_to_bob :
  @purchaseArtistDesign Scenario.accepting Scenario.bob 25 0 Scenario.artwork_listed
    = Ok "QmArtwork"%string Scenario.artwork_sold.
Proof. vm_compute. reflexivity. Qed.

(** X11 for the artwork Bob has bought. *)
Lemma artwork_sells_at_most_once_witness :
  @purchaseArtistDesign Scenario.accepting Scenario.bob 25 0 Scenario.artwork_listed
    = Ok "QmArtwork"%string Scenario.artwork_sold /\
  @purchaseArtistDesign Scenario.accepting Scenario.bob 25 0
    (@after_all Scenario.accepting [CreateArtistListing Scenario.alice "QmArtwork" 10]
       Scenario.artwork_sold)
    = Revert InvalidListing.
Proof.
  split; [exact artwork_sold_to_bob|].
  apply (@artwork_sells_at_most_once Scenario.accepting 0 Scenario.artwork_listed
           Scenario.artwork_sold artwork_listed_reachable
           (or_introl (ex_intro _ Scenario.bob (ex_intro _ 25
              (ex_intro _ "QmArtwork"%string artwork_sold_to_bob))))
           [CreateArtistListing Scenario.alice "QmArtwork" 10] Scenario.bob 25
           Scenario.alice).
  vm_compute. discriminate.
Defined.

(** X12 for Alice's artwork listing across its sale. *)
Lemma listing_terms_never_change_witness :
  0 < _artistListingCounter (market Scenario.artwork_listed) /\
  ArtistListing.price
    (_artistListings
       (market (@after_all Scenario.accepting
                  [PurchaseArtistDesign Scenario.bob 25 0;
                   CancelArtistListing Scenario.alice 0] Scenario.artwork_listed)) 0)
  = ArtistListing.price (_artistListings (market Scenario.artwork_listed) 0).
Proof.
  assert (C : 0 < _artistListingCounter (market Scenario.artwork_listed))
    by (vm_compute; reflexivity).
  split; [exact C|].
  exact (proj2 (proj2 (proj2
           (proj1 (@listing_terms_never_change Scenario.accepting
                     [PurchaseArtistDesign Scenario.bob 25 0;
                      CancelArtistListing Scenario.alice 0]
                     Scenario.artwork_listed 0) C)))).
Defined.

(** X13 on the deployed ledger. *)
Lemma createArtistListing_accepts_exactly_witness :
  createArtistListing Scenario.alice "" 10 Scenario.genesis = Revert InvalidListing /\
  createArtistListing Scenario.alice "QmArtwork" 0 Scenario.genesis
    = Revert InvalidListing /\
  exists l w',
    createArtistListing Scenario.alice "QmArtwork" 10 Scenario.genesis = Ok l w'.
Proof.
  split; [|split].
  - apply (proj1 (proj2 (createArtistListing_accepts_exactly Scenario.alice
                           ""%string 10 Scenario.genesis))).
    left. reflexivity.
  - apply (proj1 (proj2 (createArtistListing_accepts_exactly Scenario.alice
                           "QmArtwork"%string 0 Scenario.genesis))).
    right. reflexivity.
  - apply (proj1 (createArtistListing_accepts_exactly Scenario.alice
                    "QmArtwork"%string 10 Scenario.genesis)).
    split; [discriminate|]. split; [discriminate|vm_compute; reflexivity].
Defined.

(** X16 on the ledger with one artwork listing. *)
Lemma full_table_reads_return_every_listing_witness :
  exists listings,
    getArtistListings Scenario.artwork_listed = Some listings /\
    Z.of_nat (List.length listings) = _artistListingCounter (market Scenario.artwork_listed).
Proof.
  destruct (proj1 (@full_table_reads_return_every_listing Scenario.accepting
                     Scenario.artwork_listed artwork_listed_reachable))
    as (listings & E & L & _).
  exists listings. split; [exact E|exact L].
Defined.

(** X17 for Bob offering 5 for the artwork listed at 10, and for a listing
    that was never created. *)
Lemma purchases_check_listing_then_payment_witness :
  @purchaseArtistDesign Scenario.accepting Scenario.bob 5 0 Scenario.artwork_listed
    = Revert InsufficientPayment /\
  @purchaseArtistDesign Scenario.accepting Scenario.bob 5 3 Scenario.artwork_listed
    = Revert InvalidListing.
Proof.
  assert (G : market_entered (market Scenario.artwork_listed) = false)
    by (vm_compute; reflexivity).
  assert (F : 5 <= native Scenario.artwork_listed Scenario.bob)
    by (vm_compute; discriminate).
  split.
  - apply (proj1 (proj2 (@purchases_check_listing_then_payment Scenario.accepting
                           Scenario.bob 5 0 Scenario.artwork_listed G F)));
      vm_compute; reflexivity.
  - apply (proj1 (@purchases_check_listing_then_payment Scenario.accepting
                    Scenario.bob 5 3 Scenario.artwork_listed G F)).
    vm_compute. reflexivity.
Defined.

Lemma redeemed_card_sold_to_bob :
  @purchaseGiftCard Scenario.accepting Scenario.bob 70 0 Scenario.redeemed_listed
    = Ok tt Scenario.redeemed_sold.
Proof. vm_compute. reflexivity. Qed.

(** X18 for the card Alice redeemed before listing it. *)
Lemma redeemed_card_is_still_sold_witness :
  liquidated
    (_vaults (nft Scenario.redeemed_listed)
       (GiftCardListing.tokenId (_giftCardListings (market Scenario.redeemed_listed) 0)))
    = true /\
  @purchaseGiftCard Scenario.accepting Scenario.bob 70 0 Scenario.redeemed_listed
    = Ok tt Scenario.redeemed_sold /\
  @liquidate Scenario.accepting Scenario.bob
    (GiftCardListing.tokenId (_giftCardListings (market Scenario.redeemed_listed) 0))
    Scenario.redeemed_sold = Revert AlreadyLiquidated.
Proof.
  assert (L : liquidated
                (_vaults (nft Scenario.redeemed_listed)
                   (GiftCardListing.tokenId
                      (_giftCardListings (market Scenario.redeemed_listed) 0))) = true)
    by (vm_compute; reflexivity).
  assert (G : nft_entered (nft Scenario.redeemed_listed) = false)
    by (vm_compute; reflexivity).
  assert (B : Scenario.bob <> 0) by discriminate.
  split; [exact L|]. split; [exact redeemed_card_sold_to_bob|].
  exact (proj2 (proj2 (proj2
           (@redeemed_card_is_still_sold Scenario.accepting Scenario.bob 70 0
              Scenario.redeemed_listed Scenario.redeemed_sold G B
              redeemed_card_sold_to_bob L)))).
Defined.

Lemma mock_asset_deployed :
  MockERC20.constructor Scenario.alice "Mock" "MCK" 5 = inr Scenario.mock_asset.
Proof. vm_compute. reflexivity. Qed.

Lemma mock_asset_reachable : MockERC20.reachable Scenario.mock_asset.
Proof.
  apply (MockERC20.reachable_constructed Scenario.alice "Mock"%string "MCK"%string 5);
    [discriminate|split; vm_compute; discriminate|exact mock_asset_deployed].
Qed.

Lemma funded_book_is_mock_asset :
  forall a, erc20_balances Scenario.funded Scenario.asset a
            = MockERC20.balanceOf a Scenario.mock_asset.
Proof. intros a. reflexivity. Qed.

(** X19 for the mock asset Alice deployed. *)
Lemma supply_is_the_sum_of_balances_witness :
  MockERC20.reachable Scenario.mock_asset /\
  0 <= MockERC20.balanceOf Scenario.alice Scenario.mock_asset
    <= MockERC20.totalSupply Scenario.mock_asset.
Proof.
  split; [exact mock_asset_reachable|].
  exact (proj1 (proj2 (supply_is_the_sum_of_balances Scenario.mock_asset
                         mock_asset_reachable)) Scenario.alice).
Defined.

(** X20 for a transfer of 7 base units from Alice to Bob. *)
Lemma transfer_agrees_with_the_ledger_witness :
  exists s' w',
    MockERC20.transfer Scenario.alice Scenario.bob 7 Scenario.mock_asset = inr s' /\
    erc20_transfer Scenario.asset Scenario.alice Scenario.bob 7 Scenario.funded
      = Ok tt w' /\
    erc20_balances w' Scenario.asset Scenario.bob = MockERC20.balanceOf Scenario.bob s'.
Proof.
  assert (V : 0 <= 7) by lia.
  pose proof (transfer_agrees_with_the_ledger Scenario.asset Scenario.alice Scenario.bob 7
                Scenario.mock_asset Scenario.funded mock_asset_reachable V
                funded_book_is_mock_asset) as H.
  destruct (MockERC20.transfer Scenario.alice Scenario.bob 7 Scenario.mock_asset)
    as [e|s'] eqn:E1;
    [vm_compute in E1; discriminate E1|].
  destruct (erc20_transfer Scenario.asset Scenario.alice Scenario.bob 7 Scenario.funded)
    as [[] w'|e'] eqn:E2; [|destruct H].
  exists s', w'. split; [reflexivity|]. split; [reflexivity|]. apply H.
Defined.

(** X21 for Bob minting 3 tokens to himself. *)
Lemma mint_accepts_exactly_witness :
  MockERC20.totalSupply Scenario.mock_asset + 3 * 10 ^ MockERC20.decimals
    <= MAX_UINT256 /\
  exists s',
    MockERC20.mint Scenario.bob Scenario.bob 3 Scenario.mock_asset = inr s' /\
    MockERC20.balanceOf Scenario.bob s'
      = MockERC20.balanceOf Scenario.bob Scenario.mock_asset
        + 3 * 10 ^ MockERC20.decimals.
Proof.
  assert (A : 0 <= 3) by lia.
  assert (B : Scenario.bob <> 0) by discriminate.
  assert (R : MockERC20.totalSupply Scenario.mock_asset + 3 * 10 ^ MockERC20.decimals
              <= MAX_UINT256) by (vm_compute; discriminate).
  split; [exact R|].
  destruct (proj2 (proj2 (proj2
              (mint_accepts_exactly Scenario.bob Scenario.bob 3 Scenario.mock_asset
                 mock_asset_reachable A))) B R) as (s' & E & C & _).
  exists s'. split; [exact E|exact C].
Defined.

(** X22 for Bob calling the faucet. *)
Lemma faucet_gives_1000_tokens_witness :
  MockERC20.totalSupply Scenario.mock_asset + 1000 * 10 ^ 18 <= MAX_UINT256 /\
  exists s',
    MockERC20.faucet Scenario.bob Scenario.mock_asset = inr s' /\
    MockERC20.balanceOf Scenario.bob s'
      = MockERC20.balanceOf Scenario.bob Scenario.mock_asset + 1000 * 10 ^ 18.
Proof.
  assert (B : Scenario.bob <> 0) by discriminate.
  assert (R : MockERC20.totalSupply Scenario.mock_asset + 1000 * 10 ^ 18 <= MAX_UINT256)
    by (vm_compute; discriminate).
  split; [exact R|].
  destruct (proj1 (faucet_gives_1000_tokens Scenario.bob Scenario.mock_asset
                     mock_asset_reachable B) R) as (s' & E & C & _).
  exists s'. split; [exact E|exact C].
Defined.

(** X23 for Alice deploying the mock asset with 5 tokens. *)
Lemma constructor_mints_the_initial_supply_witness :
  5 * 10 ^ MockERC20.decimals <= MAX_UINT256 /\
  exists s,
    MockERC20.constructor Scenario.alice "Mock" "MCK" 5 = inr s /\
    MockERC20.balanceOf Scenario.alice s = 5 * 10 ^ MockERC20.decimals.
Proof.
  assert (A : Scenario.alice <> 0) by discriminate.
  assert (N : 0 <= 5) by lia.
  assert (R : 5 * 10 ^ MockERC20.decimals <= MAX_UINT256) by (vm_compute; discriminate).
  split; [exact R|].
  destruct (proj2 (constructor_mints_the_initial_supply Scenario.alice "Mock"%string
                     "MCK"%string 5 A N) R) as (s & E & _ & C & _).
  exists s. split; [exact E|exact C].
Defined.

(** X24 for a transfer from Alice to Bob. *)
Lemma supply_only_grows_by_minting_witness :
  MockERC20.totalSupply
    (MockERC20.after (MockERC20.Transfer Scenario.alice Scenario.bob 7)
       Scenario.mock_asset)
  = MockERC20.totalSupply Scenario.mock_asset.
Proof.
  assert (V : MockERC20.valid_call (MockERC20.Transfer Scenario.alice Scenario.bob 7)).
  { split; [discriminate|]. split; vm_compute; discriminate. }
  exact (supply_only_grows_by_minting (MockERC20.Transfer Scenario.alice Scenario.bob 7)
           Scenario.mock_asset mock_asset_reachable V).
Defined.

Lemma no_key_takes_the_mock_path : IpfsService.mock_path None None.
Proof. left. reflexivity. Qed.

(** X25 for a store of texts without a key: the metadata "card" reads
    back. *)
Lemma mock_uploads_read_back_witness :
  IpfsService.mock_path None None /\
  IpfsService.fetchMetadata Some (fun _ => None)
    (fst (IpfsService.uploadMetadata (fun m : string => m) None None "card"%string
            Scenario.empty_store))
    (snd (IpfsService.uploadMetadata (fun m : string => m) None None "card"%string
            Scenario.empty_store))
  = Some "card"%string.
Proof.
  split; [exact no_key_takes_the_mock_path|].
  exact (proj1 (mock_uploads_read_back (fun m : string => m) Some
                  (fun b : string => b) None None (fun _ => None) Scenario.empty_store
                  no_key_takes_the_mock_path) "card"%string).
Defined.

(** X26 for the same store: the image read of a stored text answers with a
    gateway address. *)
Lemma mock_reads_check_the_kind_witness :
  exists cid,
    fst (IpfsService.uploadMetadata (fun m : string => m) None None
           "card"%string Scenario.empty_store) = String.append "ipfs://" cid /\
    IpfsService.fetchImage (fun b : string => b)
      (fst (IpfsService.uploadMetadata (fun m : string => m) None None
              "card"%string Scenario.empty_store))
      (snd (IpfsService.uploadMetadata (fun m : string => m) None None
              "card"%string Scenario.empty_store))
    = String.append IpfsService.IPFS_GATEWAY cid.
Proof.
  exact (proj2 (mock_reads_check_the_kind (fun m : string => m) Some
                  (fun b : string => b) None None (fun _ => None) Scenario.empty_store
                  no_key_takes_the_mock_path) "card"%string).
Defined.

(** X27 for an image followed by a text: the image is still there. *)
Lemma mock_store_keeps_its_entries_witness :
  IpfsService.map_get (IpfsService.mock_cid 1)
    (IpfsService.mockStorage
       (IpfsService.after_uploads (fun m : string => m)
          [IpfsService.Metadata None None "card"%string]
          (IpfsService.after_uploads (fun m : string => m)
             [IpfsService.Image None None "art"%string] Scenario.empty_store)))
  = Some (IpfsService.StoredBlob "art"%string).
Proof.
  apply (mock_store_keeps_its_entries (fun m : string => m) Some (fun b : string => b)
           [IpfsService.Image None None "art"%string]
           [IpfsService.Metadata None None "card"%string]).
  - vm_compute. reflexivity.
  - vm_compute. reflexivity.
Defined.

(** X28 for Alice listing the artwork "art" at 10 on the deployed
    ledger. *)
Lemma uploaded_artwork_is_listed_and_shown_witness :
  exists l w',
    createArtistListing Scenario.alice
      (fst (IpfsService.uploadImage None None "art"%string Scenario.empty_store)) 10
      Scenario.genesis = Ok l w' /\
    IpfsService.getIPFSUrl (fun b : string => b)
      (String.append "ipfs://" (ArtistListing.ipfsHash (_artistListings (market w') l)))
      (snd (IpfsService.uploadImage None None "art"%string Scenario.empty_store))
    = "art"%string.
Proof.
  assert (P : 10 <> 0) by discriminate.
  assert (C : _artistListingCounter (market Scenario.genesis) < MAX_UINT256)
    by (vm_compute; reflexivity).
  destruct (uploaded_artwork_is_listed_and_shown (fun b : string => b) None None
              "art"%string Scenario.empty_store Scenario.alice 10 Scenario.genesis
              no_key_takes_the_mock_path P C) as (l & w' & E & _ & U).
  exists l, w'. split; [exact E|exact U].
Defined.
